(** * smcview: session driver, trace store and graph renderer

    A shallow embedding of the Go packages [maude], [smcdump], [grapher]
    and [util] of smcview, and the properties of its specification that
    were checked against it.

    Conventions.
    - A Go [string] is a Rocq [string]; a [[]byte] is a [list byte].
    - An [int32] is a [Z] in the signed 32-bit range; arithmetic that can
      leave the range is wrapped with [int32].
    - A Go call either returns, panics, or never returns (it waits on a
      pipe for output that does not come): see [outcome].
    - Mutable objects reached through pointers ([*os.File], the package
      variable [headerBuffer], the receiver of a pointer method) are
      threaded explicitly. *)

From Stdlib Require Import ZArith Lia List Ascii String.
From Stdlib.Strings Require Import Byte.
From stdpp Require Import base option list gmap strings pretty.

Local Open Scope Z_scope.

(** ** Outcomes of a Go call *)

Inductive outcome (A : Type) : Type :=
  | Done (a : A)   (* the call returns [a] *)
  | Panics         (* run-time panic: index or slice out of range, negative [make] *)
  | Blocks.        (* the call never returns *)
Arguments Done {A} a.
Arguments Panics {A}.
Arguments Blocks {A}.

#[global] Instance outcome_ret : MRet outcome := @Done.
#[global] Instance outcome_bind : MBind outcome := fun A B f m =>
  match m with
  | Done a => f a
  | Panics => Panics
  | Blocks => Blocks
  end.

Definition returns {A} (m : outcome A) : Prop := exists a, m = Done a.

(** ** Integers and bytes *)

Module Int32.

Definition modulus : Z := 2 ^ 32.
Definition max_int : Z := 2 ^ 31 - 1.
Definition min_int : Z := - 2 ^ 31.

(** Conversion of an integer to [int32], with wrap-around. *)
Definition int32 (z : Z) : Z :=
  let u := z mod modulus in
  if u <? 2 ^ 31 then u else u - modulus.

Definition in_range (z : Z) : Prop := min_int <= z <= max_int.

Definition byte_val (b : byte) : Z := Z.of_N (Byte.to_N b).

Definition byte_of_Z (z : Z) : byte :=
  match Byte.of_N (Z.to_N (z mod 256)) with
  | Some b => b
  | None => x00
  end.

(** [binary.LittleEndian.Uint32] followed by the conversion to [int32]. *)
Definition decode (bs : list byte) : Z :=
  match bs with
  | [b0; b1; b2; b3] =>
      int32 (byte_val b0 + byte_val b1 * 2 ^ 8
             + byte_val b2 * 2 ^ 16 + byte_val b3 * 2 ^ 24)
  | _ => 0
  end.

(** The four bytes of an [int32], least significant first. *)
Definition encode (z : Z) : list byte :=
  let u := z mod modulus in
  [byte_of_Z u; byte_of_Z (u / 2 ^ 8); byte_of_Z (u / 2 ^ 16);
   byte_of_Z (u / 2 ^ 24)].

End Int32.

Abbreviation int32 := Int32.int32.

(** Indexing a slice with an [int32]: out of range is a panic. *)
Definition index {A} (l : list A) (i : Z) : outcome A :=
  if i <? 0 then Panics
  else match l !! Z.to_nat i with
       | Some a => Done a
       | None => Panics
       end.

(** [make([]T, n)] for an [int32] length: a negative length is a panic. *)
Definition make {A} (zero : A) (n : Z) : outcome (list A) :=
  if n <? 0 then Panics else Done (replicate (Z.to_nat n) zero).

(** [copy(dst, src)] at the start of [dst]: the rest of [dst] is kept. *)
Definition overwrite {A} (dst src : list A) : list A :=
  take (length dst) src ++ drop (length src) dst.

#[global] Instance byte_eq_dec : EqDecision byte := Byte.byte_eq_dec.

Definition bytes_Equal (a b : list byte) : bool := bool_decide (a = b).

(** ** Files ([os.File]) and readers ([io.Reader], [bufio.Reader]) *)

Module Os.

(** An open file: its descriptor, the bytes of the file (the dump is
    never written while it is read), the file offset and whether the
    handle is still open. *)
Record File := mkFile
  { fd : nat; content : list byte; offset : nat; is_open : bool }.

(** The part of the operating system the program sees: the files by
    path, and the descriptors handed out and not yet closed. *)
Record t := mkOs
  { disk : gmap string (list byte); open_fds : gset nat; next_fd : nat }.

Definition Open (path : string) (os : t) : option File * t :=
  match disk os !! path with
  | None => (None, os)
  | Some bs =>
      (Some (mkFile (next_fd os) bs 0 true),
       mkOs (disk os) ({[next_fd os]} ∪ open_fds os) (S (next_fd os)))
  end.

Definition Close (f : File) (os : t) : File * t :=
  (mkFile (fd f) (content f) (offset f) false,
   mkOs (disk os) (open_fds os ∖ {[fd f]}) (next_fd os)).

(** [f.Read(p)] with [len(p) = n]: at most [n] bytes from the offset;
    the empty list stands for an error (end of file, closed handle). *)
Definition Read (n : nat) (f : File) : list byte * File :=
  if is_open f
  then let bs := take n (drop (offset f) (content f)) in
       (bs, mkFile (fd f) (content f) (offset f + length bs) true)
  else ([], f).

(** [f.Seek(off, 0)]: a negative offset is refused and nothing moves. *)
Definition Seek (off : Z) (f : File) : File :=
  if is_open f && (0 <=? off)
  then mkFile (fd f) (content f) (Z.to_nat off) true
  else f.

(** [f.ReadAt(p, off)] with [len(p) = n]: the bytes read; the offset of
    the file does not move. *)
Definition ReadAt (n : nat) (off : Z) (f : File) : list byte :=
  if is_open f && (0 <=? off)
  then take n (drop (Z.to_nat off) (content f))
  else [].

End Os.

(** [io.Reader]: one call of [Read] with a buffer of the given length. *)
Class IoReader (R : Type) := io_Read : nat -> R -> list byte * R.

#[global] Instance File_reader : IoReader Os.File := Os.Read.

Module Bufio.

(** A [bufio.Reader] on a file. The buffer holds the bytes of the file
    from [r] up to the offset of the underlying file, which the reader
    moves as it fills its buffer. *)
Record Reader := mkReader { rd : Os.File; r : nat; size : nat }.

Definition NewReaderSize (f : Os.File) (size : nat) : Reader :=
  mkReader f (Os.offset f) size.

Definition Buffered (b : Reader) : nat := (Os.offset (rd b) - r b)%nat.

Definition buffer (b : Reader) : list byte :=
  take (Buffered b) (drop (r b) (Os.content (rd b))).

(** [b.Read(p)] with [len(p) = n]. *)
Definition Read (n : nat) (b : Reader) : list byte * Reader :=
  if (n =? 0)%nat then ([], b)
  else if (Buffered b =? 0)%nat then
    if (size b <=? n)%nat then
      (* large read, empty buffer: read directly into p *)
      let '(bs, f) := Os.Read n (rd b) in
      (bs, mkReader f (Os.offset f) (size b))
    else
      (* one read into the buffer, then copy *)
      let '(bs, f) := Os.Read (size b) (rd b) in
      let out := take n bs in
      (out, mkReader f (r b + length out) (size b))
  else
    let out := take n (buffer b) in
    (out, mkReader (rd b) (r b + length out) (size b)).

(** [b.ReadByte()]: [None] at the end of the file. *)
Definition ReadByte (b : Reader) : option byte * Reader :=
  if (Buffered b =? 0)%nat then
    let '(bs, f) := Os.Read (size b) (rd b) in
    match bs with
    | [] => (None, mkReader f (r b) (size b))
    | c :: _ => (Some c, mkReader f (S (r b)) (size b))
    end
  else
    match buffer b with
    | [] => (None, b)
    | c :: _ => (Some c, mkReader (rd b) (S (r b)) (size b))
    end.

Fixpoint find_byte (delim : byte) (bs : list byte) : option nat :=
  match bs with
  | [] => None
  | c :: bs' => if bool_decide (c = delim) then Some 0%nat
                else S <$> find_byte delim bs'
  end.

(** [b.ReadString(delim)]: the loop of [ReadSlice] inside
    [collectFragments]. The bytes up to and including the first
    delimiter, or up to the end of the file when there is none. *)
Fixpoint ReadString_loop (fuel : nat) (delim : byte) (acc : list byte)
    (b : Reader) : list byte * Reader :=
  match fuel with
  | O => (acc, b)
  | S fuel' =>
      match find_byte delim (buffer b) with
      | Some i =>
          (acc ++ take (S i) (buffer b),
           mkReader (rd b) (r b + S i) (size b))
      | None =>
          if (size b <=? Buffered b)%nat then
            (* buffer full: hand out the fragment and go on *)
            ReadString_loop fuel' delim (acc ++ buffer b)
              (mkReader (rd b) (Os.offset (rd b)) (size b))
          else
            let '(bs, f) := Os.Read (size b - Buffered b) (rd b) in
            match bs with
            | [] => (acc ++ buffer b, mkReader f (Os.offset f) (size b))
            | _ => ReadString_loop fuel' delim acc (mkReader f (r b) (size b))
            end
      end
  end.

Definition ReadString (delim : byte) (b : Reader) : list byte * Reader :=
  ReadString_loop (2 * length (Os.content (rd b)) + 2) delim [] b.

End Bufio.

#[global] Instance Bufio_reader : IoReader Bufio.Reader := Bufio.Read.

(** [io.ReadFull(r, buf)] with [len(buf) = n]: [None] when the reader
    fails before [n] bytes were read; the bytes read until then are
    consumed all the same. *)
Fixpoint ReadFull_loop {R} `{IoReader R} (fuel need : nat) (acc : list byte)
    (rdr : R) : option (list byte) * R :=
  match need with
  | O => (Some acc, rdr)
  | S _ =>
      match fuel with
      | O => (None, rdr)
      | S fuel' =>
          let '(bs, rdr') := io_Read need rdr in
          match bs with
          | [] => (None, rdr')
          | _ => ReadFull_loop fuel' (need - length bs) (acc ++ bs) rdr'
          end
      end
  end.

Definition ReadFull {R} `{IoReader R} (n : nat) (rdr : R) : option (list byte) * R :=
  ReadFull_loop n n [] rdr.

(** [binary.Read(r, binary.LittleEndian, &x)] for [x int32] holding [old]:
    on a failed read [x] keeps its value. *)
Definition binary_Read {R} `{IoReader R} (old : Z) (rdr : R) : Z * R :=
  let '(bs, rdr') := ReadFull 4 rdr in
  (match bs with Some bs => Int32.decode bs | None => old end, rdr').

(** * Package smcdump: the trace store *)

Module Smcdump.

(** [TransitionType] is an [int]: any byte of the file converts to one. *)
Definition TransitionType := Z.
Definition Idle : TransitionType := 0.
Definition Rule : TransitionType := 1.
Definition Opaque : TransitionType := 2.

Record Transition := mkTransition
  { Target : Z; Label : Z; TrType : TransitionType }.

Record State := mkState
  { Successors : list Transition; Solution : bool; Term : Z; Strategy : Z }.

(** Starting bytes of any dump file. *)
Definition header : list byte := list_byte_of_string "msmc-output".

(** The package variable [headerBuffer] starts as [make([]byte, 11)]. *)
Definition headerBuffer_init : list byte := replicate 11 x00.

(** [HasSignature]: the shared [headerBuffer] is passed in and out. *)
Definition HasSignature (path : string) (headerBuffer : list byte) (os : Os.t)
    : bool * list byte * Os.t :=
  match Os.Open path os with
  | (None, os) => (false, headerBuffer, os)
  | (Some file, os) =>
      let '(bs, file) := Os.Read (length headerBuffer) file in
      let headerBuffer := overwrite headerBuffer bs in
      (* deferred file.Close() *)
      let '(_, os) := Os.Close file os in
      (bytes_Equal headerBuffer header, headerBuffer, os)
  end.

(** The implementation of [SmcDump] that reads from the file. *)
Record smcdump := mkDump
  { path : list Z; cycle : list Z;
    initialTerm : string; ltlFormula : string;
    statesIndex : list Z; stringsIndex : list Z;
    file : Os.File }.

Definition set_file (d : smcdump) (f : Os.File) : smcdump :=
  mkDump (path d) (cycle d) (initialTerm d) (ltlFormula d)
         (statesIndex d) (stringsIndex d) f.

Definition LtlFormula (d : smcdump) : string := ltlFormula d.
Definition InitialTerm (d : smcdump) : string := initialTerm d.
Definition Path (d : smcdump) : list Z := path d.
Definition Cycle (d : smcdump) : list Z := cycle d.

Definition GetString (stringNr : Z) (d : smcdump) : outcome string :=
  hi ← index (stringsIndex d) (int32 (stringNr + 1));
  lo ← index (stringsIndex d) stringNr;
  text ← make x00 (int32 (hi - lo));
  let text := overwrite text (Os.ReadAt (length text) lo (file d)) in
  mret (string_of_list_byte text).

Definition NumberOfStates (d : smcdump) : Z := Z.of_nat (length (statesIndex d)).

Definition PropertyHolds (d : smcdump) : bool := (length (cycle d) =? 0)%nat.

(** One byte read into [tmp], which keeps its value when the read fails. *)
Definition read_tmp (tmp : byte) (f : Os.File) : byte * Os.File :=
  let '(bs, f) := Os.Read 1 f in
  (match bs with c :: _ => c | [] => tmp end, f).

(** The body of the loop of [State], over the successors still to read. *)
Fixpoint read_successors (succs : list Transition) (tmp : byte) (f : Os.File)
    : list Transition * Os.File :=
  match succs with
  | [] => ([], f)
  | tr :: rest =>
      let '(target, f) := binary_Read (Target tr) f in
      let '(tmp, f) := read_tmp tmp f in
      let trtype := Int32.byte_val tmp in
      let '(label, f) :=
        if (trtype =? Rule) || (trtype =? Opaque)
        then binary_Read (Label tr) f
        else (Label tr, f) in
      let '(rest, f) := read_successors rest tmp f in
      (mkTransition target label trtype :: rest, f)
  end.

(** [State]: the offset of the file moves, so the dump is returned too. *)
Definition GetState (stateNr : Z) (d : smcdump) : outcome (State * smcdump) :=
  off ← index (statesIndex d) stateNr;
  let f := Os.Seek off (file d) in
  let '(term, f) := binary_Read 0 f in
  let '(strategy, f) := binary_Read 0 f in
  let '(tmp, f) := read_tmp x00 f in
  let solution := negb (Int32.byte_val tmp =? 0) in
  let '(nrSuccessors, f) := binary_Read 0 f in
  succs ← make (mkTransition 0 0 0) nrSuccessors;
  let '(succs, f) := read_successors succs tmp f in
  mret (mkState succs solution term strategy, set_file d f).

Definition Close (d : smcdump) (os : Os.t) : smcdump * Os.t :=
  let '(f, os) := Os.Close (file d) os in (set_file d f, os).

Fixpoint readArray {R} `{IoReader R} (array : list Z) (reader : R) : list Z * R :=
  match array with
  | [] => ([], reader)
  | x :: rest =>
      let '(x, reader) := binary_Read x reader in
      let '(rest, reader) := readArray rest reader in
      (x :: rest, reader)
  end.

(** What [Read] returns: a dump, or [nil] and an error. *)
Inductive ReadResult :=
  | Opened (d : smcdump)
  | Failed (err : string).

(** [s[:len(s)-1]] *)
Definition drop_last (s : list byte) : outcome (list byte) :=
  match s with
  | [] => Panics
  | _ => Done (take (length s - 1) s)
  end.

Definition byte_or_zero (b : option byte) : Z :=
  match b with Some c => Int32.byte_val c | None => 0 end.

(** [Read], from the point where the file has been opened. No path
    through it closes the file. *)
Definition Read_file (file : Os.File) : outcome ReadResult :=
  let reader := Bufio.NewReaderSize file 1024 in
  (* Checks that the initial mark is present *)
  let '(bs, reader) := Bufio.Read 11 reader in
  let initialMark := overwrite (replicate 11 x00) bs in
  if negb (bytes_Equal initialMark header)
  then mret (Failed "bad format (no initial mark)") else
  (* Checks that the version is correct *)
  let '(version, reader) := Bufio.ReadByte reader in
  if negb (byte_or_zero version =? 0)
  then mret (Failed "bad format (bad version)") else
  let '(initialTerm, reader) := Bufio.ReadString x00 reader in
  let '(ltlFormula, reader) := Bufio.ReadString x00 reader in
  (* Removes the zero at the end of the strings *)
  initialTerm ← drop_last initialTerm;
  ltlFormula ← drop_last ltlFormula;
  (* Reads the byte that indicates whether the property holds *)
  let '(version, reader) := Bufio.ReadByte reader in
  let propertyHolds := byte_or_zero version =? 0 in
  (* The number of states *)
  let '(numberOfStates, reader) := binary_Read 0 reader in
  '(path, cycle, reader) ←
    (if negb propertyHolds then
       let '(listSize, reader) := binary_Read 0 reader in
       path ← make 0 listSize;
       let '(path, reader) := readArray path reader in
       let '(listSize, reader) := binary_Read listSize reader in
       cycle ← make 0 listSize;
       let '(cycle, reader) := readArray cycle reader in
       mret (path, cycle, reader)
     else mret ([], [], reader));
  statesIndex ← make 0 numberOfStates;
  let '(statesIndex, reader) := readArray statesIndex reader in
  let '(stringsTableOffset, reader) := binary_Read 0 reader in
  (* This breaks the reader, but we do not need it yet *)
  let file := Os.Seek stringsTableOffset (Bufio.rd reader) in
  let '(stringsTableSize, file) := binary_Read 0 file in
  stringsIndex ← make 0 (int32 (stringsTableSize + 1));
  let '(stringsIndex, file) := readArray stringsIndex file in
  mret (Opened (mkDump path cycle
                  (string_of_list_byte initialTerm)
                  (string_of_list_byte ltlFormula)
                  statesIndex stringsIndex file)).

Definition Read (path : string) (os : Os.t) : outcome ReadResult * Os.t :=
  match Os.Open path os with
  | (None, os) => (mret (Failed "open: no such file or directory"), os)
  | (Some file, os) => (Read_file file, os)
  end.

End Smcdump.

(** ** The dump format, as the specification lays it out

    [signature | version | initialTerm NUL | formula NUL | flag |
     stateCount | (pathLen path cycleLen cycle, when the property does
     not hold) | stateOffsets | stringTableOffset | state records |
     strings | stringCount stringOffsets(stringCount + 1)].
    The flag byte is zero when the property holds: that is how [Read]
    takes it. Offsets are counted from the start of the file. *)

Module DumpFormat.
Import Smcdump.

Record Contents := mkContents
  { c_initialTerm : string; c_formula : string; c_holds : bool;
    c_path : list Z; c_cycle : list Z;
    c_states : list State; c_strings : list string }.

Definition int32_array (zs : list Z) : list byte :=
  concat (Int32.encode <$> zs).

Definition encode_transition (tr : Transition) : list byte :=
  Int32.encode (Target tr) ++ [Int32.byte_of_Z (TrType tr)]
  ++ (if TrType tr =? Idle then [] else Int32.encode (Label tr)).

Definition encode_state (st : State) : list byte :=
  Int32.encode (Term st) ++ Int32.encode (Strategy st)
  ++ [if Solution st then x01 else x00]
  ++ Int32.encode (Z.of_nat (length (Successors st)))
  ++ concat (encode_transition <$> Successors st).

(** The offsets of consecutive blocks laid out from [base]: one entry
    per block. *)
Fixpoint offsets (base : nat) (blocks : list (list byte)) : list Z :=
  match blocks with
  | [] => []
  | b :: rest => Z.of_nat base :: offsets (base + length b) rest
  end.

Definition counterexample (c : Contents) : list byte :=
  if c_holds c then []
  else Int32.encode (Z.of_nat (length (c_path c))) ++ int32_array (c_path c)
       ++ Int32.encode (Z.of_nat (length (c_cycle c))) ++ int32_array (c_cycle c).

Definition preamble (c : Contents) : list byte :=
  header ++ [x00]
  ++ list_byte_of_string (c_initialTerm c) ++ [x00]
  ++ list_byte_of_string (c_formula c) ++ [x00]
  ++ [if c_holds c then x00 else x01]
  ++ Int32.encode (Z.of_nat (length (c_states c)))
  ++ counterexample c.

Definition state_blocks (c : Contents) : list (list byte) :=
  encode_state <$> c_states c.
Definition string_blocks (c : Contents) : list (list byte) :=
  list_byte_of_string <$> c_strings c.

Definition states_base (c : Contents) : nat :=
  (length (preamble c) + 4 * length (c_states c) + 4)%nat.
Definition strings_base (c : Contents) : nat :=
  (states_base c + length (concat (state_blocks c)))%nat.
Definition table_base (c : Contents) : nat :=
  (strings_base c + length (concat (string_blocks c)))%nat.

(** The string offsets: one per string and a last one for the end. *)
Definition string_offsets (c : Contents) : list Z :=
  offsets (strings_base c) (string_blocks c) ++ [Z.of_nat (table_base c)].

Definition string_table (c : Contents) : list byte :=
  Int32.encode (Z.of_nat (length (c_strings c)))
  ++ int32_array (string_offsets c).

Definition encode (c : Contents) : list byte :=
  preamble c
  ++ int32_array (offsets (states_base c) (state_blocks c))
  ++ Int32.encode (Z.of_nat (table_base c))
  ++ concat (state_blocks c)
  ++ concat (string_blocks c)
  ++ string_table c.

(** What a writer of the format has to respect. *)
Record well_formed (c : Contents) : Prop := mkWf
  { wf_term : x00 ∉ list_byte_of_string (c_initialTerm c);
    wf_formula : x00 ∉ list_byte_of_string (c_formula c);
    wf_path : Forall Int32.in_range (c_path c);
    wf_cycle : Forall Int32.in_range (c_cycle c);
    wf_size : Z.of_nat (length (encode c)) <= Int32.max_int }.

End DumpFormat.

Module DumpExamples.
Import Smcdump DumpFormat.

(** Two states; the property fails with path [0] and cycle [1]; the
    first state has two rule transitions to the second. *)
Definition two_rules : Contents :=
  mkContents "init" "[] p" false [0] [1]
    [ mkState [mkTransition 1 2 Rule; mkTransition 1 3 Rule] false 0 1;
      mkState [mkTransition 1 0 Idle] true 4 1 ]
    ["a"; "s"; "r1"; "r2"; ""; "b"].

Definition disk_of (p : string) (bs : list byte) : Os.t :=
  Os.mkOs {[ p := bs ]} ∅ 3.

(** A file that is no dump, and a dump of a later version. *)
Definition no_mark : list byte := list_byte_of_string "not a dump".
Definition later_version : list byte := header ++ [x01].

(** A directory with a dump and an empty file. *)
Definition two_files : Os.t :=
  Os.mkOs {[ "trace.dump" := encode two_rules; "empty" := [] ]} ∅ 3.

End DumpExamples.

(** * Strings and regular expressions *)

Module Strings.

Definition LF : ascii := "010"%char.
Definition nl : string := String LF EmptyString.
Definition dquote : string := String (ascii_of_nat 34) EmptyString.

Fixpoint drop (n : nat) (s : string) : string :=
  match n, s with
  | O, _ => s
  | S n', String _ s' => drop n' s'
  | S _, EmptyString => EmptyString
  end.

Fixpoint take (n : nat) (s : string) : string :=
  match n, s with
  | O, _ => EmptyString
  | S n', String c s' => String c (take n' s')
  | S _, EmptyString => EmptyString
  end.

(** [strings.HasPrefix(s, prefix)] *)
Definition HasPrefix (s prefix : string) : bool := String.prefix prefix s.

(** [strings.Contains(s, substr)] *)
Fixpoint Contains (s substr : string) : bool :=
  String.prefix substr s ||
  match s with
  | EmptyString => false
  | String _ s' => Contains s' substr
  end.

(** [strings.TrimSuffix(s, "\n")] *)
Fixpoint TrimSuffix_nl (s : string) : string :=
  match s with
  | EmptyString => EmptyString
  | String c EmptyString => if Ascii.eqb c LF then EmptyString else s
  | String c s' => String c (TrimSuffix_nl s')
  end.

(** [strings.Split(s, sep)] for a separator of one character. *)
Fixpoint Split_go (cur : string) (s : string) (sep : ascii) : list string :=
  match s with
  | EmptyString => [String.rev cur]
  | String c s' =>
      if Ascii.eqb c sep then String.rev cur :: Split_go EmptyString s' sep
      else Split_go (String c cur) s' sep
  end.
Definition Split (s : string) (sep : ascii) : list string :=
  Split_go EmptyString s sep.

(** The line that [ReadString('\n')] takes from the pending output:
    up to and including the first line feed. [None] when no line feed
    is pending. *)
Fixpoint cut_line (buf : string) : option (string * string) :=
  match buf with
  | EmptyString => None
  | String c rest =>
      if Ascii.eqb c LF then Some (String c EmptyString, rest)
      else match cut_line rest with
           | Some (line, rest') => Some (String c line, rest')
           | None => None
           end
  end.

Definition digit (c : ascii) : option Z :=
  let n := Z.of_nat (nat_of_ascii c) in
  if (48 <=? n) && (n <=? 57) then Some (n - 48) else None.

Fixpoint digits (acc : Z) (s : string) : option Z :=
  match s with
  | EmptyString => Some acc
  | String c s' =>
      match digit c with
      | Some d => digits (10 * acc + d) s'
      | None => None
      end
  end.

(** [strconv.Atoi] with its error dropped ([n, _ := strconv.Atoi(s)]):
    zero for a syntax error, the nearest [int] (64 bits) when the
    number is out of range. *)
Definition Atoi (s : string) : Z :=
  let clamp z := Z.max (- 2 ^ 63) (Z.min (2 ^ 63 - 1) z) in
  let unsigned s' :=
    match s' with
    | EmptyString => None
    | _ => digits 0 s'
    end in
  match s with
  | String "-"%char s' => match unsigned s' with Some z => clamp (- z) | None => 0 end
  | String "+"%char s' => match unsigned s' with Some z => clamp z | None => 0 end
  | _ => match unsigned s with Some z => clamp z | None => 0 end
  end.

End Strings.

Module Regexp.
Import Strings.

(** The fragment of Go's regular expressions that the program uses.
    Matching is leftmost-first (a backtracking search that prefers the
    left alternative and the longer repetition), as in package
    [regexp]. Every pattern of the program starts with [^], so a match
    can only start at the beginning of the text. *)
Inductive regex :=
  | Eps
  | Class (p : ascii -> bool)
  | Lit (s : string)
  | Cat (r1 r2 : regex)
  | Alt (r1 r2 : regex)
  | Star (r : regex)
  | Group (i : nat) (r : regex)
  | Eot.

Definition Plus (r : regex) : regex := Cat r (Star r).
Definition Opt (r : regex) : regex := Alt r Eps.

Definition consumed (s s' : string) : string :=
  take (String.length s - String.length s') s.

Fixpoint run (r : regex) (s : string) (caps : list string)
    (k : string -> list string -> option (list string)) : option (list string) :=
  match r with
  | Eps => k s caps
  | Class p =>
      match s with
      | String c s' => if p c then k s' caps else None
      | EmptyString => None
      end
  | Lit l =>
      if String.prefix l s then k (drop (String.length l) s) caps else None
  | Cat r1 r2 => run r1 s caps (fun s' caps' => run r2 s' caps' k)
  | Alt r1 r2 =>
      match run r1 s caps k with
      | Some c => Some c
      | None => run r2 s caps k
      end
  | Star r1 =>
      (fix loop (fuel : nat) (s : string) (caps : list string) :=
         match fuel with
         | O => k s caps
         | S fuel' =>
             match run r1 s caps (fun s' caps' =>
                     if (String.length s' <? String.length s)%nat
                     then loop fuel' s' caps' else None) with
             | Some c => Some c
             | None => k s caps
             end
         end) (String.length s) s caps
  | Group i r1 =>
      run r1 s caps (fun s' caps' => k s' (<[i := consumed s s']> caps'))
  | Eot =>
      match s with
      | EmptyString => k s caps
      | _ => None
      end
  end.

(** [re.FindStringSubmatch(s)] for a pattern [^r] with [groups]
    capturing groups: [None] is Go's [nil]; otherwise element 0 is the
    matched text and element [i] the text of group [i] (empty when the
    group took no part in the match). *)
Definition FindStringSubmatch (groups : nat) (r : regex) (s : string)
    : option (list string) :=
  run r s (replicate (S groups) EmptyString)
      (fun s' caps => Some (<[0%nat := consumed s s']> caps)).

(** [match[i]] *)
Definition submatch (m : option (list string)) (i : nat) : outcome string :=
  match m with
  | None => Panics
  | Some caps => match caps !! i with Some x => Done x | None => Panics end
  end.

Definition none_of (cs : string) : ascii -> bool :=
  fun c => negb (existsb (Ascii.eqb c) (list_ascii_of_string cs)).
Definition any_but_newline : ascii -> bool := fun c => negb (Ascii.eqb c LF).
Definition any : ascii -> bool := fun _ => true.

Definition module_kind : regex :=
  Alt (Lit "fmod") (Alt (Lit "mod") (Alt (Lit "smod")
    (Alt (Lit "fth") (Alt (Lit "th") (Lit "sth"))))).

(** ["^(fmod|mod|smod|fth|th|sth) ([^ {]+)\n$"] *)
Definition modRegex : regex :=
  Cat (Group 1 module_kind) (Cat (Lit " ")
    (Cat (Group 2 (Plus (Class (none_of " {")))) (Cat (Lit nl) Eot))).

(** [^(fmod|mod|smod|fth|th|sth) ([^ {]+)(?:{(PARAMS)})? is\n$] where
    PARAMS is [[^}]] repeated, possibly no times. *)
Definition moddeclRegex : regex :=
  Cat (Group 1 module_kind) (Cat (Lit " ")
    (Cat (Group 2 (Plus (Class (none_of " {"))))
      (Cat (Opt (Cat (Lit "{") (Cat (Group 3 (Star (Class (none_of "}"))))
                                   (Lit "}"))))
        (Cat (Lit (" is" +:+ nl)) Eot)))).

(** ["^sort ([^ ]+) ."] *)
Definition sortRegex : regex :=
  Cat (Lit "sort ") (Cat (Group 1 (Plus (Class (none_of " "))))
    (Cat (Lit " ") (Class any_but_newline))).

(** ["^strat ([^ ]+)(?: : ([^@]+))? @ ([^ ]+)"] *)
Definition stratRegex : regex :=
  Cat (Lit "strat ") (Cat (Group 1 (Plus (Class (none_of " "))))
    (Cat (Opt (Cat (Lit " : ") (Group 2 (Plus (Class (none_of "@"))))))
      (Cat (Lit " @ ") (Group 3 (Plus (Class (none_of " "))))))).

(** [^result ([^:]+): (REST)\n$] where REST is [.] repeated: any
    characters but a line feed. *)
Definition resultRegex : regex :=
  Cat (Lit "result ") (Cat (Group 1 (Plus (Class (none_of ":"))))
    (Cat (Lit ": ") (Cat (Group 2 (Star (Class any_but_newline)))
      (Cat (Lit nl) Eot)))).

(** ["^no(?:Strat)?Parse\\(([^\\)]+)\\)$"] *)
Definition noParseRegex : regex :=
  Cat (Lit "no") (Cat (Opt (Lit "Strat")) (Cat (Lit "Parse(")
    (Cat (Group 1 (Plus (Class (none_of ")")))) (Cat (Lit ")") Eot)))).

End Regexp.

(** * Package maude: the session driver *)

(** The interpreter at the other end of the pipes: what a process
    prints when it starts, and what it prints, and becomes, when a text
    is written to its standard input. The client writes a whole command
    and then reads, so the answer is put in the pipe at the write. *)
Class Interpreter := mkInterpreter
  { proc : Type;
    spawn : proc * string;
    exec : proc -> string -> proc * string }.

Module Maude.
Import Strings Regexp.

Definition maudePrompt : string := "Maude> ".
Definition promptLength : nat := String.length maudePrompt.

Section Client.
Context `{Interpreter}.

(** [command] and [stdin] are the process; [stdout] is the output
    that the process has produced and that has not been read. *)
Record Client := mkClient
  { maudePath : string; command : proc; stdout : string; active : bool }.

Definition set_stdout (c : Client) (out : string) : Client :=
  mkClient (maudePath c) (command c) out (active c).
Definition set_active (c : Client) (a : bool) : Client :=
  mkClient (maudePath c) (command c) (stdout c) a.

Definition initInternal (c : Client) : Client :=
  mkClient (maudePath c) (fst spawn) "" false.

Definition InitMaude (path : string) : Client :=
  initInternal (mkClient path (fst spawn) "" false).

(** [c.stdin.Write([]byte(text))] *)
Definition stdin_Write (text : string) (c : Client) : Client :=
  let '(p, out) := exec (command c) text in
  mkClient (maudePath c) p (stdout c +:+ out) (active c).

(** [c.stdout.Peek(promptLength)] compared with the prompt: the peek
    waits until that many bytes are there. *)
Definition promptReached (c : Client) : outcome bool :=
  if (String.length (stdout c) <? promptLength)%nat then Blocks
  else Done (String.prefix maudePrompt (stdout c)).

(** [c.stdout.ReadString('\n')] *)
Definition ReadString (c : Client) : outcome (string * Client) :=
  match cut_line (stdout c) with
  | Some (line, rest) => Done (line, set_stdout c rest)
  | None => Blocks
  end.

(** What the body of a loop asks for: the next iteration, or to
    leave the loop ([break], or a [return] whose value is in the
    state). *)
Inductive flow (St : Type) := Continue (s : St) | Break (s : St).
Arguments Continue {St} s.
Arguments Break {St} s.

(** [for !c.promptReached() { line, _ := c.stdout.ReadString('\n'); body }].
    Every iteration takes at least one byte of the pending output,
    which bounds the number of iterations. *)
Fixpoint for_lines_loop {St} (fuel : nat)
    (body : string -> St -> outcome (flow St)) (s : St) (c : Client)
    : outcome (St * bool * Client) :=
  match fuel with
  | O => Blocks
  | S fuel' =>
      p ← promptReached c;
      if p : bool then Done (s, false, c)
      else
        '(line, c) ← ReadString c;
        f ← body line s;
        match f with
        | Continue s => for_lines_loop fuel' body s c
        | Break s => Done (s, true, c)
        end
  end.

(** The loop returns the state, whether it was left by [Break], and
    the client. *)
Definition for_lines {St} (body : string -> St -> outcome (flow St))
    (s : St) (c : Client) : outcome (St * bool * Client) :=
  for_lines_loop (S (String.length (stdout c))) body s c.

Definition advanceUntilPrompt (c : Client) : outcome Client :=
  '(_, _, c) ← for_lines (fun _ (_ : unit) => Done (Continue tt)) tt c;
  Done (set_stdout c (drop promptLength (stdout c))).

(** Load loads a source file within the Maude interpreter. *)
Definition Load (source : string) (c : Client) : outcome (bool * Client) :=
  if negb (active c) then Done (false, c)
  else
    let c := stdin_Write ("load " +:+ source +:+ " ." +:+ nl) c in
    c ← advanceUntilPrompt c;
    Done (true, c).

(** Quit politely quits from the Maude interpreter; [Wait] returns
    when the process has exited. *)
Definition Quit (c : Client) : Client :=
  if active c then set_active (stdin_Write ("quit ." +:+ nl) c) false
  else c.

(** Kill terminates the interpreter process. *)
Definition Kill (c : Client) : Client :=
  if active c then set_active c false else c.

(** QuitTimeout: [in_time] tells whether the process quits before
    the timer fires. *)
Definition QuitTimeout (in_time : bool) (c : Client) : bool * Client :=
  if negb (active c) then (true, c)
  else if in_time then (true, Quit c)
  else (false, Kill c).

Definition Start (in_time : bool) (c : Client) : outcome Client :=
  let c := if active c then snd (QuitTimeout in_time c) else c in
  let c := initInternal c in
  (* c.command.Start() *)
  let c := set_stdout c (snd spawn) in
  let c := set_active c true in
  advanceUntilPrompt c.

(** CurrentModuleName gets the name of the current module. *)
Definition CurrentModuleName (c : Client) : outcome (string * Client) :=
  if negb (active c) then Done ("", c)
  else
    let c := stdin_Write ("show module ." +:+ nl) c in
    p ← promptReached c;
    '(name, c) ←
      (if p : bool then Done ("", c)
       else
         '(str, c) ← ReadString c;
         match FindStringSubmatch 3 moddeclRegex str with
         | Some m => name ← submatch (Some m) 2; Done (name, c)
         | None => Done ("", c)
         end);
    (* deferred *)
    c ← advanceUntilPrompt c;
    Done (name, c).

(** Select selects a module in the Maude interpreter. *)
Definition Select (module : string) (c : Client) : outcome Client :=
  if active c then
    advanceUntilPrompt (stdin_Write ("select " +:+ module +:+ " ." +:+ nl) c)
  else Done c.

Definition SetMixfix (value : bool) (c : Client) : outcome Client :=
  if negb (active c) then Done c
  else
    let c := if value
             then stdin_Write ("set print mixfix on ." +:+ nl) c
             else stdin_Write ("set print mixfix off ." +:+ nl) c in
    advanceUntilPrompt c.

(** RawInput introduces raw input (followed by a line break) to the
    interpreter and returns its output. *)
Definition RawInput (input : string) (c : Client) : outcome (string * Client) :=
  if negb (active c) then Done ("inactive", c)
  else
    let c := stdin_Write (input +:+ nl) c in
    '(output, _, c) ←
      for_lines (fun str output => Done (Continue (output +:+ str))) "" c;
    c ← advanceUntilPrompt c;
    Done (output, c).


(** ** reduce.go *)

Record ReduceResult := mkReduceResult
  { rOk : bool; rTerm : string; rType : string }.

Definition reduce (command : string) (c : Client)
    : outcome (ReduceResult * Client) :=
  let result := mkReduceResult false "" "" in
  if negb (active c) then Done (result, c)
  else
    (* At the moment, the rewriting count and similar data is ignored *)
    let c := stdin_Write command c in
    '(result, _, c) ←
      for_lines (fun str result =>
        match FindStringSubmatch 2 resultRegex str with
        | Some m =>
            ty ← submatch (Some m) 1;
            tm ← submatch (Some m) 2;
            Done (Break (mkReduceResult true tm ty))
        | None => Done (Continue result)
        end) result c;
    (* Terms can span multiple lines because of format *)
    p ← promptReached c;
    '(result, c) ←
      (if negb p then
         let result :=
           mkReduceResult (rOk result) (rTerm result +:+ nl) (rType result) in
         '(result, _, c) ←
           for_lines (fun line result =>
             Done (Continue (mkReduceResult (rOk result)
                               (rTerm result +:+ line) (rType result))))
             result c;
         Done (mkReduceResult (rOk result) (TrimSuffix_nl (rTerm result))
                              (rType result), c)
       else Done (result, c));
    c ← advanceUntilPrompt c;
    Done (result, c).

(** Reduce reduces a term in the current module. *)
Definition Reduce (term : string) (c : Client) :=
  reduce ("red " +:+ term +:+ " ." +:+ nl) c.

(** ReduceIn reduces a term in the given module. *)
Definition ReduceIn (module term : string) (c : Client) :=
  reduce ("red in " +:+ module +:+ " : " +:+ term +:+ " ." +:+ nl) c.

(** ** parse.go *)

Inductive ParseOutcome := Ok | GenError | NoParse | Ambiguity.

Record ParseResult := mkParseResult { Type_ : ParseOutcome; Pos : Z }.

(** What [Parse] and [StratParse] do with the answer of the
    meta-level call, whose sort is [failure] when the parse failed. *)
Definition classify (failure : string) (result : ReduceResult) : ParseResult :=
  if String.eqb (rType result) failure then
    if HasPrefix (rTerm result) "ambiguity" then mkParseResult Ambiguity 0
    else match FindStringSubmatch 1 noParseRegex (rTerm result) with
         | Some m => mkParseResult NoParse (Atoi (default "" (m !! 1%nat)))
         | None => mkParseResult GenError 0
         end
  else mkParseResult Ok 0.

(** The two reductions, between [defer c.Select(module)] and the
    deferred call. *)
Definition parse_body (metaCall : string -> string) (failure : string)
    (expr : string) (c : Client) : outcome (ParseResult * Client) :=
  (* Tokenize the given term *)
  '(result, c) ← ReduceIn "LEXICAL" ("tokenize(" +:+ dquote +:+ expr +:+ dquote +:+ ")") c;
  if negb (rOk result) then Done (mkParseResult GenError 0, c)
  else
    (* Parse the tokenized term in the original module *)
    '(result, c) ← ReduceIn "META-LEVEL" (metaCall (rTerm result)) c;
    if negb (rOk result) then Done (mkParseResult GenError 0, c)
    else Done (classify failure result, c).

(** Parse tries to parse a term of the given sort in the current
    module. *)
Definition Parse (term sort : string) (c : Client)
    : outcome (ParseResult * Client) :=
  if negb (active c) then Done (mkParseResult GenError 0, c)
  else
    (* The function should not change the current module *)
    '(module, c) ← CurrentModuleName c;
    '(res, c) ←
      parse_body (fun tokens =>
        "metaParse(upModule('" +:+ module +:+ ", false), " +:+ tokens
        +:+ ", '" +:+ sort +:+ ")") "ResultPair?" term c;
    (* deferred *)
    c ← Select module c;
    Done (res, c).

(** StratParse tries a strategy in the current module. *)
Definition StratParse (expr : string) (c : Client)
    : outcome (ParseResult * Client) :=
  if negb (active c) then Done (mkParseResult GenError 0, c)
  else
    (* The function should not alter the current module *)
    '(module, c) ← CurrentModuleName c;
    '(res, c) ←
      parse_body (fun tokens =>
        "metaStratParse(upModule('" +:+ module +:+ ", false), " +:+ tokens
        +:+ ")") "Strategy?" expr c;
    (* deferred *)
    c ← Select module c;
    Done (res, c).

(** ** show.go *)

Record ModuleInfo := mkModuleInfo { Name : string; Kind : string }.

(** Modules returns all modules and theories defined in the current
    session; [nil] is the empty list. *)
Definition Modules (c : Client) : outcome (list ModuleInfo * Client) :=
  if negb (active c) then Done ([], c)
  else
    let c := stdin_Write ("show modules ." +:+ nl) c in
    '(modules, _, c) ←
      for_lines (fun str modules =>
        match FindStringSubmatch 2 modRegex str with
        | Some m =>
            name ← submatch (Some m) 2;
            kind ← submatch (Some m) 1;
            Done (Continue (modules ++ [mkModuleInfo name kind]))
        | None => Done (Continue modules)
        end) [] c;
    c ← advanceUntilPrompt c;
    Done (modules, c).

(** Sorts returns all sorts defined in the current module and its
    imports. The submatch is taken whether the line matched or not. *)
Definition Sorts (c : Client) : outcome (list string * Client) :=
  if negb (active c) then Done ([], c)
  else
    let c := stdin_Write ("show sorts ." +:+ nl) c in
    '(sorts, _, c) ←
      for_lines (fun str sorts =>
        let m := FindStringSubmatch 1 sortRegex str in
        name ← submatch m 1;
        Done (Continue (sorts ++ [name]))) [] c;
    c ← advanceUntilPrompt c;
    Done (sorts, c).

Record NamedStrategy := mkNamedStrategy
  { sName : string; sParams : list string; SubjectSort : string }.

(** Strategies returns all strategies defined in the current module
    and its imports. *)
Definition Strategies (c : Client) : outcome (list NamedStrategy * Client) :=
  if negb (active c) then Done ([], c)
  else
    let c := stdin_Write ("show strats ." +:+ nl) c in
    '(strats, _, c) ←
      for_lines (fun str strats =>
        match FindStringSubmatch 3 stratRegex str with
        | Some m =>
            name ← submatch (Some m) 1;
            ps ← submatch (Some m) 2;
            subject ← submatch (Some m) 3;
            let params :=
              if (0 <? String.length ps)%nat then Split ps " " else [] in
            Done (Continue (strats ++ [mkNamedStrategy name params subject]))
        | None => Done (Continue strats)
        end) [] c;
    c ← advanceUntilPrompt c;
    Done (strats, c).

(** The state of the loop of [collectStatements]: the statements
    collected and the statement being read. *)
Definition appendStatement (label labelAttribute : string)
    (statements : list string) (statement : string) : list string :=
  let statement := TrimSuffix_nl statement in
  if String.eqb label "" || Contains statement labelAttribute
  then statements ++ [statement]
  else statements.

(** collectStatements collects all statements in the current module
    starting with the given keyword (and its conditional version). If
    the label is a non-empty string, only statements with that label
    are listed. *)
Definition collectStatements (statementType keyword label : string)
    (c : Client) : outcome (list string * Client) :=
  if negb (active c) then Done ([], c)
  else
    let c := stdin_Write ("show " +:+ statementType +:+ " .") c in
    (* Label detection may not be accurate *)
    let labelAttribute := "label " +:+ label in
    (* Conditional keyword are prefixed by a c *)
    let keyword := keyword +:+ " " in
    let conditionalKeyword := "c" +:+ keyword in
    '(st, _, c) ←
      for_lines (fun line '(statements, statement) =>
        if HasPrefix line conditionalKeyword || HasPrefix line keyword then
          (* A new rule starts, the old one has to be saved *)
          if negb (String.eqb statement "") then
            Done (Continue
              (appendStatement label labelAttribute statements statement, line))
          else Done (Continue (statements, statement))
        else
          (* Another line for the same statement *)
          Done (Continue (statements, statement +:+ line)))
        ([], "") c;
    let '(statements, statement) := st in
    let statements :=
      if negb (String.eqb statement "")
      then appendStatement label labelAttribute statements statement
      else statements in
    c ← advanceUntilPrompt c;
    Done (statements, c).

Definition Rules (label : string) := collectStatements "rules" "rl" label.
Definition Equations (label : string) := collectStatements "eqs" "eq" label.
Definition Memberships (label : string) := collectStatements "mbs" "mb" label.
Definition StrategyDefinitions (label : string) :=
  collectStatements "sds" "sd" label.

(** ** modelChecker.go *)

(** SmcAvailable checks if the strategy model checker is available in
    the current module. *)
Definition SmcAvailable (c : Client) : outcome (bool * Client) :=
  if negb (active c) then Done (false, c)
  else
    let c := stdin_Write ("show op ." +:+ nl) c in
    '(found, _, c) ←
      for_lines (fun str _ =>
        if String.eqb str ("    id-hook StrategyModelCheckerSymbol" +:+ nl)
        then Done (Break true) else Done (Continue false)) false c;
    (* deferred *)
    c ← advanceUntilPrompt c;
    Done (found, c).

End Client.

Arguments Continue {St} s.
Arguments Break {St} s.
End Maude.

(** * Package util *)

Module Util.
Import Strings.

Definition ESC : ascii := ascii_of_nat 27.

(** The loop of [CleanString]: [skipping] holds inside a control code,
    which runs from the escape character to the next [m]. *)
Fixpoint CleanString_go (skipping : bool) (str : string) : string :=
  match str with
  | EmptyString => EmptyString
  | String c rest =>
      if skipping then CleanString_go (negb (Ascii.eqb c "m")) rest
      else if Ascii.eqb c ESC then CleanString_go true rest
      else String c (CleanString_go false rest)
  end.

(** CleanString removes ANSI control codes from a string. *)
Definition CleanString (str : string) : string := CleanString_go false str.

(** [html.EscapeString] *)
Fixpoint EscapeString (s : string) : string :=
  match s with
  | EmptyString => EmptyString
  | String c rest =>
      let e :=
        if Ascii.eqb c "&" then "&amp;"
        else if Ascii.eqb c "'" then "&#39;"
        else if Ascii.eqb c "<" then "&lt;"
        else if Ascii.eqb c ">" then "&gt;"
        else if Ascii.eqb c (ascii_of_nat 34) then "&#34;"
        else String c EmptyString in
      e +:+ EscapeString rest
  end.

(** CleanHtmlString does the same as CleanString but also escapes the
    string to be included in HTML code. *)
Definition CleanHtmlString (str : string) : string :=
  EscapeString (CleanString str).

(** [strings.Replace] of every double quote by a backslash and a
    double quote. *)
Fixpoint escape_quotes (s : string) : string :=
  match s with
  | EmptyString => EmptyString
  | String c rest =>
      if Ascii.eqb c (ascii_of_nat 34)
      then String "\" (String c (escape_quotes rest))
      else String c (escape_quotes rest)
  end.

(** CleanEscapeString cleans a string like CleanHtmlString but also
    escapes double quotes. *)
Definition CleanEscapeString (str : string) : string :=
  escape_quotes (CleanHtmlString str).

End Util.

(** * Package grapher *)

(** The interface [smcdump.SmcDump]. [State] moves the offset of the
    file behind the dump, so it returns the dump as well. *)
Class SmcDump (D : Type) := mkSmcDump
  { PropertyHolds : D -> bool;
    NumberOfStates : D -> Z;
    InitialTerm : D -> string;
    LtlFormula : D -> string;
    Path : D -> list Z;
    Cycle : D -> list Z;
    State : Z -> D -> outcome (Smcdump.State * D);
    GetString : Z -> D -> outcome string }.

#[global] Instance smcdump_SmcDump : SmcDump Smcdump.smcdump :=
  {| PropertyHolds := Smcdump.PropertyHolds;
     NumberOfStates := Smcdump.NumberOfStates;
     InitialTerm := Smcdump.InitialTerm;
     LtlFormula := Smcdump.LtlFormula;
     Path := Smcdump.Path;
     Cycle := Smcdump.Cycle;
     State := Smcdump.GetState;
     GetString := Smcdump.GetString |}.

Module Grapher.
Import Strings Util.

Definition TAB : string := String (ascii_of_nat 9) EmptyString.

(** What is written to the writer, one item for each call of
    [io.WriteString] or [fmt.Fprintf]. *)
Inductive item :=
  | Text (s : string)
  | NodeOpen (stateNr : Z)                  (* the start of a node statement *)
  | PairLabel (term strat : Z)              (* the label of the short form *)
  | Edge (src tgt : Z) (label : string)     (* an edge statement *)
  | LegendElem (key : Z) (text : string).   (* legendElem *)

Definition legendBegin : string :=
  "[shape=plaintext, label=< <table cellspacing=" +:+ dquote +:+ "0" +:+ dquote
  +:+ " border =" +:+ dquote +:+ "0" +:+ dquote +:+ " cellborder=" +:+ dquote
  +:+ "1" +:+ dquote +:+ ">" +:+ nl.
Definition legendEnd : string := TAB +:+ "</table> >];" +:+ nl.

(** The bytes that reach the writer. *)
Definition render_item (i : item) : string :=
  match i with
  | Text s => s
  | NodeOpen n => TAB +:+ pretty n +:+ " [label=" +:+ dquote
  | PairLabel t s => "(" +:+ pretty t +:+ ", " +:+ pretty s +:+ ")" +:+ dquote
  | Edge a b l =>
      TAB +:+ pretty a +:+ " -> " +:+ pretty b +:+ " [label=" +:+ dquote
      +:+ l +:+ dquote +:+ "];" +:+ nl
  | LegendElem k s =>
      TAB +:+ TAB +:+ "<tr><td>" +:+ pretty k +:+ "</td><td>" +:+ s
      +:+ "</td></tr>" +:+ nl
  end.

Definition render (out : list item) : string :=
  foldr (fun i acc => render_item i +:+ acc) EmptyString out.

(** GraphOpt selects how node labels are printed. *)
Inductive GraphOpt := Legend | Term | Strat | Short.

Record Grapher := mkGrapher
  { gopt : GraphOpt; seenTerms : gset Z; seenStrats : gset Z }.

Definition MakeGrapher (gopt : GraphOpt) : Grapher := mkGrapher gopt ∅ ∅.

(** Clean removes the grapher cache. *)
Definition Clean (g : Grapher) : Grapher := mkGrapher (gopt g) ∅ ∅.

Section Render.
Context {D : Type} `{SmcDump D}.

(** One loop over a seen set. Go ranges over a map in an order it does
    not specify; the rows are taken here in the order of [elements]. *)
Fixpoint legend_rows (keys : list Z) (dump : D) : outcome (list item) :=
  match keys with
  | [] => Done []
  | key :: rest =>
      s ← GetString key dump;
      rows ← legend_rows rest dump;
      Done (LegendElem key (CleanHtmlString s) :: rows)
  end.

Definition generateLegend (g : Grapher) (dump : D) : outcome (list item) :=
  terms ← legend_rows (elements (seenTerms g)) dump;
  strats ← legend_rows (elements (seenStrats g)) dump;
  Done ([Text (nl +:+ TAB +:+ "legendTerms " +:+ legendBegin)] ++ terms
        ++ [Text (legendEnd +:+ nl +:+ TAB +:+ "legendStrats " +:+ legendBegin)]
        ++ strats ++ [Text legendEnd]).

(** The label of an edge, cut after 20 bytes. *)
Definition edge_label (tr : Smcdump.Transition) (dump : D) : outcome string :=
  label ←
    (if Smcdump.TrType tr =? Smcdump.Idle then Done "idle"
     else if Smcdump.TrType tr =? Smcdump.Rule
          then GetString (Smcdump.Label tr) dump
     else if Smcdump.TrType tr =? Smcdump.Opaque
          then s ← GetString (Smcdump.Label tr) dump;
               Done ("opaque(" +:+ s +:+ ")")
     else Done EmptyString);
  Done (if (20 <? String.length label)%nat then take 20 label +:+ "..."
        else label).

Fixpoint graphEdges (stateNr targetNr : Z) (succs : list Smcdump.Transition)
    (dump : D) : outcome (list item) :=
  match succs with
  | [] => Done []
  | tr :: rest =>
      here ←
        (if (targetNr <? 0) || (Smcdump.Target tr =? targetNr)
         then label ← edge_label tr dump;
              Done [Edge stateNr (Smcdump.Target tr) label]
         else Done []);
      more ← graphEdges stateNr targetNr rest dump;
      Done (here ++ more)
  end.

Definition graphState (stateNr targetNr : Z) (g : Grapher) (dump : D)
    : outcome (list item * Grapher * D) :=
  '(state, dump) ← State stateNr dump;
  '(label, g) ←
    match gopt g with
    | Legend =>
        Done ([PairLabel (Smcdump.Term state) (Smcdump.Strategy state)],
              mkGrapher (gopt g) ({[Smcdump.Term state]} ∪ seenTerms g)
                        ({[Smcdump.Strategy state]} ∪ seenStrats g))
    | Short =>
        Done ([PairLabel (Smcdump.Term state) (Smcdump.Strategy state)], g)
    | Term =>
        s ← GetString (Smcdump.Term state) dump;
        Done ([Text (CleanEscapeString s +:+ dquote)], g)
    | Strat =>
        s ← GetString (Smcdump.Strategy state) dump;
        Done ([Text (CleanEscapeString s +:+ dquote)], g)
    end;
  let filled :=
    if Smcdump.Solution state then [Text ", style = filled"] else [] in
  edges ← graphEdges stateNr targetNr (Smcdump.Successors state) dump;
  Done ([NodeOpen stateNr] ++ label ++ filled ++ [Text ("];" +:+ nl)] ++ edges,
        g, dump).

(** The loop of [GenerateDot], over the state numbers still to draw. *)
Fixpoint graphStates (states : list Z) (g : Grapher) (dump : D)
    : outcome (list item * Grapher * D) :=
  match states with
  | [] => Done ([], g, dump)
  | i :: rest =>
      '(here, g, dump) ← graphState (int32 i) (-1) g dump;
      '(more, g, dump) ← graphStates rest g dump;
      Done (here ++ more, g, dump)
  end.

(** GenerateDot generates a graph in dot format for the system automaton. *)
Definition GenerateDot (g : Grapher) (dump : D)
    : outcome (list item * Grapher * D) :=
  let g := Clean g in
  let nrStates := NumberOfStates dump in
  '(body, g, dump) ← graphStates (seqZ 0 nrStates) g dump;
  legend ← (if gopt g is Legend then generateLegend g dump else Done []);
  Done ([Text ("digraph {" +:+ nl)] ++ body ++ legend ++ [Text ("}" +:+ nl)],
        g, dump).

(** A loop of [GenerateCounterDot] over [nodes], the elements of the
    ranged slice from position [pos] on; [arr] is the slice that the
    body indexes and [cycle] the cycle read before the loops. *)
Fixpoint graphTrace (pos : nat) (nodes arr cycle : list Z)
    (g : Grapher) (dump : D) : outcome (list item * Grapher * D) :=
  match nodes with
  | [] => Done ([], g, dump)
  | nodeNr :: rest =>
      targetNr ←
        (if (pos + 1 =? length arr)%nat then index cycle 0
         else index arr (Z.of_nat (pos + 1)));
      '(here, g, dump) ← graphState nodeNr targetNr g dump;
      '(more, g, dump) ← graphTrace (S pos) rest arr cycle g dump;
      Done (here ++ more, g, dump)
  end.

(** GenerateCounterDot generates a graph in dot format for the
    counterexample. *)
Definition GenerateCounterDot (g : Grapher) (dump : D)
    : outcome (list item * Grapher * D) :=
  let g := Clean g in
  let path := Path dump in
  let cycle := Cycle dump in
  '(body1, g, dump) ← graphTrace 0 (Path dump) path cycle g dump;
  '(body2, g, dump) ← graphTrace 0 (Cycle dump) cycle cycle g dump;
  legend ← (if gopt g is Legend then generateLegend g dump else Done []);
  Done ([Text ("digraph {" +:+ nl)] ++ body1 ++ body2 ++ legend
        ++ [Text ("}" +:+ nl)], g, dump).

End Render.

(** The node and edge statements of an output. *)
Definition is_node (i : item) : bool :=
  match i with NodeOpen _ => true | _ => false end.
Definition is_edge (i : item) : bool :=
  match i with Edge _ _ _ => true | _ => false end.
Definition is_legend_row (i : item) : bool :=
  match i with LegendElem _ _ => true | _ => false end.

Definition node_statements (out : list item) : list Z :=
  omap (fun i => match i with NodeOpen n => Some n | _ => None end) out.
Definition edge_statements (out : list item) : list (Z * Z) :=
  omap (fun i => match i with Edge a b _ => Some (a, b) | _ => None end) out.
Definition legend_keys (out : list item) : list Z :=
  omap (fun i => match i with LegendElem k _ => Some k | _ => None end) out.

End Grapher.

(** * More of the packages: strings, environment and simplifier *)

Module Strings2.
Import Strings.

(** [strings.HasSuffix], [strings.TrimSuffix] and [strings.TrimPrefix] *)
Definition HasSuffix (s suffix : string) : bool :=
  (String.length suffix <=? String.length s)%nat
  && String.eqb (drop (String.length s - String.length suffix) s) suffix.

Definition TrimSuffix (s suffix : string) : string :=
  if HasSuffix s suffix then take (String.length s - String.length suffix) s else s.

Definition TrimPrefix (s prefix : string) : string :=
  if HasPrefix s prefix then drop (String.length prefix) s else s.

End Strings2.

(** ** modelChecker.go: the environment of the interpreter *)

Module ModelChecker.
Import Strings.

(** The entry of the environment that holds the output path. *)
Definition smcOutput (path : string) : string := "MAUDE_SMC_OUTPUT=" +:+ path.

(** The loop of [SetSmcOutput], from the index [i - 1] down to 0:
    the environment with the entry replaced, or [None] when no entry
    starts with the name of the variable. *)
Fixpoint SetSmcOutput_loop (i : nat) (env : list string) (path : string)
    : option (list string) :=
  match i with
  | O => None
  | S i' =>
      if HasPrefix (default EmptyString (env !! i')) "MAUDE_SMC_OUTPUT="
      then Some (<[i' := smcOutput path]> env)
      else SetSmcOutput_loop i' env path
  end.

(** SetSmcOutput sets the extended output path in the environment
    [c.command.Env] of the process to start. [None] is the [nil]
    environment, which stands for the environment [environ] of the
    program itself. *)
Definition SetSmcOutput (environ : list string) (path : string)
    (env : option (list string)) : list string :=
  let env := match env with None => environ | Some env => env end in
  match SetSmcOutput_loop (length env) env path with
  | Some env => env
  | None => env ++ [smcOutput path]
  end.

End ModelChecker.

(** ** util/simplifier.go *)

Module Simplifier.
Import Strings Strings2 Maude.

(** Simplify is the identity for the dummy simplifier. *)
Definition dummy_Simplify (term : string) : string := term.

Section Reducer.
Context `{Interpreter}.

(** Simplify reduces the given operator applied to the input term.
    The client is the one that the reducer points to. *)
Definition Simplify (simplifier term : string) (maudec : Client)
    : outcome (string * Client) :=
  '(result, maudec) ←
    Reduce (simplifier +:+ "((" +:+ term +:+ "))") maudec;
  if rOk result then
    (* If the result is a string (or it seems to be), its quotes are removed *)
    match rTerm result with
    | EmptyString => Panics
    | String first _ =>
        if Ascii.eqb first (ascii_of_nat 34)
        then Done (TrimPrefix (TrimSuffix (rTerm result) dquote) dquote, maudec)
        else Done (rTerm result, maudec)
    end
  else Done (term, maudec).

End Reducer.
End Simplifier.

(** * The web interface: the states shown for a counterexample *)

Module Webui.
Import Strings Util.

Record transitionData := mkTransitionData
  { tdTarget : Z; tdLabel : string; tdType : Z }.

Record stateData := mkStateData
  { sdSolution : bool; sdTerm : string; sdStrategy : string;
    sdTransitions : list transitionData }.

Section CollectStates.
Context {D : Type} `{SmcDump D}.

(** The loop that fills [transitions]. *)
Fixpoint collect_transitions (succs : list Smcdump.Transition) (dump : D)
    : outcome (list transitionData) :=
  match succs with
  | [] => Done []
  | tr :: succs =>
      label ← GetString (Smcdump.Label tr) dump;
      transitions ← collect_transitions succs dump;
      Done (mkTransitionData (Smcdump.Target tr) label (Smcdump.TrType tr)
            :: transitions)
  end.

(** [collectStates]: the map is the Go map passed by the caller, and is
    returned with the dump, whose file [State] moves. *)
Fixpoint collectStates (stateMap : gmap Z stateData) (path : list Z) (dump : D)
    : outcome (gmap Z stateData * D) :=
  match path with
  | [] => Done (stateMap, dump)
  | stateNr :: path =>
      match stateMap !! stateNr with
      | Some _ => collectStates stateMap path dump
      | None =>
          '(state, dump) ← State stateNr dump;
          transitions ← collect_transitions (Smcdump.Successors state) dump;
          term ← GetString (Smcdump.Term state) dump;
          strategy ← GetString (Smcdump.Strategy state) dump;
          collectStates
            (<[stateNr := mkStateData (Smcdump.Solution state) (CleanString term)
                            (CleanString strategy) transitions]> stateMap)
            path dump
      end
  end.

End CollectStates.
End Webui.

(** * Auxiliary notions for the properties *)

Module ReaderSpec.

(** The open file [f] holds [content] and stands where [rest] starts. *)
Definition file_at (content : list byte) (f : Os.File) (rest : list byte) : Prop :=
  Os.is_open f = true /\ Os.content f = content
  /\ drop (Os.offset f) content = rest.

(** The buffered reader [b] on a file holding [content] stands where
    [rest] starts; its buffer is a part of the file that starts there. *)
Definition bufio_at (content : list byte) (b : Bufio.Reader) (rest : list byte)
    : Prop :=
  Os.is_open (Bufio.rd b) = true /\ Os.content (Bufio.rd b) = content
  /\ (Bufio.r b <= Os.offset (Bufio.rd b) <= length content)%nat
  /\ Bufio.size b = 1024%nat
  /\ drop (Bufio.r b) content = rest.

(** What is left to do for [ReadString_loop]: the bytes up to the
    delimiter that are not in the buffer yet, counted twice, and one
    more step when the buffer is full. *)
Definition ReadString_measure (b : Bufio.Reader) (s : list byte) : nat :=
  (2 * (Bufio.r b + length s + 1 - Os.offset (Bufio.rd b))
   + (if Bufio.size b <=? Bufio.Buffered b then 1 else 0))%nat.

End ReaderSpec.

(** ** The session driver: what is asked of the interpreter *)

Module Protocol.
Import Strings Regexp Maude.

(** A well-framed answer is the prompt, or a line that does not start
    with the prompt followed by a well-framed answer. *)
Inductive response : string -> Prop :=
  | response_prompt : response maudePrompt
  | response_line (buf line rest : string) :
      cut_line buf = Some (line, rest) ->
      String.prefix maudePrompt buf = false ->
      response rest ->
      response buf.

Fixpoint all_chars (p : ascii -> bool) (s : string) : bool :=
  match s with
  | EmptyString => true
  | String c s' => p c && all_chars p s'
  end.

(** The keywords that start the declaration of a module or a theory. *)
Definition module_kinds : list string :=
  ["fmod"; "mod"; "smod"; "fth"; "th"; "sth"].

(** The name of a module: not empty, without blank, brace or line feed. *)
Definition is_name (s : string) : Prop :=
  s <> EmptyString /\ all_chars (none_of (" {" +:+ nl)) s = true.

Definition params_text (params : option string) : string :=
  match params with
  | Some ps => "{" +:+ ps +:+ "}"
  | None => EmptyString
  end.

(** The line that declares a module, with its parameters if it has
    some: [mod FOO is] or [fmod LIST{X :: TRIV} is]. *)
Definition declaration (kind name : string) (params : option string) : string :=
  kind +:+ " " +:+ name +:+ params_text params +:+ " is" +:+ nl.

(** The protocol between the driver and the interpreter, for an
    interpreter whose states have a current module and a set of loaded
    modules:
    - every text written is answered by a well-framed answer;
    - the answer to [show module .] starts with the declaration of the
      current module, and the command does not change the current
      module;
    - [select M .] makes a loaded module [M] the current one;
    - the current module is loaded, and a loaded module stays loaded. *)
Record Obeys `{Interpreter} (current : proc -> string)
    (loaded : proc -> string -> Prop) : Prop := mkObeys
  { answers_framed : forall p cmd, response (snd (exec p cmd));
    show_module_declares : forall p, exists kind params rest,
      In kind module_kinds /\ is_name (current p)
      /\ (forall ps, params = Some ps ->
                     all_chars (none_of ("}" +:+ nl)) ps = true)
      /\ snd (exec p ("show module ." +:+ nl))
         = declaration kind (current p) params +:+ rest;
    show_module_keeps : forall p,
      current (fst (exec p ("show module ." +:+ nl))) = current p;
    select_loaded : forall p m, loaded p m ->
      current (fst (exec p ("select " +:+ m +:+ " ." +:+ nl))) = m;
    current_loaded : forall p, loaded p (current p);
    loaded_stays : forall p cmd m, loaded p m -> loaded (fst (exec p cmd)) m }.

(** The session is at the prompt: started, with no output pending. *)
Definition at_prompt `{Interpreter} (c : Client) : Prop :=
  active c = true /\ stdout c = EmptyString.

End Protocol.

Module MaudeExamples.
Import Strings Maude.

(** What a call returns, without the client. *)
Definition result_of {A B} (m : outcome (A * B)) : outcome A :=
  '(a, _) ← m; Done a.

(** An interpreter that answers from a script: the n-th text written is
    answered by the n-th text of the script. It prints the prompt when
    it starts. *)
Definition scripted (script : list string) : Interpreter :=
  {| proc := list string;
     spawn := (script, maudePrompt);
     exec := fun p _ =>
       match p with
       | [] => ([], EmptyString)
       | answer :: rest => (rest, answer)
       end |}.

(** The answer of Maude to [show sorts .] in a module with two sorts,
    after an advisory that reached the standard output. *)
Definition sorts_answer : string :=
  "Advisory: redefining module FOO." +:+ nl
  +:+ "sort Bool ." +:+ nl
  +:+ "sort Nat . subsorts Zero NzNat < Nat ." +:+ nl
  +:+ maudePrompt.

(** The answer to [show rules .] in a module with two rules. *)
Definition rules_answer : string :=
  "rl a => b [label first] ." +:+ nl
  +:+ "rl b => c [label second] ." +:+ nl
  +:+ maudePrompt.

(** The same with the first rule printed on two lines. *)
Definition long_rules_answer : string :=
  "crl a => b" +:+ nl
  +:+ "    if a == b [label first] ." +:+ nl
  +:+ "rl b => c [label second] ." +:+ nl
  +:+ maudePrompt.

(** A small interpreter with three modules. A reduction in a module
    makes it the current one, as Maude does. *)
Inductive toy_module := FOO | LEXICAL | META_LEVEL.

Definition toy_name (m : toy_module) : string :=
  match m with
  | FOO => "FOO"
  | LEXICAL => "LEXICAL"
  | META_LEVEL => "META-LEVEL"
  end.

Definition toy_exec (p : toy_module) (cmd : string) : toy_module * string :=
  if String.eqb cmd ("show module ." +:+ nl) then
    (p, "mod " +:+ toy_name p +:+ " is" +:+ nl +:+ "  sort Foo ." +:+ nl
        +:+ "endm" +:+ nl +:+ maudePrompt)
  else if String.prefix "red in LEXICAL : " cmd then
    (LEXICAL, "reduce in LEXICAL : tokenize ." +:+ nl
              +:+ "result NeQidList: 'a '+ 'b" +:+ nl +:+ maudePrompt)
  else if String.prefix "red in META-LEVEL : " cmd then
    (META_LEVEL, "reduce in META-LEVEL : metaParse ." +:+ nl
                 +:+ "result ResultPair?: noParse(2)" +:+ nl +:+ maudePrompt)
  else if String.eqb cmd ("select FOO ." +:+ nl) then (FOO, maudePrompt)
  else if String.eqb cmd ("select LEXICAL ." +:+ nl) then (LEXICAL, maudePrompt)
  else if String.eqb cmd ("select META-LEVEL ." +:+ nl) then (META_LEVEL, maudePrompt)
  else (p, maudePrompt).

Definition toy : Interpreter :=
  {| proc := toy_module; spawn := (FOO, maudePrompt); exec := toy_exec |}.

Definition toy_loaded (p : toy_module) (m : string) : Prop :=
  exists k, m = toy_name k.

(** The toy interpreter, started, with [FOO] as its current module. *)
Definition toy_client : Client (H := toy) :=
  mkClient (H := toy) "maude" FOO EmptyString true.

End MaudeExamples.

(** An interpreter with a parameterised module and one of its
    instances. [show module .] prints the declaration of the current
    module with its parameters, a reduction in a module makes it the
    current one, and [select] takes a module expression. *)
Module InstanceExample.
Import Strings Maude.

Inductive inst_module := ListNat | List | Lexical | MetaLevel.

Definition inst_header (m : inst_module) : string :=
  match m with
  | ListNat => "fmod LIST{Nat} is"
  | List => "fmod LIST{X :: TRIV} is"
  | Lexical => "fmod LEXICAL is"
  | MetaLevel => "fmod META-LEVEL is"
  end.

Definition inst_exec (p : inst_module) (cmd : string) : inst_module * string :=
  if String.eqb cmd ("show module ." +:+ nl) then
    (p, inst_header p +:+ nl +:+ "endfm" +:+ nl +:+ maudePrompt)
  else if String.prefix "red in LEXICAL : " cmd then
    (Lexical, "reduce in LEXICAL : tokenize ." +:+ nl
              +:+ "result NeQidList: 'a '+ 'b" +:+ nl +:+ maudePrompt)
  else if String.prefix "red in META-LEVEL : " cmd then
    (MetaLevel, "reduce in META-LEVEL : metaParse ." +:+ nl
                +:+ "result ResultPair?: noParse(2)" +:+ nl +:+ maudePrompt)
  else if String.eqb cmd ("select LIST{Nat} ." +:+ nl) then (ListNat, maudePrompt)
  else if String.eqb cmd ("select LIST ." +:+ nl) then (List, maudePrompt)
  else if String.eqb cmd ("select LEXICAL ." +:+ nl) then (Lexical, maudePrompt)
  else if String.eqb cmd ("select META-LEVEL ." +:+ nl) then (MetaLevel, maudePrompt)
  else (p, maudePrompt).

Definition inst : Interpreter :=
  {| proc := inst_module; spawn := (List, maudePrompt); exec := inst_exec |}.

(** The interpreter, started and at the prompt. *)
Definition inst_client : Client (H := inst) :=
  mkClient (H := inst) "maude" List EmptyString true.

(** What [show module .] prints for a module, up to the prompt. *)
Definition inst_shown (m : inst_module) : string :=
  inst_header m +:+ nl +:+ "endfm" +:+ nl.

End InstanceExample.

(** ** The graph renderer: dumps that answer like a table *)

Module GraphSpec.
Import Grapher.

(** The transitions of a state that [graphState] draws for a target. *)
Definition edges_to (targetNr : Z) (succs : list Smcdump.Transition)
    : list Smcdump.Transition :=
  List.filter (fun tr => (targetNr <? 0) || (Smcdump.Target tr =? targetNr)) succs.

(** The steps of the counterexample: every state of the path with the
    next one, the last with the first state of the cycle; every state of
    the cycle with the next one, the last with the first. *)
Definition steps (path cycle : list Z) : list (Z * Z) :=
  zip path (drop 1 path ++ take 1 cycle) ++ zip cycle (drop 1 cycle ++ take 1 cycle).

(** The string numbers that the drawn states and edges refer to. *)
Definition state_refs (st : Smcdump.State) : list Z :=
  [Smcdump.Term st; Smcdump.Strategy st].
Definition label_refs (succs : list Smcdump.Transition) : list Z :=
  Smcdump.Label <$>
    List.filter (fun tr => negb (Smcdump.TrType tr =? Smcdump.Idle)) succs.

Section Tabular.
Context {D : Type} `{SmcDump D}.

(** On the states [nodes] and in the states of the dump that [Inv]
    holds of, the dump answers like the tables [states] and [strings]:
    [State] returns the entry of the state and keeps [Inv]; [GetString]
    returns the entry for the term and the strategy of the state and for
    the labels of its transitions. *)
Record Tabular (Inv : D -> Prop) (nodes : Z -> Prop)
    (states : Z -> Smcdump.State) (strings : Z -> string) : Prop := mkTabular
  { tab_State : forall d n, Inv d -> nodes n ->
      exists d', State n d = Done (states n, d') /\ Inv d';
    tab_Term : forall d n, Inv d -> nodes n ->
      GetString (Smcdump.Term (states n)) d
      = Done (strings (Smcdump.Term (states n)));
    tab_Strategy : forall d n, Inv d -> nodes n ->
      GetString (Smcdump.Strategy (states n)) d
      = Done (strings (Smcdump.Strategy (states n)));
    tab_Label : forall d n tr, Inv d -> nodes n ->
      In tr (Smcdump.Successors (states n)) ->
      Smcdump.TrType tr = Smcdump.Rule \/ Smcdump.TrType tr = Smcdump.Opaque ->
      GetString (Smcdump.Label tr) d = Done (strings (Smcdump.Label tr)) }.

End Tabular.

(** What [graphState] does to the grapher when it draws a state. *)
Definition seen (g : Grapher) (st : Smcdump.State) : Grapher :=
  match gopt g with
  | Legend => mkGrapher (gopt g) ({[Smcdump.Term st]} ∪ seenTerms g)
                        ({[Smcdump.Strategy st]} ∪ seenStrats g)
  | _ => g
  end.

(** The edge statements of a state drawn for a target. *)
Definition drawn (states : Z -> Smcdump.State) (st : Z * Z) : list (Z * Z) :=
  (fun tr => (st.1, Smcdump.Target tr))
    <$> edges_to st.2 (Smcdump.Successors (states st.1)).

(** The numbers of the terms, and of the strategies, of the states
    [sts], each one once. *)
Definition term_keys (states : Z -> Smcdump.State) (sts : list Z) : list Z :=
  elements (list_to_set (Smcdump.Term ∘ states <$> sts) : gset Z).
Definition strat_keys (states : Z -> Smcdump.State) (sts : list Z) : list Z :=
  elements (list_to_set (Smcdump.Strategy ∘ states <$> sts) : gset Z).

(** The row of the legend for a string number. *)
Definition legend_row (strings : Z -> string) (k : Z) : Z * string :=
  (k, Util.CleanHtmlString (strings k)).

(** The legend that [generateLegend] writes for the rows [terms] and
    [strats]. *)
Definition legend_block (terms strats : list (Z * string)) : list item :=
  [Text (Strings.nl +:+ TAB +:+ "legendTerms " +:+ legendBegin)]
  ++ ((fun r => LegendElem r.1 r.2) <$> terms)
  ++ [Text (legendEnd +:+ Strings.nl +:+ TAB +:+ "legendStrats " +:+ legendBegin)]
  ++ ((fun r => LegendElem r.1 r.2) <$> strats)
  ++ [Text legendEnd].

End GraphSpec.

Module GraphExamples.
Import Smcdump DumpFormat DumpExamples.

(** Three states; the property fails with path [0] and cycle [1; 2];
    every state has one transition to the next state of the trace. *)
Definition lasso : Contents :=
  mkContents "init" "[] p" false [0] [1; 2]
    [ mkState [mkTransition 1 4 Rule] false 0 3;
      mkState [mkTransition 2 5 Rule; mkTransition 0 0 Idle] false 1 3;
      mkState [mkTransition 1 6 Opaque] true 2 3 ]
    ["a"; "b"; "c"; "s"; "r1"; "r2"; "o"].

Definition empty_dump : smcdump :=
  mkDump [] [] EmptyString EmptyString [] [] (Os.mkFile 0 [] 0 false).

Definition opened (c : Contents) : smcdump :=
  match fst (Read "trace.dump" (disk_of "trace.dump" (encode c))) with
  | Done (Opened d) => d
  | _ => empty_dump
  end.

Definition lasso_dump : smcdump := Eval vm_compute in opened lasso.
Definition two_rules_dump : smcdump := Eval vm_compute in opened two_rules.

(** The same dump with the offset of its file anywhere. *)
Definition moved (d0 d : smcdump) : Prop :=
  exists off, d = set_file d0 (Os.mkFile (Os.fd (file d0)) (Os.content (file d0))
                                         off true).

Definition table_of {A} (zero : A) (l : list A) (i : Z) : A :=
  if i <? 0 then zero else default zero (l !! Z.to_nat i).

Definition lasso_states : Z -> State :=
  table_of (mkState [] false 0 0) (c_states lasso).
Definition lasso_strings : Z -> string :=
  table_of EmptyString (c_strings lasso).
Definition lasso_nodes (n : Z) : Prop := n = 0 \/ n = 1 \/ n = 2.

End GraphExamples.

(** ** The trace store: dumps written in the format *)

Module StateFormat.
Import Smcdump DumpFormat.

(** A transition as a writer of the format lays it out: a kind the
    reader knows, and no label for an idle transition. *)
Definition well_formed_transition (tr : Transition) : Prop :=
  Int32.in_range (Target tr) /\ Int32.in_range (Label tr)
  /\ (TrType tr = Idle /\ Label tr = 0 \/ TrType tr = Rule \/ TrType tr = Opaque).

Record well_formed_state (st : State) : Prop := mkWfState
  { wf_Term : Int32.in_range (Term st);
    wf_Strategy : Int32.in_range (Strategy st);
    wf_Successors : Forall well_formed_transition (Successors st) }.

(** The dump [d] reads the file that holds [c]: it has the two index
    tables of [c] and an open file with the bytes of [c]. The offset of
    the file is free: [State] moves it. *)
Definition reads (c : Contents) (d : smcdump) : Prop :=
  statesIndex d = offsets (states_base c) (state_blocks c)
  /\ stringsIndex d = string_offsets c
  /\ Os.content (file d) = encode c /\ Os.is_open (file d) = true.

(** [f'] is the handle [f] after some reads and seeks. *)
Definition same_file (f f' : Os.File) : Prop :=
  Os.fd f' = Os.fd f /\ Os.content f' = Os.content f
  /\ Os.is_open f' = Os.is_open f.

End StateFormat.

Module GraphSpec2.
Import Grapher GraphSpec GraphExamples.
Import Smcdump DumpFormat StateFormat.

(** The strings that the states of [c] refer to are in its table. *)
Definition valid_ref (c : Contents) (k : Z) : Prop :=
  0 <= k < Z.of_nat (length (c_strings c)).

Definition refs_valid (c : Contents) : Prop :=
  Forall (fun st =>
            valid_ref c (Term st) /\ valid_ref c (Strategy st)
            /\ Forall (fun tr => TrType tr <> Idle -> valid_ref c (Label tr))
                      (Successors st))
         (c_states c).

(** The dump [d] has been read from the file that holds [c]. *)
Definition loaded (c : Contents) (d : smcdump) : Prop :=
  reads c d
  /\ Path d = (if c_holds c then [] else c_path c)
  /\ Cycle d = (if c_holds c then [] else c_cycle c)
  /\ NumberOfStates d = Z.of_nat (length (c_states c)).

(** An edge statement whose label has at most 23 bytes. *)
Definition short_label (i : item) : Prop :=
  match i with
  | Edge _ _ l => (String.length l <= 23)%nat
  | _ => True
  end.

(** A dump file with a path and no cycle. *)
Definition open_path : Contents :=
  mkContents "init" "[] p" false [0] []
    [ mkState [mkTransition 0 1 Rule] false 0 0 ]
    ["a"; "r"].

Definition open_path_dump : smcdump := Eval vm_compute in opened open_path.

(** What [GenerateDot] writes for the dump [lasso_dump]. *)
Definition lasso_dot : list item :=
  Eval vm_compute in
    match GenerateDot (MakeGrapher Short) lasso_dump with
    | Done (out, _, _) => out
    | _ => []
    end.

End GraphSpec2.

Module WebuiSpec.
Import Strings Util Webui GraphSpec GraphExamples GraphSpec2.
Import Smcdump DumpFormat.

(** What the page shows for the state [n] of the file that holds [c]. *)
Definition transition_data (c : Contents) (tr : Transition) : transitionData :=
  mkTransitionData (Target tr) (table_of EmptyString (c_strings c) (Label tr))
                   (TrType tr).

Definition state_data (c : Contents) (n : Z) : stateData :=
  let st := table_of (mkState [] false 0 0) (c_states c) n in
  mkStateData (Solution st)
    (CleanString (table_of EmptyString (c_strings c) (Term st)))
    (CleanString (table_of EmptyString (c_strings c) (Strategy st)))
    (transition_data c <$> Successors st).

End WebuiSpec.

(** ** The session driver: answers line by line *)

Module Transcript.
Import Strings Regexp Maude Protocol.

(** A line of an answer: a text without line feed, closed by a line
    feed, that does not start with the prompt. *)
Definition is_line (l : string) : Prop :=
  exists text, l = text +:+ nl /\ all_chars (none_of nl) text = true
               /\ String.prefix maudePrompt l = false.

(** The answer made of the lines [lines]: the lines, then the prompt. *)
Definition answer (lines : list string) : string :=
  foldr String.append maudePrompt lines.

End Transcript.

Module Listings.
Import Strings Regexp Maude Protocol.

(** The lines of the answers that the listings read. *)
Definition module_line (m : string * string) : string :=
  m.1 +:+ " " +:+ m.2 +:+ nl.

(** The name of a sort, and what follows the declaration on its line. *)
Definition is_sort_name (s : string) : Prop :=
  s <> EmptyString /\ all_chars (none_of (" " +:+ nl)) s = true.

Definition sort_line (s : string * string) : string :=
  "sort " +:+ s.1 +:+ " ." +:+ s.2 +:+ nl.

End Listings.

Module Reductions.
Import Strings Regexp Maude Protocol.

(** The line that gives the result of a reduction, with its sort. *)
Definition result_line (ty tm : string) : string :=
  "result " +:+ ty +:+ ": " +:+ tm +:+ nl.

Definition is_sort_text (ty : string) : Prop :=
  ty <> EmptyString /\ all_chars (none_of (":" +:+ nl)) ty = true.

(** The lines of an answer, put together. *)
Definition text_of (lines : list string) : string :=
  foldr String.append EmptyString lines.

End Reductions.

Module EnvSpec.
Import Strings ModelChecker.

Definition is_smcOutput (e : string) : bool := HasPrefix e "MAUDE_SMC_OUTPUT=".

(** The entry that counts for the process: of several entries for a
    variable, the last one. *)
Definition effective (env : list string) : option string :=
  last (List.filter is_smcOutput env).

Definition others (env : list string) : list string :=
  List.filter (fun e => negb (is_smcOutput e)) env.

End EnvSpec.

Module SessionExamples.
Import Strings Maude MaudeExamples Transcript Listings Reductions.

(** A session at the prompt with an interpreter that answers [text]
    to the next command. *)
Definition asked (text : string) : Client (H := scripted [text]) :=
  mkClient (H := scripted [text]) "maude" [text] EmptyString true.

Definition some_modules : list (string * string) :=
  [("fmod", "BOOL"); ("mod", "FOO"); ("fth", "TRIV")].

Definition some_sorts : list (string * string) :=
  [("Bool", EmptyString); ("Nat", " subsorts Zero NzNat < Nat .")].

(** The lines of the answer of the toy interpreter to [show module .]. *)
Definition toy_module_lines : list string :=
  ["mod FOO is" +:+ nl; "  sort Foo ." +:+ nl; "endm" +:+ nl].

(** The answer to a reduction whose result is printed on two lines. *)
Definition reduction_lines : list string :=
  ["reduce in FOO : f(a) ." +:+ nl;
   "rewrites: 2 in 0ms cpu (0ms real) (~ rewrites/second)" +:+ nl].
Definition reduction_more : list string := ["    g(b, c)" +:+ nl].

(** The answer to a reduction whose result is a string. *)
Definition quoted_answer : string :=
  answer (reduction_lines ++ [result_line "String" (dquote +:+ "a b" +:+ dquote)]).

End SessionExamples.

Module Listings2.
Import Strings Regexp Maude Protocol Transcript Listings.

(** The line of [show op .] that tells that the model checker is there. *)
Definition smc_hook : string := "    id-hook StrategyModelCheckerSymbol" +:+ nl.

(** The declaration of a strategy: its name, the text of the sorts of
    its parameters when it has some, and the sort of its subject. *)
Definition is_params_text (ps : string) : Prop :=
  ps <> EmptyString /\ all_chars (none_of ("@" +:+ nl)) ps = true.

Definition strat_line (st : string * option string * string) : string :=
  "strat " +:+ st.1.1
  +:+ match st.1.2 with Some ps => " : " +:+ ps | None => EmptyString end
  +:+ " @ " +:+ st.2 +:+ " ." +:+ nl.

Definition strat_of (st : string * option string * string) : NamedStrategy :=
  mkNamedStrategy st.1.1
    match st.1.2 with Some ps => Split ps " " | None => [] end
    st.2.

End Listings2.

Module SessionExamples2.
Import Strings Maude MaudeExamples Transcript Listings Listings2 SessionExamples.

Definition some_ops : list string :=
  ["op modelCheck : State Formula QidList Bool -> ModelCheckResult ." +:+ nl;
   smc_hook;
   "op deadlock : -> Prop ." +:+ nl].

Definition some_strats : list (string * option string * string) :=
  [("free", None, "State"); ("move", Some "Nat Nat", "State")].

End SessionExamples2.

Module UtilSpec.
Import Strings Regexp Util.

(** The characters that [CleanString] and the escaping leave alone. *)
Definition not_ESC : ascii -> bool := fun c => negb (Ascii.eqb c ESC).
Definition not_m : ascii -> bool := fun c => negb (Ascii.eqb c "m").

(** The characters that cannot close a quoted attribute or open a tag. *)
Definition html_safe : ascii -> bool :=
  none_of ("<>'" +:+ dquote).

End UtilSpec.

(** * Properties *)

(** ** Integers in the file *)

Module Int32Facts.
Import Int32.

Lemma byte_val_bounded (b : byte) : 0 <= byte_val b < 256.
Proof.
  unfold byte_val. pose proof (Byte.to_N_bounded b). lia.
Qed.

Lemma byte_val_of_Z (z : Z) : byte_val (byte_of_Z z) = z mod 256.
Proof.
  unfold byte_val, byte_of_Z.
  assert (Hb : 0 <= z mod 256 < 256) by (apply Z.mod_pos_bound; lia).
  destruct (Byte.of_N (Z.to_N (z mod 256))) as [b|] eqn:E.
  - apply Byte.to_of_N in E. rewrite E. lia.
  - apply Byte.of_N_None_iff in E. lia.
Qed.

Lemma encode_length (z : Z) : length (encode z) = 4%nat.
Proof. reflexivity. Qed.

Lemma int32_in_range (z : Z) : in_range z -> int32 z = z.
Proof.
  unfold in_range, min_int, max_int, int32, modulus. intros Hz.
  destruct (Z.ltb_spec (z mod 2 ^ 32) (2 ^ 31)) as [Hlt|Hge];
    Z.div_mod_to_equations; lia.
Qed.

Lemma decode_encode (z : Z) : in_range z -> decode (encode z) = z.
Proof.
  intros Hz. unfold decode, encode. rewrite !byte_val_of_Z.
  set (u := z mod modulus).
  assert (Hu : 0 <= u < 2 ^ 32) by (apply Z.mod_pos_bound; reflexivity).
  assert (Hsum : u mod 256 + (u / 2 ^ 8) mod 256 * 2 ^ 8
                 + (u / 2 ^ 16) mod 256 * 2 ^ 16
                 + (u / 2 ^ 24) mod 256 * 2 ^ 24 = u).
  { change (2 ^ 8) with 256. change (2 ^ 16) with 65536.
    change (2 ^ 24) with 16777216. change (2 ^ 32) with 4294967296 in Hu.
    Z.div_mod_to_equations. lia. }
  rewrite Hsum. subst u.
  unfold int32. rewrite Z.mod_mod by (unfold modulus; lia).
  fold (int32 z). now apply int32_in_range.
Qed.

Lemma in_range_of_nat (n : nat) (m : Z) :
  Z.of_nat n <= m -> m <= max_int -> in_range (Z.of_nat n).
Proof. unfold in_range, min_int, max_int. lia. Qed.

End Int32Facts.

(** ** Readers *)

Module ReaderFacts.
Import ReaderSpec.

Section Positioned.
Context {R : Type} `{IoReader R}.
Variable reader_at : list byte -> R -> list byte -> Prop.
Hypothesis Read_at : forall content rdr bs rest,
  reader_at content rdr (bs ++ rest) -> (0 < length bs <= 16)%nat ->
  exists k rdr', (0 < k <= length bs)%nat
    /\ io_Read (length bs) rdr = (take k bs, rdr')
    /\ reader_at content rdr' (drop k bs ++ rest).

Lemma ReadFull_loop_at content : forall fuel bs acc rdr rest,
  reader_at content rdr (bs ++ rest) -> (length bs <= fuel)%nat ->
  (length bs <= 16)%nat ->
  exists rdr', ReadFull_loop fuel (length bs) acc rdr = (Some (acc ++ bs), rdr')
               /\ reader_at content rdr' rest.
Proof.
  induction fuel as [|fuel IH]; intros bs acc rdr rest Hat Hfuel Hlen.
  - destruct bs; [|simpl in Hfuel; lia].
    exists rdr. simpl. rewrite app_nil_r. auto.
  - destruct bs as [|b bs'] eqn:Ebs.
    { exists rdr. simpl. rewrite app_nil_r. auto. }
    rewrite <- Ebs in *.
    assert (Hpos : (0 < length bs)%nat) by (rewrite Ebs; simpl; lia).
    destruct (Read_at content rdr bs rest Hat) as (k & rdr1 & Hk & Hread & Hat1);
      [lia|].
    destruct (IH (drop k bs) (acc ++ take k bs) rdr1 rest Hat1) as (rdr' & Hloop & Hat');
      [rewrite length_drop; lia | rewrite length_drop; lia |].
    exists rdr'. split; [|assumption].
    rewrite length_drop in Hloop.
    assert (Htk : length (take k bs) = k) by (rewrite length_take; lia).
    destruct (length bs) as [|n] eqn:El; [lia|].
    cbn [ReadFull_loop]. rewrite Hread.
    destruct (take k bs) as [|t ts] eqn:Et; [simpl in Htk; lia|].
    rewrite Htk, Hloop. rewrite <- Et.
    now rewrite <- app_assoc, take_drop.
Qed.

Lemma binary_Read_at content (z old : Z) rdr rest :
  reader_at content rdr (Int32.encode z ++ rest) -> Int32.in_range z ->
  exists rdr', binary_Read old rdr = (z, rdr') /\ reader_at content rdr' rest.
Proof.
  intros Hat Hz.
  destruct (ReadFull_loop_at content 4 (Int32.encode z) [] rdr rest Hat)
    as (rdr' & Hloop & Hat'); [simpl; lia..|].
  exists rdr'. split; [|assumption].
  unfold binary_Read, ReadFull. rewrite Int32Facts.encode_length in Hloop.
  rewrite Hloop. cbn [app]. now rewrite Int32Facts.decode_encode.
Qed.

Lemma readArray_at content : forall (zs array : list Z) rdr rest,
  reader_at content rdr (DumpFormat.int32_array zs ++ rest) ->
  Forall Int32.in_range zs -> length array = length zs ->
  exists rdr', Smcdump.readArray array rdr = (zs, rdr')
               /\ reader_at content rdr' rest.
Proof.
  induction zs as [|z zs IH]; intros array rdr rest Hat Hzs Hlen.
  - destruct array; [|discriminate]. exists rdr. auto.
  - destruct array as [|x array]; [discriminate|].
    inversion Hzs as [|? ? Hz Hzs']; subst.
    unfold DumpFormat.int32_array in Hat. rewrite fmap_cons in Hat.
    cbn [concat] in Hat. rewrite <- app_assoc in Hat.
    destruct (binary_Read_at content z x rdr _ Hat Hz) as (rdr1 & Hread & Hat1).
    destruct (IH array rdr1 rest Hat1 Hzs') as (rdr' & Harr & Hat');
      [simpl in Hlen; lia|].
    exists rdr'. split; [|assumption].
    cbn [Smcdump.readArray]. now rewrite Hread, Harr.
Qed.

End Positioned.

Lemma file_Read_at content (f : Os.File) bs rest :
  file_at content f (bs ++ rest) -> (0 < length bs <= 16)%nat ->
  exists k f', (0 < k <= length bs)%nat
    /\ io_Read (length bs) f = (take k bs, f')
    /\ file_at content f' (drop k bs ++ rest).
Proof.
  intros (Hopen & Hc & Hd) Hlen.
  exists (length bs). eexists. split; [lia|].
  unfold io_Read, File_reader, Os.Read. rewrite Hopen, Hc, Hd.
  rewrite take_app_length. split.
  - now rewrite firstn_all.
  - repeat split; cbn [Os.is_open Os.content Os.offset]; auto.
    rewrite <- drop_drop, Hd, drop_app_length. now rewrite drop_all.
Qed.

Lemma file_Seek_at content (f : Os.File) (off : nat) :
  Os.is_open f = true -> Os.content f = content ->
  file_at content (Os.Seek (Z.of_nat off) f) (drop off content).
Proof.
  intros Hopen Hc. unfold Os.Seek. rewrite Hopen.
  destruct (Z.leb_spec 0 (Z.of_nat off)); [|lia].
  cbn [andb]. repeat split; cbn [Os.is_open Os.content Os.offset]; auto.
  now rewrite Nat2Z.id.
Qed.

Lemma bufio_buffer content b rest :
  bufio_at content b rest ->
  Bufio.buffer b = take (Bufio.Buffered b) rest.
Proof.
  intros (_ & Hc & _ & _ & Hd). unfold Bufio.buffer. now rewrite Hc, Hd.
Qed.

Lemma bufio_fetch content b rest n :
  bufio_at content b rest -> Bufio.Buffered b = 0%nat ->
  Os.Read n (Bufio.rd b)
  = (take n rest,
     Os.mkFile (Os.fd (Bufio.rd b)) content
               (Bufio.r b + length (take n rest)) true).
Proof.
  intros (Hopen & Hc & Hr & _ & Hd) Hb. unfold Bufio.Buffered in Hb.
  assert (Hoff : Os.offset (Bufio.rd b) = Bufio.r b) by lia.
  unfold Os.Read. now rewrite Hopen, Hc, Hoff, Hd.
Qed.

Lemma drop_length_le {A} (l rest : list A) (n : nat) :
  drop n l = rest -> (n + length rest <= length l \/ rest = [])%nat.
Proof.
  intros <-. rewrite length_drop.
  destruct (Nat.le_gt_cases n (length l)); [left; lia|right].
  apply drop_ge. lia.
Qed.

(** A [Read] of a reader whose buffer is empty fills the buffer and
    hands out all the bytes asked for. *)
Lemma bufio_Read_empty content b bs rest :
  bufio_at content b (bs ++ rest) -> Bufio.Buffered b = 0%nat ->
  (0 < length bs < 1024)%nat ->
  exists b', Bufio.Read (length bs) b = (bs, b') /\ bufio_at content b' rest.
Proof.
  intros Hat Hb Hlen. pose proof Hat as (Hopen & Hc & Hr & Hsz & Hd).
  unfold Bufio.Read. rewrite Hb, Hsz.
  destruct (Nat.eqb_spec (length bs) 0); [lia|]. cbn [Nat.eqb].
  destruct (Nat.leb_spec 1024 (length bs)); [lia|].
  rewrite (bufio_fetch content b (bs ++ rest) 1024 Hat Hb).
  rewrite take_take, Nat.min_l by lia. rewrite take_app_length.
  eexists. split; [reflexivity|].
  destruct (drop_length_le _ _ _ Hd) as [Hle|Hnil];
    [|apply (f_equal length) in Hnil; rewrite length_app in Hnil; simpl in Hnil; lia].
  rewrite length_app in Hle.
  repeat split; cbn [Bufio.rd Bufio.r Bufio.size Os.is_open Os.content Os.offset];
    auto.
  - rewrite length_take, length_app. lia.
  - rewrite length_take, length_app. lia.
  - rewrite <- drop_drop, Hd. apply drop_app_length.
Qed.

Lemma bufio_Read_at content (b : Bufio.Reader) bs rest :
  bufio_at content b (bs ++ rest) -> (0 < length bs <= 16)%nat ->
  exists k b', (0 < k <= length bs)%nat
    /\ io_Read (length bs) b = (take k bs, b')
    /\ bufio_at content b' (drop k bs ++ rest).
Proof.
  intros Hat Hlen. pose proof Hat as (Hopen & Hc & Hr & Hsz & Hd).
  destruct (Nat.eq_dec (Bufio.Buffered b) 0%nat) as [Hb|Hb].
  - destruct (bufio_Read_empty content b bs rest Hat Hb) as (b' & Hread & Hat');
      [lia|].
    exists (length bs), b'. split; [lia|].
    rewrite firstn_all, drop_all. auto.
  - unfold io_Read, Bufio_reader, Bufio.Read.
    destruct (Nat.eqb_spec (length bs) 0); [lia|].
    destruct (Nat.eqb_spec (Bufio.Buffered b) 0); [lia|].
    rewrite (bufio_buffer content b _ Hat).
    set (m := Bufio.Buffered b) in *.
    rewrite take_take.
    assert (Hm : (0 < Nat.min (length bs) m <= length bs)%nat) by lia.
    rewrite take_app_le by lia.
    exists (Nat.min (length bs) m). eexists. split; [lia|]. split; [reflexivity|].
    assert (Hk : length (take (Nat.min (length bs) m) bs) = Nat.min (length bs) m)
      by (rewrite length_take; lia).
    unfold bufio_at.
    cbn [Bufio.rd Bufio.r Bufio.size Os.is_open Os.content Os.offset].
    rewrite Hk. unfold m, Bufio.Buffered in *.
    split; [assumption|]. split; [assumption|]. split; [lia|].
    split; [assumption|].
    rewrite <- drop_drop, Hd. rewrite drop_app_le by lia. reflexivity.
Qed.

Lemma bufio_ReadByte_at content b c rest :
  bufio_at content b (c :: rest) ->
  exists b', Bufio.ReadByte b = (Some c, b') /\ bufio_at content b' rest.
Proof.
  intros Hat. pose proof Hat as (Hopen & Hc & Hr & Hsz & Hd).
  destruct (drop_length_le _ _ _ Hd) as [Hle|Hnil]; [|discriminate].
  simpl in Hle.
  assert (Hnext : drop (S (Bufio.r b)) content = rest).
  { replace (S (Bufio.r b)) with (Bufio.r b + 1)%nat by lia.
    now rewrite <- drop_drop, Hd. }
  unfold Bufio.ReadByte.
  destruct (Nat.eqb_spec (Bufio.Buffered b) 0) as [Hb|Hb].
  - rewrite (bufio_fetch content b _ (Bufio.size b) Hat Hb), Hsz.
    cbn [take]. eexists. split; [reflexivity|].
    repeat split; cbn [Bufio.rd Bufio.r Bufio.size Os.is_open Os.content Os.offset];
      auto; cbn [length]; try lia.
    rewrite length_take. lia.
  - rewrite (bufio_buffer content b _ Hat).
    destruct (Bufio.Buffered b) as [|m] eqn:Em; [lia|]. cbn [take].
    eexists. split; [reflexivity|]. unfold Bufio.Buffered in Em.
    repeat split; cbn [Bufio.rd Bufio.r Bufio.size Os.is_open Os.content Os.offset];
      auto; lia.
Qed.

Lemma find_byte_take (delim : byte) : forall (s rest : list byte) (m : nat),
  delim ∉ s ->
  Bufio.find_byte delim (take m (s ++ delim :: rest))
  = if (length s <? m)%nat then Some (length s) else None.
Proof.
  induction s as [|c s IH]; intros rest m Hs.
  - destruct m; [reflexivity|]. cbn. now rewrite bool_decide_true.
  - apply not_elem_of_cons in Hs as [Hc Hs].
    destruct m as [|m]; [reflexivity|].
    cbn [app take Bufio.find_byte length]. rewrite bool_decide_false by auto.
    rewrite IH by assumption.
    change (S (length s) <? S m)%nat with (length s <? m)%nat.
    now destruct (length s <? m)%nat.
Qed.

Lemma ReadString_loop_at content (delim : byte) : forall fuel acc b s rest,
  bufio_at content b (s ++ delim :: rest) -> delim ∉ s ->
  (ReaderSpec.ReadString_measure b s < fuel)%nat ->
  exists b', Bufio.ReadString_loop fuel delim acc b = (acc ++ s ++ [delim], b')
             /\ bufio_at content b' rest.
Proof.
  induction fuel as [|fuel IH]; intros acc b s rest Hat Hs Hfuel; [lia|].
  pose proof Hat as (Hopen & Hc & Hr & Hsz & Hd).
  destruct (drop_length_le _ _ _ Hd) as [Hle|Hnil];
    [|now destruct s]. rewrite length_app in Hle. cbn [length] in Hle.
  cbn [Bufio.ReadString_loop].
  rewrite (bufio_buffer content b _ Hat), find_byte_take by assumption.
  unfold ReaderSpec.ReadString_measure in Hfuel.
  destruct (Nat.ltb_spec (length s) (Bufio.Buffered b)) as [Hin|Hout].
  - (* the delimiter is in the buffer *)
    eexists. split.
    + rewrite take_take, Nat.min_l by lia.
      replace (S (length s)) with (length (s ++ [delim]))
        by (rewrite length_app; simpl; lia).
      rewrite (cons_middle delim s rest), app_assoc, take_app_length.
      reflexivity.
    + unfold Bufio.Buffered in Hin. unfold bufio_at.
      cbn [Bufio.rd Bufio.r Bufio.size].
      split; [assumption|]. split; [assumption|].
      split; [rewrite length_app; simpl; lia|].
      split; [assumption|].
      rewrite <- drop_drop, Hd.
      rewrite (cons_middle delim s rest), app_assoc.
      apply drop_app_length.
  - destruct (Nat.leb_spec (Bufio.size b) (Bufio.Buffered b)) as [Hfull|Hroom].
    + (* the buffer is full: a fragment is handed out *)
      unfold Bufio.Buffered in *.
      set (m := (Os.offset (Bufio.rd b) - Bufio.r b)%nat) in *.
      destruct (IH (acc ++ take m (s ++ delim :: rest))
                  (Bufio.mkReader (Bufio.rd b) (Os.offset (Bufio.rd b)) (Bufio.size b))
                  (drop m s) rest) as (b' & Hloop & Hat').
      * unfold bufio_at. cbn [Bufio.rd Bufio.r Bufio.size].
        split; [assumption|]. split; [assumption|]. split; [lia|].
        split; [assumption|].
        replace (Os.offset (Bufio.rd b)) with (Bufio.r b + m)%nat by lia.
        rewrite <- drop_drop, Hd. rewrite drop_app_le by lia. reflexivity.
      * intros Hin. apply Hs. now apply (subseteq_drop m s).
      * unfold ReaderSpec.ReadString_measure, Bufio.Buffered.
        cbn [Bufio.rd Bufio.r Bufio.size]. rewrite length_drop.
        rewrite Nat.sub_diag.
        destruct (Nat.leb_spec (Bufio.size b) 0); [lia|].
        destruct (Nat.leb_spec (Bufio.size b) m); lia.
      * exists b'. split; [|assumption]. rewrite Hloop.
        rewrite take_app_le by lia. rewrite <- !app_assoc.
        now rewrite (app_assoc (take m s)), take_drop.
    + (* room in the buffer: one more read of the file *)
      assert (Hread : exists bs f,
        Os.Read (Bufio.size b - Bufio.Buffered b) (Bufio.rd b) = (bs, f)
        /\ bs <> [] /\ Os.is_open f = true /\ Os.content f = content
        /\ (Os.offset (Bufio.rd b) < Os.offset f <= length content)%nat).
      { unfold Os.Read. rewrite Hopen, Hc. eexists. eexists.
        split; [reflexivity|]. cbn [Os.is_open Os.content Os.offset].
        unfold Bufio.Buffered in *.
        assert (Hlt : (Os.offset (Bufio.rd b) < length content)%nat) by lia.
        rewrite length_take, length_drop.
        split; [|repeat split; auto; lia].
        intros Hnil. apply (f_equal length) in Hnil.
        rewrite length_take, length_drop in Hnil. simpl in Hnil. lia. }
      destruct Hread as (bs & f & Hread & Hne & Hopen' & Hc' & Hoff).
      rewrite Hread.
      destruct (IH acc (Bufio.mkReader f (Bufio.r b) (Bufio.size b)) s rest)
        as (b' & Hloop & Hat'); [| assumption | |].
      * unfold bufio_at. cbn [Bufio.rd Bufio.r Bufio.size].
        repeat split; auto; lia.
      * unfold ReaderSpec.ReadString_measure, Bufio.Buffered in *.
        cbn [Bufio.rd Bufio.r Bufio.size].
        destruct (Nat.leb_spec (Bufio.size b) (Os.offset f - Bufio.r b));
          destruct (Nat.leb_spec (Bufio.size b)
                      (Os.offset (Bufio.rd b) - Bufio.r b)); lia.
      * exists b'. split; [|assumption].
        destruct bs; [contradiction|]. exact Hloop.
Qed.

Lemma bufio_ReadString_at content (delim : byte) b s rest :
  bufio_at content b (s ++ delim :: rest) -> delim ∉ s ->
  exists b', Bufio.ReadString delim b = (s ++ [delim], b')
             /\ bufio_at content b' rest.
Proof.
  intros Hat Hs. pose proof Hat as (Hopen & Hc & Hr & Hsz & Hd).
  destruct (drop_length_le _ _ _ Hd) as [Hle|Hnil];
    [|now destruct s]. rewrite length_app in Hle. cbn [length] in Hle.
  unfold Bufio.ReadString.
  destruct (ReadString_loop_at content delim
              (2 * length (Os.content (Bufio.rd b)) + 2) [] b s rest Hat Hs)
    as (b' & Hloop & Hat').
  - unfold ReaderSpec.ReadString_measure. rewrite Hc.
    destruct (Bufio.size b <=? Bufio.Buffered b)%nat; lia.
  - exists b'. now rewrite Hloop.
Qed.

End ReaderFacts.

(** ** Reading a dump that was written in the format *)

Module DumpFacts.
Import Smcdump DumpFormat ReaderSpec ReaderFacts.

Lemma length_int32_array (zs : list Z) :
  length (int32_array zs) = (4 * length zs)%nat.
Proof.
  unfold int32_array. induction zs as [|z zs IH]; [reflexivity|].
  rewrite fmap_cons. cbn [concat]. rewrite length_app, IH.
  rewrite Int32Facts.encode_length. simpl. lia.
Qed.

Lemma length_offsets : forall blocks base,
  length (offsets base blocks) = length blocks.
Proof.
  induction blocks as [|b blocks IH]; intros base; [reflexivity|].
  cbn [offsets length]. now rewrite IH.
Qed.

Lemma offsets_bounds : forall blocks base,
  Forall (fun z => Z.of_nat base <= z <= Z.of_nat (base + length (concat blocks)))
         (offsets base blocks).
Proof.
  induction blocks as [|b blocks IH]; intros base; [constructor|].
  cbn [offsets concat]. rewrite length_app. constructor; [lia|].
  eapply Forall_impl; [apply IH|]. cbn beta. intros z Hz. lia.
Qed.

Lemma offsets_lookup : forall blocks base i,
  (i <= length blocks)%nat ->
  (offsets base blocks ++ [Z.of_nat (base + length (concat blocks))]) !! i
  = Some (Z.of_nat (base + length (concat (take i blocks)))).
Proof.
  induction blocks as [|b blocks IH]; intros base i Hi.
  - destruct i; [|simpl in Hi; lia]. reflexivity.
  - destruct i as [|i].
    + cbn. do 2 f_equal. lia.
    + cbn [offsets app lookup take concat]. simpl in Hi.
      change ((Z.of_nat base :: ?l) !! S i) with (l !! i).
      cbn [list_lookup]. rewrite length_app.
      replace (base + (length b + length (concat blocks)))%nat
        with ((base + length b) + length (concat blocks))%nat by lia.
      rewrite IH by lia. rewrite length_app. do 2 f_equal. lia.
Qed.

Lemma drop_last_snoc (s : list byte) (x : byte) : drop_last (s ++ [x]) = Done s.
Proof.
  unfold drop_last. destruct (s ++ [x]) eqn:E; [now destruct s|].
  rewrite <- E. f_equal. rewrite length_app. cbn [length].
  replace (length s + 1 - 1)%nat with (length s) by lia.
  apply take_app_length.
Qed.

Lemma make_of_nat {A} (zero : A) (n : nat) :
  make zero (Z.of_nat n) = Done (replicate n zero).
Proof.
  unfold make. destruct (Z.ltb_spec (Z.of_nat n) 0); [lia|].
  now rewrite Nat2Z.id.
Qed.

Lemma Forall_in_range_bounded (zs : list Z) (lo hi : Z) :
  Forall (fun z => lo <= z <= hi) zs -> 0 <= lo -> hi <= Int32.max_int ->
  Forall Int32.in_range zs.
Proof.
  intros H Hlo Hhi. eapply Forall_impl; [exact H|]. cbn beta.
  unfold Int32.in_range, Int32.min_int, Int32.max_int in *. intros z Hz. lia.
Qed.

(** The pieces of an encoded dump and where they start. *)
Lemma encode_split (c : Contents) :
  encode c
  = (preamble c ++ int32_array (offsets (states_base c) (state_blocks c))
     ++ Int32.encode (Z.of_nat (table_base c))
     ++ concat (state_blocks c) ++ concat (string_blocks c))
    ++ string_table c
  /\ length (preamble c ++ int32_array (offsets (states_base c) (state_blocks c))
             ++ Int32.encode (Z.of_nat (table_base c))
             ++ concat (state_blocks c) ++ concat (string_blocks c))
     = table_base c.
Proof.
  split.
  - unfold encode. now rewrite <- !app_assoc.
  - rewrite !length_app, length_int32_array, length_offsets.
    rewrite Int32Facts.encode_length.
    unfold table_base, strings_base, states_base, state_blocks.
    rewrite length_fmap. lia.
Qed.

Lemma length_encode (c : Contents) :
  length (encode c)
  = (table_base c + 4 + 4 * (length (c_strings c) + 1))%nat.
Proof.
  destruct (encode_split c) as [-> Hlen]. rewrite length_app, Hlen.
  unfold string_table. rewrite length_app, Int32Facts.encode_length.
  rewrite length_int32_array. unfold string_offsets.
  rewrite length_app, length_offsets. unfold string_blocks.
  rewrite length_fmap. simpl. lia.
Qed.

Lemma length_preamble_le (c : Contents) :
  (length (preamble c) <= table_base c)%nat.
Proof. unfold table_base, strings_base, states_base. lia. Qed.

Lemma length_counterexample (c : Contents) :
  c_holds c = false ->
  (4 * length (c_path c) + 4 * length (c_cycle c) <= length (preamble c))%nat.
Proof.
  intros Hh. unfold preamble, counterexample. rewrite Hh.
  rewrite !length_app, !length_int32_array. lia.
Qed.

Lemma Read_file_encode (c : Contents) (f : Os.File) :
  well_formed c -> Os.content f = encode c -> Os.offset f = 0%nat ->
  Os.is_open f = true ->
  exists f',
    Read_file f
    = Done (Opened (mkDump (if c_holds c then [] else c_path c)
                           (if c_holds c then [] else c_cycle c)
                           (c_initialTerm c) (c_formula c)
                           (offsets (states_base c) (state_blocks c))
                           (string_offsets c) f'))
    /\ Os.content f' = encode c /\ Os.is_open f' = true.
Proof.
  intros [Hterm Hform Hpath Hcycle Hsize] Hc Hoff Hopen.
  pose proof (length_encode c) as Hlen.
  pose proof (length_preamble_le c) as Hpre.
  set (content := encode c) in *.
  assert (Hmax : forall n : nat, (n <= length content)%nat -> Int32.in_range (Z.of_nat n)).
  { intros n Hn. eapply Int32Facts.in_range_of_nat; [|exact Hsize]. lia. }
  (* the reader at the start of the file *)
  assert (Hat0 : bufio_at content (Bufio.NewReaderSize f 1024) content).
  { unfold bufio_at, Bufio.NewReaderSize. cbn [Bufio.rd Bufio.r Bufio.size].
    rewrite Hoff. repeat split; auto; lia. }
  unfold Read_file.
  assert (Hcontent : content = header ++ x00 :: list_byte_of_string (c_initialTerm c)
     ++ x00 :: list_byte_of_string (c_formula c) ++ x00
     :: (if c_holds c then x00 else x01)
     :: Int32.encode (Z.of_nat (length (c_states c))) ++ counterexample c
     ++ int32_array (offsets (states_base c) (state_blocks c))
     ++ Int32.encode (Z.of_nat (table_base c))
     ++ concat (state_blocks c) ++ concat (string_blocks c) ++ string_table c).
  { unfold content, encode, preamble. now rewrite <- !app_assoc. }
  rewrite Hcontent in Hat0 at 2.
  destruct (bufio_Read_empty content _ _ _ Hat0) as (b1 & Hr1 & Hat1);
    [unfold Bufio.Buffered, Bufio.NewReaderSize; cbn; lia | cbn; lia |].
  change (length header) with 11%nat in Hr1. rewrite Hr1.
  change (overwrite (replicate 11 x00) header) with header.
  unfold bytes_Equal. rewrite bool_decide_true by reflexivity. cbn [negb].
  destruct (bufio_ReadByte_at content _ _ _ Hat1) as (b2 & Hr2 & Hat2).
  rewrite Hr2. cbn [byte_or_zero].
  change (Int32.byte_val x00 =? 0) with true. cbn [negb].
  destruct (bufio_ReadString_at content x00 _ _ _ Hat2 Hterm) as (b3 & Hr3 & Hat3).
  rewrite Hr3.
  destruct (bufio_ReadString_at content x00 _ _ _ Hat3 Hform) as (b4 & Hr4 & Hat4).
  rewrite Hr4. rewrite !drop_last_snoc. cbn [mbind outcome_bind].
  destruct (bufio_ReadByte_at content _ _ _ Hat4) as (b5 & Hr5 & Hat5).
  rewrite Hr5. cbn [byte_or_zero].
  pose proof (binary_Read_at bufio_at bufio_Read_at content) as bread.
  pose proof (readArray_at bufio_at bufio_Read_at content) as barr.
  pose proof (binary_Read_at file_at file_Read_at content) as fread.
  pose proof (readArray_at file_at file_Read_at content) as farr.
  assert (Hst : (4 * length (c_states c) <= length content)%nat).
  { unfold table_base, strings_base, states_base in Hlen. lia. }
  destruct (bread _ 0 _ _ Hat5) as (b6 & Hr6 & Hat6); [apply Hmax; lia|].
  rewrite Hr6.
  assert (Hcex : exists b7,
    (if negb (Int32.byte_val (if c_holds c then x00 else x01) =? 0)
     then let '(listSize, reader) := binary_Read 0 b6 in
          path ← make 0 listSize;
          let '(path, reader) := readArray path reader in
          let '(listSize, reader) := binary_Read listSize reader in
          cycle ← make 0 listSize;
          let '(cycle, reader) := readArray cycle reader in
          mret (path, cycle, reader)
     else mret ([], [], b6))
    = Done (if c_holds c then [] else c_path c,
            if c_holds c then [] else c_cycle c, b7)
    /\ bufio_at content b7
         (int32_array (offsets (states_base c) (state_blocks c))
          ++ Int32.encode (Z.of_nat (table_base c))
          ++ concat (state_blocks c) ++ concat (string_blocks c)
          ++ string_table c)).
  { unfold counterexample in Hat6.
    destruct (c_holds c) eqn:Hh.
    - exists b6. split; [reflexivity|exact Hat6].
    - change (negb (Int32.byte_val x01 =? 0)) with true. cbn iota.
      pose proof (length_counterexample c Hh) as Hcl.
      rewrite <- !app_assoc in Hat6.
      destruct (bread _ 0 _ _ Hat6) as (b7 & Hr7 & Hat7); [apply Hmax; lia|].
      rewrite Hr7, make_of_nat. cbn [mbind outcome_bind].
      destruct (barr _ (replicate (length (c_path c)) 0) _ _ Hat7 Hpath)
        as (b8 & Hr8 & Hat8); [apply length_replicate|].
      rewrite Hr8.
      destruct (bread _ (Z.of_nat (length (c_path c))) _ _ Hat8)
        as (b9 & Hr9 & Hat9); [apply Hmax; lia|].
      rewrite Hr9, make_of_nat. cbn [mbind outcome_bind].
      destruct (barr _ (replicate (length (c_cycle c)) 0) _ _ Hat9 Hcycle)
        as (b10 & Hr10 & Hat10); [apply length_replicate|].
      rewrite Hr10. exists b10. split; [reflexivity|exact Hat10]. }
  destruct Hcex as (b7 & Hcex & Hat7).
  cbv zeta. rewrite Hcex. cbn [mbind outcome_bind].
  rewrite make_of_nat. cbn [mbind outcome_bind].
  assert (Hoffs : Forall Int32.in_range (offsets (states_base c) (state_blocks c))).
  { eapply Forall_in_range_bounded; [apply offsets_bounds|lia|].
    etransitivity; [|exact Hsize]. apply Nat2Z.inj_le.
    unfold table_base, strings_base in Hlen. lia. }
  destruct (barr _ (replicate (length (c_states c)) 0) _ _ Hat7 Hoffs)
    as (b8 & Hr8 & Hat8).
  { rewrite length_replicate, length_offsets. unfold state_blocks.
    now rewrite length_fmap. }
  rewrite Hr8.
  destruct (bread _ 0 _ _ Hat8) as (b9 & Hr9 & Hat9); [apply Hmax; lia|].
  rewrite Hr9.
  destruct Hat9 as (Hopen9 & Hc9 & _).
  pose proof (file_Seek_at content (Bufio.rd b9) (table_base c) Hopen9 Hc9) as Hat10.
  destruct (encode_split c) as [Hsplit Hsplitlen].
  fold content in Hsplit.
  rewrite Hsplit in Hat10 at 2. rewrite <- Hsplitlen in Hat10 at 2.
  rewrite drop_app_length in Hat10. unfold string_table in Hat10.
  destruct (fread _ 0 _ _ Hat10) as (f11 & Hr11 & Hat11); [apply Hmax; lia|].
  rewrite Hr11.
  rewrite Int32Facts.int32_in_range
    by (replace (Z.of_nat (length (c_strings c)) + 1)
          with (Z.of_nat (length (c_strings c) + 1)) by lia; apply Hmax; lia).
  replace (Z.of_nat (length (c_strings c)) + 1)
    with (Z.of_nat (length (c_strings c) + 1)) by lia.
  rewrite make_of_nat. cbn [mbind outcome_bind].
  assert (Hsoffs : Forall Int32.in_range (string_offsets c)).
  { unfold string_offsets. apply Forall_app. split.
    - eapply Forall_in_range_bounded; [apply offsets_bounds|lia|].
      etransitivity; [|exact Hsize]. apply Nat2Z.inj_le.
      unfold table_base in Hlen. lia.
    - constructor; [|constructor]. apply Hmax. lia. }
  rewrite <- (app_nil_r (int32_array (string_offsets c))) in Hat11.
  destruct (farr _ (replicate (length (c_strings c) + 1) 0) _ _ Hat11 Hsoffs)
    as (f12 & Hr12 & Hat12).
  { rewrite length_replicate. unfold string_offsets.
    rewrite length_app, length_offsets. unfold string_blocks.
    rewrite length_fmap. reflexivity. }
  rewrite Hr12. exists f12.
  rewrite !string_of_list_byte_of_string.
  destruct Hat12 as (Hopen12 & Hc12 & _). repeat split; auto.
Qed.

Lemma index_of_nat {A} (l : list A) (i : nat) (x : A) :
  l !! i = Some x -> index l (Z.of_nat i) = Done x.
Proof.
  intros Hl. unfold index. destruct (Z.ltb_spec (Z.of_nat i) 0); [lia|].
  now rewrite Nat2Z.id, Hl.
Qed.

Lemma concat_take_S {A} (blocks : list (list A)) (i : nat) (b : list A) :
  blocks !! i = Some b ->
  concat (take (S i) blocks) = concat (take i blocks) ++ b.
Proof.
  intros Hb. rewrite (take_S_r _ _ _ Hb), concat_app. cbn [concat].
  now rewrite app_nil_r.
Qed.

(** Reading string [i] back from a dump written in the format. *)
Lemma GetString_encode (c : Contents) (d : smcdump) (i : nat) (s : string) :
  well_formed c -> stringsIndex d = string_offsets c ->
  Os.content (file d) = encode c -> Os.is_open (file d) = true ->
  c_strings c !! i = Some s ->
  GetString (Z.of_nat i) d = Done s.
Proof.
  intros Hwf Hidx Hc Hopen Hs. pose proof (wf_size c Hwf) as Hsize.
  pose proof (length_encode c) as Hlen.
  assert (Hi : (i < length (c_strings c))%nat) by (eapply lookup_lt_Some; eauto).
  assert (Hb : string_blocks c !! i = Some (list_byte_of_string s)).
  { unfold string_blocks. now rewrite list_lookup_fmap, Hs. }
  assert (Hbl : length (string_blocks c) = length (c_strings c))
    by (unfold string_blocks; apply length_fmap).
  pose proof (take_drop_middle _ _ _ Hb) as Hmid.
  assert (Hcat : concat (string_blocks c)
                 = concat (take i (string_blocks c)) ++ list_byte_of_string s
                   ++ concat (drop (S i) (string_blocks c))).
  { rewrite <- Hmid at 1. rewrite concat_app. reflexivity. }
  set (blk := list_byte_of_string s) in *.
  set (before := concat (take i (string_blocks c))) in *.
  assert (Hmax : forall n : nat, (n <= length (encode c))%nat ->
                                 Int32.in_range (Z.of_nat n)).
  { intros n Hn. eapply Int32Facts.in_range_of_nat; [|exact Hsize]. lia. }
  assert (Hcl : (length before + length blk <= length (concat (string_blocks c)))%nat).
  { rewrite Hcat, !length_app. lia. }
  unfold GetString. rewrite Hidx. unfold string_offsets, table_base.
  replace (Z.of_nat i + 1) with (Z.of_nat (S i)) by lia.
  rewrite Int32Facts.int32_in_range by (apply Hmax; lia).
  assert (HSi : (S i <= length (string_blocks c))%nat) by lia.
  assert (Hi' : (i <= length (string_blocks c))%nat) by lia.
  rewrite (index_of_nat _ (S i) _
             (offsets_lookup (string_blocks c) (strings_base c) (S i) HSi)).
  cbn [mbind outcome_bind].
  rewrite (index_of_nat _ i _
             (offsets_lookup (string_blocks c) (strings_base c) i Hi')).
  cbn [mbind outcome_bind].
  rewrite (concat_take_S _ _ _ Hb). fold before blk. rewrite length_app.
  replace (Z.of_nat (strings_base c + (length before + length blk))
           - Z.of_nat (strings_base c + length before))
    with (Z.of_nat (length blk)) by lia.
  rewrite Int32Facts.int32_in_range
    by (apply Hmax; unfold table_base in Hlen; lia).
  rewrite make_of_nat. cbn [mbind outcome_bind mret outcome_ret].
  f_equal. rewrite length_replicate.
  unfold Os.ReadAt. rewrite Hopen, Hc.
  destruct (Z.leb_spec 0 (Z.of_nat (strings_base c + length before))); [|lia].
  cbn [andb]. rewrite Nat2Z.id.
  assert (Hdrop : drop (strings_base c + length before) (encode c)
                  = blk ++ concat (drop (S i) (string_blocks c)) ++ string_table c).
  { unfold encode. rewrite !app_assoc. rewrite <- (app_assoc _ (concat (string_blocks c))).
    rewrite Hcat. rewrite <- !app_assoc.
    rewrite !app_assoc.
    rewrite <- (app_assoc _ blk), <- (app_assoc _ (blk ++ _)).
    rewrite <- (app_assoc blk).
    match goal with
    | |- drop ?n (?pre ++ _) = _ =>
        replace n with (length pre); [apply drop_app_length|]
    end.
    rewrite !length_app, length_int32_array, length_offsets,
      Int32Facts.encode_length.
    unfold strings_base, states_base, state_blocks. rewrite length_fmap. lia. }
  rewrite Hdrop, take_app_length. unfold overwrite.
  rewrite length_replicate, firstn_all, drop_replicate, Nat.sub_diag.
  cbn [replicate]. rewrite app_nil_r. apply string_of_list_byte_of_string.
Qed.

End DumpFacts.

(** ** The trace store: the claims *)

Module DumpClaims.
Import Smcdump DumpFormat DumpExamples DumpFacts.

Lemma Read_opens (path : string) (os : Os.t) (bs : list byte) :
  Os.disk os !! path = Some bs ->
  Read path os
  = (Read_file (Os.mkFile (Os.next_fd os) bs 0 true),
     Os.mkOs (Os.disk os) ({[Os.next_fd os]} ∪ Os.open_fds os)
             (S (Os.next_fd os))).
Proof. intros Hd. unfold Read, Os.Open. now rewrite Hd. Qed.

(** Whatever [Read] returns, the descriptor it opened stays open. *)
Lemma Read_never_closes (path : string) (os : Os.t) (bs : list byte) :
  Os.disk os !! path = Some bs ->
  Os.next_fd os ∈ Os.open_fds (snd (Read path os)).
Proof.
  intros Hd. rewrite (Read_opens _ _ _ Hd). cbn [snd Os.open_fds]. set_solver.
Qed.

Lemma Read_encode (c : Contents) (path : string) (os : Os.t) :
  well_formed c -> Os.disk os !! path = Some (encode c) ->
  exists d, fst (Read path os) = Done (Opened d)
    /\ Path d = (if c_holds c then [] else c_path c)
    /\ Cycle d = (if c_holds c then [] else c_cycle c)
    /\ stringsIndex d = string_offsets c
    /\ Os.content (file d) = encode c /\ Os.is_open (file d) = true.
Proof.
  intros Hwf Hd. rewrite (Read_opens _ _ _ Hd). cbn [fst].
  destruct (Read_file_encode c (Os.mkFile (Os.next_fd os) (encode c) 0 true) Hwf)
    as (f' & Hread & Hc & Hopen); [reflexivity..|].
  eexists. split; [exact Hread|]. cbn. auto.
Qed.

Lemma two_rules_well_formed : well_formed two_rules.
Proof.
  split.
  - apply (bool_decide_unpack _). vm_compute. exact I.
  - apply (bool_decide_unpack _). vm_compute. exact I.
  - repeat constructor; vm_compute; discriminate.
  - repeat constructor; vm_compute; discriminate.
  - vm_compute. discriminate.
Qed.

(** C3. The file handle that [Read] opens is still open when [Read]
    returns an error for a missing signature or a wrong version byte:
    no exit path of [Read] closes it, where the specification asks for
    the handle to be released on every exit path. *)
Theorem Read_error_leaves_file_open :
  fst (Read "f" (disk_of "f" no_mark)) = Done (Failed "bad format (no initial mark)")
  /\ Os.next_fd (disk_of "f" no_mark)
       ∈ Os.open_fds (snd (Read "f" (disk_of "f" no_mark)))
  /\ fst (Read "f" (disk_of "f" later_version))
     = Done (Failed "bad format (bad version)")
  /\ Os.next_fd (disk_of "f" later_version)
       ∈ Os.open_fds (snd (Read "f" (disk_of "f" later_version))).
Proof.
  assert (H1 : Os.disk (disk_of "f" no_mark) !! "f" = Some no_mark)
    by apply lookup_singleton_eq.
  assert (H2 : Os.disk (disk_of "f" later_version) !! "f" = Some later_version)
    by apply lookup_singleton_eq.
  split; [rewrite (Read_opens _ _ _ H1); reflexivity|].
  split; [exact (Read_never_closes _ _ _ H1)|].
  split; [rewrite (Read_opens _ _ _ H2); reflexivity|].
  exact (Read_never_closes _ _ _ H2).
Qed.

(** C4. For every dump that [Read] opened, [PropertyHolds] is true if
    and only if the cycle has length zero; and for a dump written in the
    format with a cycle that is not empty, [PropertyHolds] is false
    after [Read]. *)
Theorem PropertyHolds_iff_no_cycle :
  (forall path os d, fst (Read path os) = Done (Opened d) ->
     (PropertyHolds d = true <-> length (Cycle d) = 0%nat))
  /\ (forall c path os,
        well_formed c -> Os.disk os !! path = Some (encode c) ->
        c_holds c = false -> c_cycle c <> [] ->
        exists d, fst (Read path os) = Done (Opened d)
                  /\ Cycle d = c_cycle c /\ PropertyHolds d = false).
Proof.
  split.
  - intros path os d _. unfold PropertyHolds, Cycle. apply Nat.eqb_eq.
  - intros c path os Hwf Hd Hh Hcyc.
    destruct (Read_encode c path os Hwf Hd) as (d & Hread & _ & Hc & _).
    exists d. rewrite Hh in Hc. split; [exact Hread|]. split; [exact Hc|].
    unfold PropertyHolds. unfold Cycle in Hc. rewrite Hc.
    destruct (c_cycle c); [contradiction|reflexivity].
Qed.

Lemma PropertyHolds_iff_no_cycle_witness :
  exists d, fst (Read "trace.dump" (disk_of "trace.dump" (encode two_rules)))
            = Done (Opened d)
            /\ Cycle d = [1] /\ PropertyHolds d = false.
Proof.
  apply (proj2 PropertyHolds_iff_no_cycle two_rules "trace.dump"
           (disk_of "trace.dump" (encode two_rules))).
  - exact two_rules_well_formed.
  - apply lookup_singleton_eq.
  - reflexivity.
  - discriminate.
Defined.

(** C5. [GetString] round-trips against the binary format: when a dump
    written in the format with the strings S0..Sk has been opened,
    [GetString(i)] returns exactly Si for every i from 0 to k, the empty
    string included. *)
Theorem GetString_round_trip (c : Contents) (path : string) (os : Os.t)
    (i : nat) (s : string) :
  well_formed c -> Os.disk os !! path = Some (encode c) ->
  c_strings c !! i = Some s ->
  exists d, fst (Read path os) = Done (Opened d)
            /\ GetString (Z.of_nat i) d = Done s.
Proof.
  intros Hwf Hd Hs.
  destruct (Read_encode c path os Hwf Hd) as (d & Hread & _ & _ & Hidx & Hc & Hopen).
  exists d. split; [exact Hread|].
  now apply (GetString_encode c d i s).
Qed.

Lemma GetString_round_trip_witness :
  exists d, fst (Read "trace.dump" (disk_of "trace.dump" (encode two_rules)))
            = Done (Opened d)
            /\ GetString 4 d = Done EmptyString.
Proof.
  apply (GetString_round_trip two_rules "trace.dump"
           (disk_of "trace.dump" (encode two_rules)) 4 EmptyString).
  - exact two_rules_well_formed.
  - apply lookup_singleton_eq.
  - reflexivity.
Defined.

(** C10. [HasSignature] is not a function of the content of the file
    alone: it keeps the bytes of an earlier call in its shared buffer.
    An empty file has no signature when it is asked first, and has one
    when a dump was asked before it. *)
Theorem HasSignature_depends_on_history :
  (HasSignature "empty" headerBuffer_init two_files).1.1 = false
  /\ (HasSignature "trace.dump" headerBuffer_init two_files).1.1 = true
  /\ (HasSignature "empty"
        (HasSignature "trace.dump" headerBuffer_init two_files).1.2
        (HasSignature "trace.dump" headerBuffer_init two_files).2).1.1 = true.
Proof. vm_compute. auto. Qed.

End DumpClaims.

(** ** The session driver *)

Module MaudeFacts.
Import Strings Regexp Maude Protocol MaudeExamples.

(** *** Inactive sessions *)

Section Inactive.
Context `{Interpreter}.

Lemma Quit_inactive (c : Client) : active (Quit c) = false.
Proof. unfold Quit. destruct (active c) eqn:E; [reflexivity|exact E]. Qed.

Lemma Kill_inactive (c : Client) : active (Kill c) = false.
Proof. unfold Kill. destruct (active c) eqn:E; [reflexivity|exact E]. Qed.

Lemma InitMaude_inactive (path : string) : active (InitMaude path) = false.
Proof. reflexivity. Qed.

(** The operations that answer an inactive session with the zero value
    of their result. *)
Lemma inactive_neutral (c : Client) (a b l : string) :
  active c = false ->
  Load a c = Done (false, c)
  /\ CurrentModuleName c = Done (EmptyString, c)
  /\ Select a c = Done c
  /\ Reduce a c = Done (mkReduceResult false EmptyString EmptyString, c)
  /\ ReduceIn a b c = Done (mkReduceResult false EmptyString EmptyString, c)
  /\ Parse a b c = Done (mkParseResult GenError 0, c)
  /\ StratParse a c = Done (mkParseResult GenError 0, c)
  /\ Modules c = Done ([], c)
  /\ Sorts c = Done ([], c)
  /\ Strategies c = Done ([], c)
  /\ Rules l c = Done ([], c)
  /\ Equations l c = Done ([], c)
  /\ Memberships l c = Done ([], c)
  /\ StrategyDefinitions l c = Done ([], c)
  /\ SmcAvailable c = Done (false, c).
Proof.
  intros Hc.
  unfold Load, CurrentModuleName, Select, Reduce, ReduceIn, reduce, Parse,
    StratParse, Modules, Sorts, Strategies, Rules, Equations, Memberships,
    StrategyDefinitions, collectStatements, SmcAvailable.
  rewrite Hc. cbn [negb]. repeat split; reflexivity.
Qed.

(** C1. An inactive session (before [Start], after [Quit] or [Kill])
    does not answer [RawInput] with the empty string, the zero value of
    its result, as the specification asks of every operation: it answers
    with the text [inactive]. *)
Theorem RawInput_inactive_is_not_neutral (path input : string) (c : Client) :
  RawInput input (InitMaude path) = Done ("inactive", InitMaude path)
  /\ RawInput input (Quit c) = Done ("inactive", Quit c)
  /\ RawInput input (Kill c) = Done ("inactive", Kill c)
  /\ "inactive" <> EmptyString.
Proof.
  unfold RawInput.
  rewrite InitMaude_inactive, Quit_inactive, Kill_inactive. cbn [negb].
  repeat split; try reflexivity. discriminate.
Qed.

End Inactive.

(** *** Lines that match no pattern *)

(** [Modules] skips the advisory and the lines of [sorts_answer]. *)
Lemma Modules_skips_other_lines :
  result_of
    (c ← Start (H := scripted [sorts_answer]) true (InitMaude "maude");
     Modules c) = Done [].
Proof. vm_compute. reflexivity. Qed.

(** C2. [Sorts] is not total: on a line of the answer that does not
    match its pattern (here an advisory before the sorts) it takes the
    first submatch of no match, which is a panic, where the other listing
    operations skip such a line. *)
Theorem Sorts_panics_on_other_line :
  result_of
    (c ← Start (H := scripted [sorts_answer]) true (InitMaude "maude");
     Sorts c) = Panics.
Proof. vm_compute. reflexivity. Qed.

(** C8. [Rules] does not return every rule of the answer: a statement
    is only kept once a later line has been taken for a continuation, so
    the listing of two rules of one line each comes back empty, and a
    first rule of two lines loses its first line. *)
Theorem Rules_loses_first_statement :
  result_of
    (c ← Start (H := scripted [rules_answer]) true (InitMaude "maude");
     Rules EmptyString c) = Done []
  /\ result_of
       (c ← Start (H := scripted [long_rules_answer]) true (InitMaude "maude");
        Rules EmptyString c)
     = Done ["    if a == b [label first] ."; "rl b => c [label second] ."].
Proof. split; vm_compute; reflexivity. Qed.

(** *** Strings and the patterns of the driver *)

Lemma append_cons (x : ascii) (a b : string) :
  String x a +:+ b = String x (a +:+ b).
Proof. reflexivity. Qed.

Lemma append_nil (b : string) : EmptyString +:+ b = b.
Proof. reflexivity. Qed.

Lemma append_assoc (a b c : string) : (a +:+ b) +:+ c = a +:+ (b +:+ c).
Proof.
  induction a as [|x a IH]; [reflexivity|].
  now rewrite !append_cons, IH.
Qed.

Lemma length_append (a b : string) :
  String.length (a +:+ b) = (String.length a + String.length b)%nat.
Proof.
  induction a as [|x a IH]; [reflexivity|].
  rewrite append_cons. cbn [String.length]. now rewrite IH.
Qed.

Lemma take_append (a b : string) : take (String.length a) (a +:+ b) = a.
Proof.
  induction a as [|x a IH]; [now destruct b|].
  rewrite append_cons. cbn [String.length take]. now rewrite IH.
Qed.

Lemma consumed_append (a b : string) : consumed (a +:+ b) b = a.
Proof.
  unfold consumed. rewrite length_append.
  replace (String.length a + String.length b - String.length b)%nat
    with (String.length a) by lia.
  apply take_append.
Qed.

(** A repetition of a class takes the longest run of its characters
    when what follows the run is accepted. *)
Lemma run_star_class (p : ascii -> bool) (k : string -> list string -> option (list string)) :
  forall name rest caps res,
  all_chars p name = true ->
  (forall c rest', rest = String c rest' -> p c = false) ->
  k rest caps = Some res ->
  run (Star (Class p)) (name +:+ rest) caps k = Some res.
Proof.
  induction name as [|c name IH]; intros rest caps res Hall Hrest Hk.
  - rewrite append_nil. destruct rest as [|c rest'].
    + exact Hk.
    + cbn [run String.length]. rewrite (Hrest c rest' eq_refl). exact Hk.
  - cbn [all_chars] in Hall. apply andb_prop in Hall as [Hc Hall].
    specialize (IH rest caps res Hall Hrest Hk).
    rewrite append_cons.
    cbn [run String.length]. rewrite Hc.
    destruct (Nat.ltb_spec (String.length (name +:+ rest))
                (S (String.length (name +:+ rest)))); [|lia].
    cbn [run] in IH. rewrite IH. reflexivity.
Qed.

Lemma all_chars_impl (p q : ascii -> bool) (s : string) :
  (forall c, p c = true -> q c = true) ->
  all_chars p s = true -> all_chars q s = true.
Proof.
  intros Hpq. induction s as [|c s IH]; [reflexivity|].
  cbn [all_chars]. intros H. apply andb_prop in H as [Hc Hs].
  now rewrite (Hpq _ Hc), IH.
Qed.

Lemma run_Cat r1 r2 s caps k :
  run (Cat r1 r2) s caps k = run r1 s caps (fun s' caps' => run r2 s' caps' k).
Proof. reflexivity. Qed.

Lemma run_Alt r1 r2 s caps k :
  run (Alt r1 r2) s caps k
  = match run r1 s caps k with Some c => Some c | None => run r2 s caps k end.
Proof. reflexivity. Qed.

Lemma run_Group i r s caps k :
  run (Group i r) s caps k
  = run r s caps (fun s' caps' => k s' (<[i := consumed s s']> caps')).
Proof. reflexivity. Qed.

Lemma run_Lit l s caps k :
  run (Lit l) s caps k
  = if String.prefix l s then k (drop (String.length l) s) caps else None.
Proof. reflexivity. Qed.

Lemma prefix_cons (c : ascii) (l s : string) :
  String.prefix (String c l) (String c s) = String.prefix l s.
Proof. cbn [String.prefix]. destruct (ascii_dec c c); [reflexivity|contradiction]. Qed.

Lemma prefix_cons_ne (c d : ascii) (l s : string) :
  c <> d -> String.prefix (String c l) (String d s) = false.
Proof. intros Hne. cbn [String.prefix]. destruct (ascii_dec c d); [contradiction|reflexivity]. Qed.

Lemma prefix_nil (s : string) : String.prefix EmptyString s = true.
Proof. now destruct s. Qed.

Lemma run_Eps s caps k : run Eps s caps k = k s caps.
Proof. reflexivity. Qed.

Lemma run_Class_cons p c s caps k :
  run (Class p) (String c s) caps k = if p c then k s caps else None.
Proof. reflexivity. Qed.

Lemma run_params (params : option string) caps
    (K : string -> list string -> option (list string)) res :
  (forall ps, params = Some ps -> all_chars (none_of "}") ps = true) ->
  K (" is" +:+ nl)
    (match params with Some ps => <[3%nat := ps]> caps | None => caps end)
  = Some res ->
  run (Opt (Cat (Lit "{") (Cat (Group 3 (Star (Class (none_of "}")))) (Lit "}"))))
      (params_text params +:+ " is" +:+ nl) caps K = Some res.
Proof.
  intros Hps HK. unfold Opt. rewrite run_Alt. destruct params as [ps|].
  - unfold params_text. rewrite !append_assoc. rewrite append_cons, append_nil.
    rewrite run_Cat, run_Lit.
    rewrite prefix_cons, prefix_nil. cbn [String.length drop].
    rewrite run_Cat, run_Group.
    rewrite (run_star_class _ _ ps ("}" +:+ " is" +:+ nl) caps res).
    + reflexivity.
    + now apply Hps.
    + intros c rest' [= <- _]. reflexivity.
    + rewrite consumed_append. exact HK.
  - unfold params_text. rewrite append_nil.
    rewrite run_Cat, run_Lit. exact HK.
Qed.

Lemma run_name (name tail : string) caps
    (K : string -> list string -> option (list string)) res :
  name <> EmptyString -> all_chars (none_of " {") name = true ->
  (forall c rest', tail = String c rest' -> none_of " {" c = false) ->
  K tail (<[2%nat := name]> caps) = Some res ->
  run (Group 2 (Plus (Class (none_of " {")))) (name +:+ tail) caps K = Some res.
Proof.
  intros Hne Hall Htail HK. destruct name as [|c name]; [contradiction|].
  cbn [all_chars] in Hall. apply andb_prop in Hall as [Hc Hall].
  rewrite run_Group. unfold Plus. rewrite run_Cat, append_cons, run_Class_cons, Hc.
  apply run_star_class; [exact Hall|exact Htail|].
  rewrite <- append_cons, consumed_append. exact HK.
Qed.

Lemma run_kind (kind rest : string) caps
    (K : string -> list string -> option (list string)) res :
  In kind module_kinds -> K rest caps = Some res ->
  run module_kind (kind +:+ rest) caps K = Some res.
Proof.
  intros Hkind HK. unfold module_kind.
  repeat (destruct Hkind as [<-|Hkind];
    [rewrite !append_cons, append_nil;
     repeat (rewrite run_Alt, run_Lit; cbn [String.prefix String.length drop]);
     try (rewrite run_Lit; cbn [String.prefix String.length drop]);
     rewrite ?prefix_nil; cbn; rewrite ?HK; reflexivity|]).
  contradiction.
Qed.

Lemma take_all (s : string) : take (String.length s) s = s.
Proof. induction s as [|c s IH]; [reflexivity|]. cbn. now rewrite IH. Qed.

Lemma consumed_all (s : string) : consumed s EmptyString = s.
Proof. unfold consumed. cbn [String.length]. rewrite Nat.sub_0_r. apply take_all. Qed.

Lemma all_chars_append (p : ascii -> bool) (a b : string) :
  all_chars p (a +:+ b) = all_chars p a && all_chars p b.
Proof.
  induction a as [|c a IH]; [reflexivity|].
  rewrite append_cons. cbn [all_chars]. now rewrite IH, andb_assoc.
Qed.

Lemma cut_line_append (text rest : string) :
  all_chars (none_of nl) text = true ->
  cut_line (text +:+ nl +:+ rest) = Some (text +:+ nl, rest).
Proof.
  induction text as [|c text IH]; intros Hall; [reflexivity|].
  cbn [all_chars] in Hall. apply andb_prop in Hall as [Hc Hall].
  rewrite !append_cons. cbn [cut_line].
  assert (Hlf : Ascii.eqb c LF = false).
  { unfold none_of in Hc. cbn in Hc. now destruct (Ascii.eqb c LF). }
  now rewrite Hlf, (IH Hall).
Qed.

Ltac none_of_cases c :=
  unfold none_of, nl; rewrite ?append_cons, ?append_nil;
  cbn [list_ascii_of_string existsb];
  repeat match goal with
         | |- context [Ascii.eqb c ?d] => destruct (Ascii.eqb c d)
         end;
  cbn; auto.

(** The declaration that starts the answer to [show module .] is
    recognised by the driver, which reads the name of the module in it. *)
Lemma declaration_recognised (kind name : string) (params : option string) :
  In kind module_kinds -> is_name name ->
  (forall ps, params = Some ps -> all_chars (none_of ("}" +:+ nl)) ps = true) ->
  FindStringSubmatch 3 moddeclRegex (declaration kind name params)
  = Some [declaration kind name params; kind; name; default EmptyString params].
Proof.
  intros Hkind [Hne Hname] Hps.
  unfold FindStringSubmatch, moddeclRegex.
  set (line := declaration kind name params).
  unfold declaration in line.
  rewrite run_Cat, run_Group. subst line.
  apply run_kind; [exact Hkind|]. cbv beta. rewrite consumed_append.
  rewrite run_Cat, run_Lit, append_cons, append_nil, prefix_cons, prefix_nil.
  cbn [String.length drop].
  rewrite run_Cat. apply run_name.
  - exact Hne.
  - revert Hname. apply all_chars_impl. intros c. none_of_cases c.
  - intros c rest' Ht. destruct params as [ps|].
    + unfold params_text in Ht. rewrite append_cons in Ht.
      injection Ht as <- _. reflexivity.
    + unfold params_text in Ht. rewrite append_nil, append_cons in Ht.
      injection Ht as <- _. reflexivity.
  - rewrite run_Cat. apply run_params.
    + intros ps Hp. generalize (Hps ps Hp). apply all_chars_impl.
      intros c. none_of_cases c.
    + rewrite run_Cat, run_Lit.
      change (String.prefix (" is" +:+ nl) (" is" +:+ nl)) with true.
      cbn iota.
      change (drop (String.length (" is" +:+ nl)) (" is" +:+ nl)) with EmptyString.
      cbn [run]. rewrite consumed_all.
      destruct params; reflexivity.
Qed.

Lemma declaration_is_a_line (kind name : string) (params : option string)
    (rest : string) :
  In kind module_kinds -> is_name name ->
  (forall ps, params = Some ps -> all_chars (none_of ("}" +:+ nl)) ps = true) ->
  cut_line (declaration kind name params +:+ rest)
  = Some (declaration kind name params, rest).
Proof.
  intros Hkind [_ Hname] Hps.
  assert (Hdecl : declaration kind name params
                  = (kind +:+ " " +:+ name +:+ params_text params +:+ " is") +:+ nl).
  { unfold declaration. now rewrite !append_assoc. }
  rewrite Hdecl, append_assoc. apply cut_line_append.
  rewrite !all_chars_append.
  assert (Hk : all_chars (none_of nl) kind = true)
    by (repeat (destruct Hkind as [<-|Hkind]; [reflexivity|]); contradiction).
  assert (Hn : all_chars (none_of nl) name = true).
  { revert Hname. apply all_chars_impl. intros c. none_of_cases c. }
  assert (Hp : all_chars (none_of nl) (params_text params) = true).
  { destruct params as [ps|]; [|reflexivity]. unfold params_text.
    rewrite !all_chars_append. cbn [all_chars andb].
    change (none_of nl "{") with true. change (none_of nl "}") with true.
    cbn [andb]. rewrite andb_true_r. generalize (Hps ps eq_refl).
    apply all_chars_impl. intros c. none_of_cases c. }
  rewrite Hk, Hn, Hp. reflexivity.
Qed.

(** *** Answers that are framed by the prompt *)

Lemma cut_line_length : forall buf line rest,
  cut_line buf = Some (line, rest) ->
  String.length buf = (String.length line + String.length rest)%nat
  /\ (0 < String.length line)%nat.
Proof.
  induction buf as [|c buf IH]; intros line rest Hcut; [discriminate|].
  cbn [cut_line] in Hcut. destruct (Ascii.eqb c LF).
  - injection Hcut as <- <-. cbn. lia.
  - destruct (cut_line buf) as [[l r]|] eqn:E; [|discriminate].
    injection Hcut as <- <-. destruct (IH l r eq_refl) as [Hl Hp].
    cbn [String.length]. lia.
Qed.

Lemma response_length (buf : string) :
  response buf -> (promptLength <= String.length buf)%nat.
Proof.
  induction 1 as [|buf line rest Hcut _ _ IH]; [reflexivity|].
  destruct (cut_line_length _ _ _ Hcut). lia.
Qed.

(** The captures keep their number through a match. *)
Lemma run_length (n : nat) : forall r s caps k res,
  (forall s' caps' res', length caps' = n -> k s' caps' = Some res' ->
                         length res' = n) ->
  length caps = n -> run r s caps k = Some res -> length res = n.
Proof.
  induction r as [|p|l|r1 IH1 r2 IH2|r1 IH1 r2 IH2|r IH|i r IH|];
    intros s caps k res Hk Hcaps Hrun; cbn [run] in Hrun.
  - exact (Hk _ _ _ Hcaps Hrun).
  - destruct s as [|c s']; [discriminate|].
    destruct (p c); [exact (Hk _ _ _ Hcaps Hrun)|discriminate].
  - destruct (String.prefix l s); [exact (Hk _ _ _ Hcaps Hrun)|discriminate].
  - eapply IH1; [|exact Hcaps|exact Hrun]. intros s' caps' res' Hc' Hr'.
    exact (IH2 _ _ _ _ Hk Hc' Hr').
  - destruct (run r1 s caps k) eqn:E.
    + injection Hrun as <-. exact (IH1 _ _ _ _ Hk Hcaps E).
    + exact (IH2 _ _ _ _ Hk Hcaps Hrun).
  - set (fuel := String.length s) in Hrun. clearbody fuel.
    revert s caps res Hcaps Hrun.
    induction fuel as [|fuel IHf]; intros s caps res Hcaps Hrun;
      [exact (Hk _ _ _ Hcaps Hrun)|].
    match type of Hrun with
    | match ?m with _ => _ end = _ => destruct m eqn:E
    end.
    + injection Hrun as <-. eapply IH; [|exact Hcaps|exact E].
      intros s' caps' res' Hc' Hr'.
      cbv beta in Hr'.
      match type of Hr' with
      | (if ?b then _ else _) = _ => destruct b; [|discriminate]
      end.
      exact (IHf _ _ _ Hc' Hr').
    + exact (Hk _ _ _ Hcaps Hrun).
  - eapply IH; [|exact Hcaps|exact Hrun]. intros s' caps' res' Hc' Hr'.
    eapply Hk; [|exact Hr']. now rewrite length_insert.
  - destruct s; [exact (Hk _ _ _ Hcaps Hrun)|discriminate].
Qed.

Lemma FindStringSubmatch_length groups r s caps :
  FindStringSubmatch groups r s = Some caps -> length caps = S groups.
Proof.
  unfold FindStringSubmatch. apply run_length.
  - intros s' caps' res' Hc' [= <-]. now rewrite length_insert.
  - apply length_replicate.
Qed.

Lemma submatch_returns groups r s caps (i : nat) :
  FindStringSubmatch groups r s = Some caps -> (i <= groups)%nat ->
  exists x, submatch (Some caps) i = Done x.
Proof.
  intros Hm Hi. apply FindStringSubmatch_length in Hm.
  unfold submatch. destruct (caps !! i) as [x|] eqn:E; [eauto|].
  apply lookup_ge_None in E. lia.
Qed.

Section Driver.
Context `{Interpreter}.

Lemma promptReached_response (c : Client) :
  response (stdout c) ->
  promptReached c = Done (String.prefix maudePrompt (stdout c)).
Proof.
  intros Hr. apply response_length in Hr. unfold promptReached.
  destruct (Nat.ltb_spec (String.length (stdout c)) promptLength); [lia|reflexivity].
Qed.

Lemma for_lines_loop_response {St} (body : string -> St -> outcome (flow St)) :
  (forall line s, exists f, body line s = Done f) ->
  forall buf, response buf -> forall fuel s c,
  stdout c = buf -> (String.length buf < fuel)%nat ->
  exists s' b c', for_lines_loop fuel body s c = Done (s', b, c')
    /\ response (stdout c') /\ command c' = command c
    /\ active c' = active c
    /\ (b = false -> stdout c' = maudePrompt).
Proof.
  intros Hbody buf Hresp.
  induction Hresp as [|buf line rest Hcut Hpre Hrest IH]; intros fuel s c Hc Hfuel.
  - destruct fuel as [|fuel]; [lia|]. cbn [for_lines_loop].
    rewrite promptReached_response by (rewrite Hc; constructor).
    rewrite Hc. cbn [mbind outcome_bind].
    change (String.prefix maudePrompt maudePrompt) with true. cbn iota.
    exists s, false, c. rewrite Hc. repeat split; auto. constructor.
  - destruct fuel as [|fuel]; [lia|]. cbn [for_lines_loop].
    rewrite promptReached_response
      by (rewrite Hc; econstructor; eassumption).
    rewrite Hc, Hpre. cbn [mbind outcome_bind].
    unfold ReadString. rewrite Hc, Hcut. cbn [mbind outcome_bind].
    destruct (Hbody line s) as [f Hf]. rewrite Hf. cbn [mbind outcome_bind].
    destruct (cut_line_length _ _ _ Hcut) as [Hlen Hpos].
    destruct f as [s1|s1].
    + destruct (IH fuel s1 (set_stdout c rest)) as (s' & b & c' & Hloop & Hr' & Hcmd & Hact & Hb);
        [reflexivity|lia|].
      exists s', b, c'. repeat split; auto.
    + exists s1, true, (set_stdout c rest). repeat split; auto. discriminate.
Qed.

Lemma for_lines_loop_no_break {St} (body : string -> St -> outcome (flow St)) :
  (forall line s f, body line s = Done f -> exists s', f = Continue s') ->
  forall fuel s c s' b c',
  for_lines_loop fuel body s c = Done (s', b, c') -> b = false.
Proof.
  intros Hbody. induction fuel as [|fuel IH]; intros s c s' b c'; [discriminate|].
  cbn [for_lines_loop].
  destruct (promptReached c) as [[|]| |]; cbn [mbind outcome_bind];
    try discriminate.
  - now intros [= _ <- _].
  - destruct (ReadString c) as [[l c1]| |]; cbn [mbind outcome_bind];
      try discriminate.
    destruct (body l s) as [f| |] eqn:Hf; cbn [mbind outcome_bind];
      try discriminate.
    destruct (Hbody _ _ _ Hf) as [s1 ->]. apply IH.
Qed.

Lemma for_lines_response {St} (body : string -> St -> outcome (flow St)) s c :
  (forall line s, exists f, body line s = Done f) ->
  response (stdout c) ->
  exists s' b c', for_lines body s c = Done (s', b, c')
    /\ response (stdout c') /\ command c' = command c
    /\ active c' = active c
    /\ (b = false -> stdout c' = maudePrompt).
Proof.
  intros Hbody Hresp. unfold for_lines.
  eapply for_lines_loop_response; eauto.
Qed.

Lemma advanceUntilPrompt_response (c : Client) :
  response (stdout c) ->
  exists c', advanceUntilPrompt c = Done c' /\ stdout c' = EmptyString
    /\ command c' = command c /\ active c' = active c.
Proof.
  intros Hresp. unfold advanceUntilPrompt.
  destruct (for_lines_response (fun _ (_ : unit) => Done (Continue tt)) tt c)
    as (s' & b & c' & Hloop & Hr' & Hcmd & Hact & Hb); [eauto|assumption|].
  rewrite Hloop. cbn [mbind outcome_bind].
  assert (b = false) as ->.
  { eapply (for_lines_loop_no_break (fun _ (_ : unit) => Done (Continue tt)));
      [|exact Hloop].
    intros line s f [= <-]. eauto. }
  eexists. split; [reflexivity|]. rewrite (Hb eq_refl). repeat split; auto.
Qed.

Lemma stdin_Write_response (cmd : string) (c : Client) :
  (forall p cmd, response (snd (exec p cmd))) ->
  stdout c = EmptyString ->
  response (stdout (stdin_Write cmd c))
  /\ stdout (stdin_Write cmd c) = snd (exec (command c) cmd)
  /\ command (stdin_Write cmd c) = fst (exec (command c) cmd)
  /\ active (stdin_Write cmd c) = active c.
Proof.
  intros Hans Hc. unfold stdin_Write.
  pose proof (Hans (command c) cmd) as Hr.
  destruct (exec (command c) cmd) as [p out]. cbn [stdout command active fst snd] in *.
  rewrite Hc. cbn. auto.
Qed.

End Driver.

(** *** The listings on framed answers *)

Section Listings.
Context `{Interpreter}.
Hypothesis framed : forall p cmd, response (snd (exec p cmd)).

(** A loop whose body returns for every line, followed by
    [advanceUntilPrompt], returns on a framed answer. *)
Lemma listing_returns {St A} (body : string -> St -> outcome (flow St))
    (s : St) (f : St -> A) (c : Client) :
  (forall line s, exists fl, body line s = Done fl) ->
  response (stdout c) ->
  returns ('(s, _, c) ← for_lines body s c;
           c ← advanceUntilPrompt c;
           Done (f s, c)).
Proof.
  intros Hbody Hresp.
  destruct (for_lines_response body s c Hbody Hresp)
    as (s' & b & c' & Hloop & Hr' & _).
  rewrite Hloop. cbn [mbind outcome_bind].
  destruct (advanceUntilPrompt_response c' Hr') as (c'' & Hadv & _).
  rewrite Hadv. cbn [mbind outcome_bind]. eexists. reflexivity.
Qed.

(** The listings that test the match skip the lines that match no
    pattern: on every framed answer they return. *)
Lemma listings_return (c : Client) (statementType keyword label input : string) :
  at_prompt c ->
  returns (Modules c) /\ returns (Strategies c)
  /\ returns (collectStatements statementType keyword label c)
  /\ returns (RawInput input c) /\ returns (SmcAvailable c).
Proof.
  intros [Hact Hout].
  assert (Hw : forall cmd, response (stdout (stdin_Write cmd c)))
    by (intros cmd; now apply stdin_Write_response).
  unfold Modules, Strategies, collectStatements, RawInput, SmcAvailable.
  rewrite Hact. cbn [negb]. repeat split.
  - apply (listing_returns _ _ (fun x => x)); [|apply Hw].
    intros line s.
    destruct (FindStringSubmatch 2 modRegex line) as [caps|] eqn:Hm; [|eauto].
    destruct (submatch_returns _ _ _ _ 1 Hm) as [x1 H1]; [lia|].
    destruct (submatch_returns _ _ _ _ 2 Hm) as [x2 H2]; [lia|].
    rewrite H1, H2. cbn. eauto.
  - apply (listing_returns _ _ (fun x => x)); [|apply Hw].
    intros line s.
    destruct (FindStringSubmatch 3 stratRegex line) as [caps|] eqn:Hm; [|eauto].
    destruct (submatch_returns _ _ _ _ 1 Hm) as [x1 H1]; [lia|].
    destruct (submatch_returns _ _ _ _ 2 Hm) as [x2 H2]; [lia|].
    destruct (submatch_returns _ _ _ _ 3 Hm) as [x3 H3]; [lia|].
    rewrite H1, H2, H3. cbn. eauto.
  - match goal with
    | |- context [for_lines ?body ?s ?c0] =>
        destruct (for_lines_response body s c0)
          as ([sts st] & b & c' & Hloop & Hr' & _); [|apply Hw|]
    end.
    { intros line [sts st].
      destruct (HasPrefix _ _ || HasPrefix _ _); [|eauto].
      destruct (negb _); eauto. }
    rewrite Hloop. cbn [mbind outcome_bind].
    destruct (advanceUntilPrompt_response c' Hr') as (c'' & Hadv & _).
    rewrite Hadv. cbn [mbind outcome_bind]. eexists. reflexivity.
  - apply (listing_returns _ _ (fun x => x)); [eauto|apply Hw].
  - apply (listing_returns _ _ (fun x => x)); [|apply Hw].
    intros line s. destruct (String.eqb _ _); eauto.
Qed.

(** [Sorts] panics as soon as the first line of the answer is not the
    declaration of a sort. *)
Lemma Sorts_first_line_panics (c : Client) (line rest : string) :
  at_prompt c ->
  cut_line (snd (exec (command c) ("show sorts ." +:+ nl))) = Some (line, rest) ->
  FindStringSubmatch 1 sortRegex line = None ->
  Sorts c = Panics.
Proof.
  intros [Hact Hout] Hcut Hno. unfold Sorts. rewrite Hact. cbn [negb].
  destruct (stdin_Write_response ("show sorts ." +:+ nl) c framed Hout)
    as (Hresp & Hans & _).
  set (c0 := stdin_Write ("show sorts ." +:+ nl) c) in *.
  unfold for_lines. cbn [for_lines_loop].
  rewrite (promptReached_response c0 Hresp). rewrite <- Hans in Hcut.
  inversion Hresp as [Hp|buf line' rest' Hcut' Hpre Hrest Hbuf].
  { rewrite <- Hp in Hcut. discriminate. }
  rewrite Hpre. cbn [mbind outcome_bind]. unfold ReadString.
  rewrite Hcut. cbn [mbind outcome_bind]. rewrite Hno. reflexivity.
Qed.

End Listings.

Section Obedient.
Context `{Interpreter}.
Variable current : proc -> string.
Variable loaded : proc -> string -> Prop.
Hypothesis protocol : Obeys current loaded.

Lemma reduce_returns (cmd : string) (c : Client) :
  at_prompt c ->
  exists r c', reduce cmd c = Done (r, c') /\ at_prompt c'
    /\ command c' = fst (exec (command c) cmd).
Proof.
  intros [Hact Hout]. unfold reduce. rewrite Hact. cbn [negb].
  destruct (stdin_Write_response cmd c (answers_framed _ _ protocol) Hout)
    as (Hresp & _ & Hcmd & Hact0).
  set (c0 := stdin_Write cmd c) in *.
  match goal with
  | |- context [for_lines ?body ?s c0] =>
      destruct (for_lines_response body s c0)
        as (r1 & b1 & c1 & Hloop1 & Hr1 & Hcmd1 & Hact1 & _); [|exact Hresp|]
  end.
  { intros line s.
    destruct (FindStringSubmatch 2 resultRegex line) as [caps|] eqn:Hm; [|eauto].
    destruct (submatch_returns _ _ _ _ 1 Hm) as [ty Hty]; [lia|].
    destruct (submatch_returns _ _ _ _ 2 Hm) as [tm Htm]; [lia|].
    rewrite Hty, Htm. cbn. eauto. }
  rewrite Hloop1. cbn [mbind outcome_bind].
  rewrite (promptReached_response c1 Hr1). cbn [mbind outcome_bind].
  assert (Hfin : forall (r : ReduceResult) c2, response (stdout c2) ->
            command c2 = command c1 -> active c2 = active c1 ->
            exists c', (c ← advanceUntilPrompt c2; Done (r, c)) = Done (r, c')
              /\ at_prompt c' /\ command c' = fst (exec (command c) cmd)).
  { intros r c2 Hr2 Hcmd2 Hact2.
    destruct (advanceUntilPrompt_response c2 Hr2) as (c' & Hadv & Hout' & Hcmd' & Hact').
    exists c'. rewrite Hadv. split; [reflexivity|]. split; [split|]; congruence. }
  destruct (String.prefix maudePrompt (stdout c1)); cbn [negb].
  - cbn [mbind outcome_bind]. destruct (Hfin r1 c1 Hr1 eq_refl eq_refl) as (c' & He & Hp).
    exists r1, c'. auto.
  - match goal with
    | |- context [for_lines ?body ?s c1] =>
        destruct (for_lines_response body s c1)
          as (r2 & b2 & c2 & Hloop2 & Hr2 & Hcmd2 & Hact2 & _);
          [eauto|exact Hr1|]
    end.
    rewrite Hloop2. cbn [mbind outcome_bind].
    match goal with
    | |- context [Done (?r, _)] =>
        destruct (Hfin r c2 Hr2 Hcmd2 Hact2) as (c' & He & Hp); exists r, c'
    end.
    auto.
Qed.

Lemma CurrentModuleName_returns (c : Client) :
  at_prompt c ->
  exists c', CurrentModuleName c = Done (current (command c), c')
    /\ at_prompt c' /\ current (command c') = current (command c)
    /\ (forall m, loaded (command c) m -> loaded (command c') m).
Proof.
  intros [Hact Hout]. unfold CurrentModuleName. rewrite Hact. cbn [negb].
  destruct (stdin_Write_response ("show module ." +:+ nl) c
              (answers_framed _ _ protocol) Hout) as (Hresp & Hans & Hcmd & Hact0).
  set (c0 := stdin_Write ("show module ." +:+ nl) c) in *.
  destruct (show_module_declares _ _ protocol (command c))
    as (kind & params & rest & Hkind & Hnm & Hps & Hdecl).
  set (line := declaration kind (current (command c)) params) in *.
  pose proof (declaration_is_a_line kind _ params rest Hkind Hnm Hps) as Hcut.
  fold line in Hcut. rewrite <- Hdecl in Hcut.
  pose proof (declaration_recognised kind _ params Hkind Hnm Hps) as Hm.
  fold line in Hm.
  set (caps := [line; kind; current (command c); default EmptyString params]) in *.
  assert (Hname : caps !! 2%nat = Some (current (command c))) by reflexivity.
  rewrite <- Hans in Hcut.
  rewrite (promptReached_response c0 Hresp).
  inversion Hresp as [Hp|buf line' rest' Hcut' Hpre Hrest Hbuf].
  { rewrite <- Hp in Hcut. discriminate. }
  rewrite Hcut in Hcut'. injection Hcut' as <- <-.
  rewrite Hpre. cbn [mbind outcome_bind].
  unfold ReadString. rewrite Hcut. cbn [mbind outcome_bind].
  rewrite Hm. unfold submatch. rewrite Hname. cbn [mbind outcome_bind].
  destruct (advanceUntilPrompt_response (set_stdout c0 rest) Hrest)
    as (c' & Hadv & Hout' & Hcmd' & Hact').
  rewrite Hadv. cbn [mbind outcome_bind].
  exists c'. split; [reflexivity|].
  cbn [set_stdout command active] in *.
  split; [split; congruence|]. rewrite Hcmd', Hcmd.
  split; [apply (show_module_keeps _ _ protocol)|].
  intros m. apply (loaded_stays _ _ protocol).
Qed.

Lemma Select_returns (m : string) (c : Client) :
  at_prompt c -> loaded (command c) m ->
  exists c', Select m c = Done c' /\ at_prompt c' /\ current (command c') = m.
Proof.
  intros [Hact Hout] Hl. unfold Select. rewrite Hact.
  destruct (stdin_Write_response ("select " +:+ m +:+ " ." +:+ nl) c
              (answers_framed _ _ protocol) Hout) as (Hresp & _ & Hcmd & Hact0).
  destruct (advanceUntilPrompt_response _ Hresp) as (c' & Hadv & Hout' & Hcmd' & Hact').
  exists c'. split; [exact Hadv|]. split; [split; congruence|].
  rewrite Hcmd', Hcmd. now apply (select_loaded _ _ protocol).
Qed.

Lemma parse_body_returns metaCall failure expr (c : Client) (m : string) :
  at_prompt c -> loaded (command c) m ->
  exists res c', parse_body metaCall failure expr c = Done (res, c')
    /\ at_prompt c' /\ loaded (command c') m.
Proof.
  intros Hp Hl. unfold parse_body, ReduceIn.
  match goal with
  | |- context [reduce ?cmd c] =>
      destruct (reduce_returns cmd c Hp) as (r1 & c1 & Hred1 & Hp1 & Hcmd1)
  end.
  rewrite Hred1. cbn [mbind outcome_bind].
  assert (Hl1 : loaded (command c1) m)
    by (rewrite Hcmd1; now apply (loaded_stays _ _ protocol)).
  destruct (rOk r1); cbn [negb]; [|eauto 6].
  match goal with
  | |- context [reduce ?cmd c1] =>
      destruct (reduce_returns cmd c1 Hp1) as (r2 & c2 & Hred2 & Hp2 & Hcmd2)
  end.
  rewrite Hred2. cbn [mbind outcome_bind].
  assert (Hl2 : loaded (command c2) m)
    by (rewrite Hcmd2; now apply (loaded_stays _ _ protocol)).
  destruct (rOk r2); cbn [negb]; eauto 6.
Qed.

Lemma Parse_restores (term sort : string) (c : Client) :
  at_prompt c ->
  exists res c', Parse term sort c = Done (res, c') /\ at_prompt c'
    /\ current (command c') = current (command c).
Proof.
  intros Hp. pose proof Hp as [Hact Hout]. unfold Parse. rewrite Hact. cbn [negb].
  destruct (CurrentModuleName_returns c Hp) as (c1 & Hcur & Hp1 & Hcur1 & Hl1).
  rewrite Hcur. cbn [mbind outcome_bind].
  specialize (Hl1 _ (current_loaded _ _ protocol (command c))).
  match goal with
  | |- context [parse_body ?mc ?fl term c1] =>
      destruct (parse_body_returns mc fl term c1 _ Hp1 Hl1)
        as (res & c2 & Hbody & Hp2 & Hl2)
  end.
  rewrite Hbody. cbn [mbind outcome_bind].
  destruct (Select_returns _ c2 Hp2 Hl2) as (c3 & Hsel & Hp3 & Hcur3).
  rewrite Hsel. cbn [mbind outcome_bind]. eauto 6.
Qed.

Lemma StratParse_restores (expr : string) (c : Client) :
  at_prompt c ->
  exists res c', StratParse expr c = Done (res, c') /\ at_prompt c'
    /\ current (command c') = current (command c).
Proof.
  intros Hp. pose proof Hp as [Hact Hout]. unfold StratParse. rewrite Hact.
  cbn [negb].
  destruct (CurrentModuleName_returns c Hp) as (c1 & Hcur & Hp1 & Hcur1 & Hl1).
  rewrite Hcur. cbn [mbind outcome_bind].
  specialize (Hl1 _ (current_loaded _ _ protocol (command c))).
  match goal with
  | |- context [parse_body ?mc ?fl expr c1] =>
      destruct (parse_body_returns mc fl expr c1 _ Hp1 Hl1)
        as (res & c2 & Hbody & Hp2 & Hl2)
  end.
  rewrite Hbody. cbn [mbind outcome_bind].
  destruct (Select_returns _ c2 Hp2 Hl2) as (c3 & Hsel & Hp3 & Hcur3).
  rewrite Hsel. cbn [mbind outcome_bind]. eauto 6.
Qed.

End Obedient.

(** With an interpreter that obeys the protocol and a session at the
    prompt, [Parse] and [StratParse] return, and the name in the
    declaration of the current module is then the one it was before the
    call, whichever way the two reductions went. The parameters of the
    declaration are no part of that name. *)
Theorem Parse_keeps_module_name `{Interpreter} (current : proc -> string)
    (loaded : proc -> string -> Prop) (term sort expr : string) (c : Client) :
  Obeys current loaded -> at_prompt c ->
  (exists res c', Parse term sort c = Done (res, c')
                  /\ current (command c') = current (command c))
  /\ (exists res c', StratParse expr c = Done (res, c')
                     /\ current (command c') = current (command c)).
Proof.
  intros Hobeys Hp. split.
  - destruct (Parse_restores current loaded Hobeys term sort c Hp)
      as (res & c' & Hparse & _ & Hcur). eauto.
  - destruct (StratParse_restores current loaded Hobeys expr c Hp)
      as (res & c' & Hparse & _ & Hcur). eauto.
Qed.

Lemma toy_obeys : Obeys (H := toy) toy_name toy_loaded.
Proof.
  split.
  - intros p cmd. cbn [exec toy]. unfold toy_exec.
    repeat match goal with
           | |- context [if ?b then _ else _] => destruct b
           end;
      try destruct p; cbn [snd];
      repeat (eapply response_line; [reflexivity|reflexivity|]);
      apply response_prompt.
  - intros p. exists "mod", None. eexists.
    split; [cbn; auto|].
    split; [split; [now destruct p|now destruct p]|].
    split; [discriminate|].
    destruct p; reflexivity.
  - intros p. reflexivity.
  - intros p m [k ->]. destruct k; reflexivity.
  - intros p. now exists p.
  - intros p cmd m Hm. exact Hm.
Qed.

Lemma Parse_keeps_module_name_toy :
  (exists res c', Parse (H := toy) "a + b" "Nat" toy_client = Done (res, c')
                  /\ toy_name (command c') = toy_name FOO)
  /\ (exists res c', StratParse (H := toy) "idle" toy_client = Done (res, c')
                     /\ toy_name (command c') = toy_name FOO).
Proof.
  apply (Parse_keeps_module_name (H := toy) toy_name toy_loaded
           "a + b" "Nat" "idle" toy_client).
  - exact toy_obeys.
  - split; reflexivity.
Defined.

End MaudeFacts.

(** *** A session on an instance of a parameterised module *)

Module InstanceFacts.
Import Strings Maude MaudeExamples InstanceExample.

(** C9. [Parse] and [StratParse] do not always leave the current
    module as it was. In a session started on the interpreter [inst],
    after [Select] of the instance [LIST{Nat}], both return with the
    parameterised module [LIST] as the current module: the name read
    from the declaration [fmod LIST{Nat} is] is [LIST], and the deferred
    call selects that. The caller sees it: [show module .] shows another
    module after the call than before. *)
Theorem Parse_loses_module_instance :
  exists c1 res c2 res' c2',
    Select (H := inst) "LIST{Nat}" inst_client = Done c1
    /\ command c1 = ListNat
    /\ result_of (CurrentModuleName c1) = Done "LIST"
    /\ Parse "a + b" "Nat" c1 = Done (res, c2)
    /\ command c2 = List
    /\ StratParse "idle" c1 = Done (res', c2')
    /\ command c2' = List
    /\ result_of (RawInput "show module ." c1) = Done (inst_shown ListNat)
    /\ result_of (RawInput "show module ." c2) = Done (inst_shown List)
    /\ result_of (RawInput "show module ." c2') = Done (inst_shown List)
    /\ inst_shown ListNat <> inst_shown List.
Proof.
  do 5 eexists.
  split; [vm_compute; reflexivity|].
  split; [reflexivity|].
  split; [vm_compute; reflexivity|].
  split; [vm_compute; reflexivity|].
  split; [reflexivity|].
  split; [vm_compute; reflexivity|].
  split; [reflexivity|].
  split; [vm_compute; reflexivity|].
  split; [vm_compute; reflexivity|].
  split; [vm_compute; reflexivity|].
  discriminate.
Qed.

End InstanceFacts.

(** ** The graph renderer *)

Module GrapherFacts.
Import Grapher GraphSpec.

Lemma gopt_foldl_seen : forall sts g, gopt (foldl seen g sts) = gopt g.
Proof.
  induction sts as [|st sts IH]; intros g; [reflexivity|].
  cbn [foldl]. rewrite IH. unfold seen. now destruct (gopt g) eqn:E.
Qed.

Lemma seen_foldl_Legend : forall sts g,
  gopt g = Legend ->
  seenTerms (foldl seen g sts) = list_to_set (Smcdump.Term <$> sts) ∪ seenTerms g
  /\ seenStrats (foldl seen g sts)
     = list_to_set (Smcdump.Strategy <$> sts) ∪ seenStrats g.
Proof.
  induction sts as [|st sts IH]; intros g Hg.
  - cbn [foldl fmap list_fmap list_to_set]. now rewrite !(left_id_L ∅ (∪)).
  - cbn [foldl]. destruct (IH (seen g st)) as [Ht Hs].
    { unfold seen. now rewrite Hg. }
    rewrite Ht, Hs. unfold seen. rewrite Hg. cbn [seenTerms seenStrats].
    rewrite !fmap_cons. cbn [list_to_set].
    rewrite !(assoc_L (∪)).
    rewrite (comm_L (∪) {[Smcdump.Term st]}), (comm_L (∪) {[Smcdump.Strategy st]}).
    auto.
Qed.


Section Rendering.
Context {D : Type} `{SmcDump D}.
Variable Inv : D -> Prop.
Variable nodes : Z -> Prop.
Variable states : Z -> Smcdump.State.
Variable strings : Z -> string.
Hypothesis tabular : Tabular Inv nodes states strings.

Lemma node_statements_app (a b : list item) :
  node_statements (a ++ b) = node_statements a ++ node_statements b.
Proof. apply omap_app. Qed.
Lemma edge_statements_app (a b : list item) :
  edge_statements (a ++ b) = edge_statements a ++ edge_statements b.
Proof. apply omap_app. Qed.
Lemma legend_keys_app (a b : list item) :
  legend_keys (a ++ b) = legend_keys a ++ legend_keys b.
Proof. apply omap_app. Qed.

Lemma edge_label_returns (tr : Smcdump.Transition) (d : D) :
  (Smcdump.TrType tr = Smcdump.Rule \/ Smcdump.TrType tr = Smcdump.Opaque ->
   GetString (Smcdump.Label tr) d = Done (strings (Smcdump.Label tr))) ->
  exists l, edge_label tr d = Done l.
Proof.
  intros Hs. unfold edge_label, Smcdump.Idle, Smcdump.Rule, Smcdump.Opaque in *.
  destruct (Z.eqb_spec (Smcdump.TrType tr) 0); [cbn; eauto|].
  destruct (Z.eqb_spec (Smcdump.TrType tr) 1); [rewrite Hs by auto; cbn; eauto|].
  destruct (Z.eqb_spec (Smcdump.TrType tr) 2); [rewrite Hs by auto; cbn; eauto|].
  cbn; eauto.
Qed.

Lemma graphEdges_returns (n t : Z) (d : D) : forall succs,
  (forall tr, In tr succs ->
     Smcdump.TrType tr = Smcdump.Rule \/ Smcdump.TrType tr = Smcdump.Opaque ->
     GetString (Smcdump.Label tr) d = Done (strings (Smcdump.Label tr))) ->
  exists out, graphEdges n t succs d = Done out
    /\ edge_statements out = (fun tr => (n, Smcdump.Target tr)) <$> edges_to t succs
    /\ node_statements out = [] /\ legend_keys out = [].
Proof.
  induction succs as [|tr succs IH]; intros Hs.
  - exists []. auto.
  - destruct IH as (more & Hmore & He & Hn & Hl);
      [intros tr' Hin; apply Hs; now right|].
    cbn [graphEdges]. rewrite Hmore. unfold edges_to. cbn [List.filter].
    fold (edges_to t succs).
    destruct ((t <? 0) || (Smcdump.Target tr =? t)).
    + destruct (edge_label_returns tr d) as [l Hlab]; [apply Hs; now left|].
      rewrite Hlab. cbn [mbind outcome_bind]. eexists. split; [reflexivity|].
      rewrite edge_statements_app, node_statements_app, legend_keys_app.
      rewrite He, Hn, Hl. auto.
    + cbn [mbind outcome_bind]. eexists. split; [reflexivity|].
      rewrite edge_statements_app, node_statements_app, legend_keys_app.
      rewrite He, Hn, Hl. auto.
Qed.

Lemma graphState_returns (n t : Z) (g : Grapher) (d : D) :
  Inv d -> nodes n ->
  exists out d', graphState n t g d = Done (out, seen g (states n), d')
    /\ Inv d'
    /\ node_statements out = [n]
    /\ edge_statements out
       = (fun tr => (n, Smcdump.Target tr)) <$> edges_to t (Smcdump.Successors (states n))
    /\ legend_keys out = [].
Proof.
  intros Hinv Hn. unfold graphState.
  destruct (tab_State _ _ _ _ tabular d n Hinv Hn) as (d' & Hst & Hinv').
  rewrite Hst. cbn [mbind outcome_bind].
  destruct (graphEdges_returns n t d' (Smcdump.Successors (states n)))
    as (edges & Hedges & He & Hno & Hl).
  { intros tr Hin Hty. now apply (tab_Label _ _ _ _ tabular d' n tr). }
  unfold seen.
  destruct (gopt g) eqn:Hopt; cbn [mbind outcome_bind];
    rewrite ?(tab_Term _ _ _ _ tabular d' n Hinv' Hn),
            ?(tab_Strategy _ _ _ _ tabular d' n Hinv' Hn);
    cbn [mbind outcome_bind]; rewrite Hedges; cbn [mbind outcome_bind];
    eexists; eexists; (split; [reflexivity|]); (split; [exact Hinv'|]);
    rewrite !node_statements_app, !edge_statements_app, !legend_keys_app,
      He, Hno, Hl;
    destruct (Smcdump.Solution (states n)); auto.
Qed.

Lemma graphTrace_returns (arr cycle : list Z) : forall trace pos g d,
  Inv d -> drop pos arr = trace -> Forall nodes trace ->
  (arr = [] \/ cycle <> []) ->
  exists out d',
    graphTrace pos trace arr cycle g d
    = Done (out, foldl seen g (states <$> trace), d')
    /\ Inv d'
    /\ node_statements out = trace
    /\ edge_statements out
       = concat (drawn states <$> zip trace (drop 1 trace ++ take 1 cycle))
    /\ legend_keys out = [].
Proof.
  induction trace as [|n rest IH]; intros pos g d Hinv Hdrop Hnodes Hcyc.
  - exists [], d. cbn. auto.
  - inversion Hnodes as [|? ? Hn Hrest]; subst.
    assert (Hlen : length arr = (pos + 1 + length rest)%nat).
    { apply (f_equal length) in Hdrop. rewrite length_drop in Hdrop.
      cbn [length] in Hdrop. lia. }
    assert (Hdrop' : drop (S pos) arr = rest).
    { replace (S pos) with (pos + 1)%nat by lia.
      now rewrite <- drop_drop, Hdrop. }
    assert (Htarget : exists t,
      (if (pos + 1 =? length arr)%nat then index cycle 0
       else index arr (Z.of_nat (pos + 1))) = Done t
      /\ zip (n :: rest) (drop 1 (n :: rest) ++ take 1 cycle)
         = (n, t) :: zip rest (drop 1 rest ++ take 1 cycle)).
    { destruct rest as [|m rest'].
      - destruct (Nat.eqb_spec (pos + 1) (length arr)); [|cbn in Hlen; lia].
        destruct Hcyc as [->|Hne]; [destruct pos; discriminate|].
        destruct cycle as [|c0 cycle']; [contradiction|].
        exists c0. split; reflexivity.
      - destruct (Nat.eqb_spec (pos + 1) (length arr)); [cbn in Hlen; lia|].
        exists m. split; [|reflexivity].
        unfold index. destruct (Z.ltb_spec (Z.of_nat (pos + 1)) 0); [lia|].
        rewrite Nat2Z.id. replace (pos + 1)%nat with (S pos) by lia.
        rewrite <- (Nat.add_0_r (S pos)), <- lookup_drop, Hdrop'. reflexivity. }
    destruct Htarget as (t & Ht & Hzip).
    cbn [graphTrace]. rewrite Ht. cbn [mbind outcome_bind].
    destruct (graphState_returns n t g d Hinv Hn)
      as (here & d1 & Hhere & Hinv1 & Hn1 & He1 & Hl1).
    rewrite Hhere. cbn [mbind outcome_bind].
    destruct (IH (S pos) (seen g (states n)) d1 Hinv1 Hdrop' Hrest Hcyc)
      as (more & d2 & Hmore & Hinv2 & Hn2 & He2 & Hl2).
    rewrite Hmore. cbn [mbind outcome_bind].
    exists (here ++ more), d2. split; [reflexivity|]. split; [exact Hinv2|].
    rewrite node_statements_app, edge_statements_app, legend_keys_app.
    rewrite Hn1, Hn2, He1, He2, Hl1, Hl2, Hzip. auto.
Qed.

Lemma graphStates_returns : forall l g d,
  Inv d -> Forall (fun i => nodes i /\ int32 i = i) l ->
  exists out d',
    graphStates l g d = Done (out, foldl seen g (states <$> l), d')
    /\ Inv d'
    /\ node_statements out = l
    /\ edge_statements out = concat ((fun i => drawn states (i, -1)) <$> l)
    /\ legend_keys out = [].
Proof.
  induction l as [|i rest IH]; intros g d Hinv Hl.
  - exists [], d. cbn. auto.
  - inversion Hl as [|? ? [Hn Hi] Hrest]; subst.
    cbn [graphStates]. rewrite Hi.
    destruct (graphState_returns i (-1) g d Hinv Hn)
      as (here & d1 & Hhere & Hinv1 & Hn1 & He1 & Hl1).
    rewrite Hhere. cbn [mbind outcome_bind].
    destruct (IH (seen g (states i)) d1 Hinv1 Hrest)
      as (more & d2 & Hmore & Hinv2 & Hn2 & He2 & Hl2).
    rewrite Hmore. cbn [mbind outcome_bind].
    exists (here ++ more), d2. split; [reflexivity|]. split; [exact Hinv2|].
    rewrite node_statements_app, edge_statements_app, legend_keys_app.
    rewrite Hn1, Hn2, He1, He2, Hl1, Hl2. auto.
Qed.

Lemma legend_rows_returns (d : D) : forall keys,
  (forall k, In k keys -> GetString k d = Done (strings k)) ->
  legend_rows keys d
  = Done ((fun k => LegendElem k (Util.CleanHtmlString (strings k))) <$> keys).
Proof.
  induction keys as [|k keys IH]; intros Hk; [reflexivity|].
  cbn [legend_rows]. rewrite (Hk k) by now left. cbn [mbind outcome_bind].
  rewrite IH by (intros k' Hin; apply Hk; now right). reflexivity.
Qed.

Variables path cycle : list Z.
Variable nrStates : Z.
Hypothesis stable : forall d, Inv d ->
  Path d = path /\ Cycle d = cycle /\ NumberOfStates d = nrStates.

Lemma generateLegend_returns (g : Grapher) (d : D) (sts : list Z) :
  Inv d -> Forall nodes sts ->
  seenTerms g = list_to_set (Smcdump.Term ∘ states <$> sts) ->
  seenStrats g = list_to_set (Smcdump.Strategy ∘ states <$> sts) ->
  generateLegend g d
  = Done (legend_block (legend_row strings <$> term_keys states sts)
                       (legend_row strings <$> strat_keys states sts)).
Proof.
  intros Hinv Hsts Ht Hs. unfold generateLegend, term_keys, strat_keys.
  rewrite <- Ht, <- Hs.
  rewrite !legend_rows_returns.
  - cbn [mbind outcome_bind]. unfold legend_block.
    rewrite <- !list_fmap_compose. reflexivity.
  - intros k Hk. apply list_elem_of_In, elem_of_elements in Hk.
    rewrite Ht in Hk. apply elem_of_list_to_set, list_elem_of_fmap in Hk.
    destruct Hk as (n & -> & Hn). rewrite Forall_forall in Hsts.
    apply (tab_Term _ _ _ _ tabular); auto.
  - intros k Hk. apply list_elem_of_In, elem_of_elements in Hk.
    rewrite Hs in Hk. apply elem_of_list_to_set, list_elem_of_fmap in Hk.
    destruct Hk as (n & -> & Hn). rewrite Forall_forall in Hsts.
    apply (tab_Strategy _ _ _ _ tabular); auto.
Qed.

Lemma statements_legend_block (terms strats : list (Z * string)) :
  node_statements (legend_block terms strats) = []
  /\ edge_statements (legend_block terms strats) = [].
Proof.
  unfold legend_block.
  rewrite !node_statements_app, !edge_statements_app.
  assert (Hrows : forall rows : list (Z * string),
    node_statements ((fun r => LegendElem r.1 r.2) <$> rows) = []
    /\ edge_statements ((fun r => LegendElem r.1 r.2) <$> rows) = []).
  { induction rows as [|r rows [IHn IHe]]; [auto|].
    rewrite fmap_cons. cbn. auto. }
  destruct (Hrows terms) as [-> ->]. destruct (Hrows strats) as [-> ->]. auto.
Qed.

(** What [GenerateCounterDot] writes. *)
Lemma GenerateCounterDot_returns (g : Grapher) (d : D) :
  Inv d -> Forall nodes (path ++ cycle) -> (path = [] \/ cycle <> []) ->
  exists body g' d',
    GenerateCounterDot g d
    = Done ([Text ("digraph {" +:+ Strings.nl)] ++ body
            ++ (if gopt g is Legend
                then legend_block (legend_row strings <$> term_keys states (path ++ cycle))
                                  (legend_row strings <$> strat_keys states (path ++ cycle))
                else [])
            ++ [Text ("}" +:+ Strings.nl)], g', d')
    /\ node_statements body = path ++ cycle
    /\ edge_statements body = concat (drawn states <$> steps path cycle)
    /\ legend_keys body = [].
Proof.
  intros Hinv Hnodes Hcyc. apply Forall_app in Hnodes as [Hp Hc].
  destruct (stable d Hinv) as (HP & HC & _).
  unfold GenerateCounterDot. rewrite HP, HC.
  destruct (graphTrace_returns path cycle path 0 (Clean g) d Hinv eq_refl Hp Hcyc)
    as (body1 & d1 & Hb1 & Hinv1 & Hn1 & He1 & Hl1).
  rewrite Hb1. cbn [mbind outcome_bind].
  destruct (stable d1 Hinv1) as (_ & HC1 & _). rewrite HC1.
  assert (Hcyc' : cycle = [] \/ cycle <> []) by (destruct cycle; auto).
  destruct (graphTrace_returns cycle cycle cycle 0
              (foldl seen (Clean g) (states <$> path)) d1 Hinv1 eq_refl Hc Hcyc')
    as (body2 & d2 & Hb2 & Hinv2 & Hn2 & He2 & Hl2).
  rewrite Hb2. cbn [mbind outcome_bind].
  rewrite <- foldl_app, <- fmap_app.
  set (g2 := foldl seen (Clean g) (states <$> path ++ cycle)).
  assert (Hg2 : gopt g2 = gopt g) by (unfold g2; now rewrite gopt_foldl_seen).
  assert (Hleg : (if gopt g2 is Legend then generateLegend g2 d2 else Done [])
    = Done (if gopt g is Legend
            then legend_block (legend_row strings <$> term_keys states (path ++ cycle))
                              (legend_row strings <$> strat_keys states (path ++ cycle))
            else [])).
  { rewrite Hg2. destruct (gopt g) eqn:Hopt; try reflexivity.
    destruct (seen_foldl_Legend (states <$> path ++ cycle) (Clean g) Hopt)
      as [Ht Hs]. fold g2 in Ht, Hs. cbn [Clean seenTerms seenStrats] in Ht, Hs.
    rewrite (right_id_L ∅ (∪)) in Ht, Hs. rewrite <- list_fmap_compose in Ht, Hs.
    apply generateLegend_returns; auto. apply Forall_app; auto. }
  rewrite Hleg. cbn [mbind outcome_bind].
  exists (body1 ++ body2), g2, d2. split; [now rewrite <- !app_assoc|].
  rewrite node_statements_app, edge_statements_app, legend_keys_app.
  rewrite Hn1, Hn2, He1, He2, Hl1, Hl2. unfold steps.
  rewrite fmap_app, concat_app. auto.
Qed.

Lemma drawn_single (a b : Z) :
  0 <= b ->
  length (edges_to b (Smcdump.Successors (states a))) = 1%nat ->
  drawn states (a, b) = [(a, b)].
Proof.
  intros Hb Hlen. unfold drawn. cbn [fst snd].
  destruct (edges_to b (Smcdump.Successors (states a))) as [|tr [|? ?]] eqn:E;
    try discriminate.
  assert (Hin : In tr (edges_to b (Smcdump.Successors (states a))))
    by (rewrite E; now left).
  apply filter_In in Hin as [_ Hin].
  destruct (Z.ltb_spec b 0); [lia|]. cbn [orb] in Hin.
  apply Z.eqb_eq in Hin. cbn. now rewrite Hin.
Qed.

Lemma length_steps :
  path = [] \/ cycle <> [] ->
  length (steps path cycle) = (length path + length cycle)%nat.
Proof.
  intros Hcyc. unfold steps.
  rewrite length_app, !length_zip, !length_app, !length_drop, !length_take.
  destruct Hcyc as [Hp|Hne]; [rewrite Hp; cbn [length]; lia|].
  destruct cycle; [contradiction|]. cbn [length]. lia.
Qed.

(** What [GenerateDot] writes. *)
Lemma GenerateDot_returns (g : Grapher) (d : D) :
  Inv d -> Forall nodes (seqZ 0 nrStates) -> nrStates <= Int32.max_int + 1 ->
  exists body g' d',
    GenerateDot g d
    = Done ([Text ("digraph {" +:+ Strings.nl)] ++ body
            ++ (if gopt g is Legend
                then legend_block
                       (legend_row strings <$> term_keys states (seqZ 0 nrStates))
                       (legend_row strings <$> strat_keys states (seqZ 0 nrStates))
                else [])
            ++ [Text ("}" +:+ Strings.nl)], g', d')
    /\ node_statements body = seqZ 0 nrStates
    /\ edge_statements body
       = concat ((fun i => drawn states (i, -1)) <$> seqZ 0 nrStates)
    /\ legend_keys body = [].
Proof.
  intros Hinv Hnodes Hmax. destruct (stable d Hinv) as (_ & _ & HN).
  unfold GenerateDot. rewrite HN.
  assert (Hall : Forall (fun i => nodes i /\ int32 i = i) (seqZ 0 nrStates)).
  { rewrite Forall_forall in Hnodes. apply Forall_forall. intros i Hi.
    split; [now apply Hnodes|]. apply elem_of_seqZ in Hi.
    apply Int32Facts.int32_in_range.
    unfold Int32.in_range, Int32.min_int, Int32.max_int in *. lia. }
  destruct (graphStates_returns (seqZ 0 nrStates) (Clean g) d Hinv Hall)
    as (body & d1 & Hb & Hinv1 & Hn & He & Hl).
  rewrite Hb. cbn [mbind outcome_bind].
  set (g1 := foldl seen (Clean g) (states <$> seqZ 0 nrStates)).
  assert (Hg1 : gopt g1 = gopt g) by (unfold g1; now rewrite gopt_foldl_seen).
  assert (Hleg : (if gopt g1 is Legend then generateLegend g1 d1 else Done [])
    = Done (if gopt g is Legend
            then legend_block
                   (legend_row strings <$> term_keys states (seqZ 0 nrStates))
                   (legend_row strings <$> strat_keys states (seqZ 0 nrStates))
            else [])).
  { rewrite Hg1. destruct (gopt g) eqn:Hopt; try reflexivity.
    destruct (seen_foldl_Legend (states <$> seqZ 0 nrStates) (Clean g) Hopt)
      as [Ht Hs]. fold g1 in Ht, Hs. cbn [Clean seenTerms seenStrats] in Ht, Hs.
    rewrite (right_id_L ∅ (∪)) in Ht, Hs. rewrite <- list_fmap_compose in Ht, Hs.
    apply generateLegend_returns; auto. }
  rewrite Hleg. cbn [mbind outcome_bind].
  exists body, g1, d1. auto.
Qed.

Lemma keys_once (sts : list Z) :
  NoDup (term_keys states sts) /\ NoDup (strat_keys states sts)
  /\ (forall k, k ∈ term_keys states sts
                <-> exists n, n ∈ sts /\ Smcdump.Term (states n) = k)
  /\ (forall k, k ∈ strat_keys states sts
                <-> exists n, n ∈ sts /\ Smcdump.Strategy (states n) = k).
Proof.
  unfold term_keys, strat_keys.
  split; [apply NoDup_elements|]. split; [apply NoDup_elements|].
  split; intros k; rewrite elem_of_elements, elem_of_list_to_set,
    list_elem_of_fmap; split; intros (n & H1 & H2); exists n; cbn in *; auto.
Qed.

(** C6, as amended. For a dump that answers like a table, with a path
    of length P and a cycle of length C that is not empty when the path is
    not, in which every state of the trace has exactly one transition to
    the state that follows it in the trace (the first state of the cycle
    after the last state of the path and after the last state of the
    cycle): [GenerateCounterDot] writes exactly P+C node statements and
    exactly P+C edge statements, the edges of the trace in their order. *)
Theorem GenerateCounterDot_single_steps (g : Grapher) (d : D) :
  Inv d -> Forall nodes (path ++ cycle) -> (path = [] \/ cycle <> []) ->
  Forall (fun st => 0 <= st.2
            /\ length (edges_to st.2 (Smcdump.Successors (states st.1))) = 1%nat)
         (steps path cycle) ->
  exists out g' d',
    GenerateCounterDot g d = Done (out, g', d')
    /\ node_statements out = path ++ cycle
    /\ edge_statements out = steps path cycle
    /\ length (node_statements out) = (length path + length cycle)%nat
    /\ length (edge_statements out) = (length path + length cycle)%nat.
Proof.
  intros Hinv Hnodes Hcyc Hsingle.
  destruct (GenerateCounterDot_returns g d Hinv Hnodes Hcyc)
    as (body & g' & d' & Hgen & Hn & He & _).
  assert (Hsteps : concat (drawn states <$> steps path cycle) = steps path cycle).
  { revert Hsingle. generalize (steps path cycle). intros sts Hsts.
    induction Hsts as [|[a b] sts [Hb Hone] _ IH]; [reflexivity|].
    rewrite fmap_cons. cbn [concat]. rewrite IH.
    now rewrite (drawn_single a b Hb Hone). }
  eexists. exists g', d'. split; [exact Hgen|].
  rewrite !node_statements_app, !edge_statements_app.
  assert (Hleg : node_statements
            (if gopt g is Legend
             then legend_block (legend_row strings <$> term_keys states (path ++ cycle))
                               (legend_row strings <$> strat_keys states (path ++ cycle))
             else []) = []
          /\ edge_statements
               (if gopt g is Legend
                then legend_block (legend_row strings <$> term_keys states (path ++ cycle))
                                  (legend_row strings <$> strat_keys states (path ++ cycle))
                else []) = []).
  { destruct (gopt g); auto using statements_legend_block. }
  destruct Hleg as [-> ->]. rewrite Hn, He, Hsteps.
  change (node_statements [Text ("digraph {" +:+ Strings.nl)]) with (@nil Z).
  change (edge_statements [Text ("digraph {" +:+ Strings.nl)]) with (@nil (Z * Z)).
  change (node_statements [Text ("}" +:+ Strings.nl)]) with (@nil Z).
  change (edge_statements [Text ("}" +:+ Strings.nl)]) with (@nil (Z * Z)).
  cbn [app]. rewrite !app_nil_r.
  rewrite length_app, length_steps by assumption. auto.
Qed.

(** C7, as amended. In legend mode, for a dump that answers like a
    table: the output of [GenerateCounterDot], and of [GenerateDot], ends
    with a legend of two tables; the first has exactly one row for every
    term number of a drawn state, the second exactly one row for every
    strategy number of a drawn state, each with the cleaned text of the
    string; there is no other row, in particular none for the label of an
    edge, and a number that is both a term and a strategy has a row in
    each table. The seen sets that the grapher had before the call have no
    part in it. *)
Theorem legend_rows_of_drawn_states (g : Grapher) (d : D) :
  Inv d -> gopt g = Legend ->
  Forall nodes (path ++ cycle) -> (path = [] \/ cycle <> []) ->
  Forall nodes (seqZ 0 nrStates) -> nrStates <= Int32.max_int + 1 ->
  (exists body g' d',
     GenerateCounterDot g d
     = Done ([Text ("digraph {" +:+ Strings.nl)] ++ body
             ++ legend_block (legend_row strings <$> term_keys states (path ++ cycle))
                             (legend_row strings <$> strat_keys states (path ++ cycle))
             ++ [Text ("}" +:+ Strings.nl)], g', d')
     /\ legend_keys body = [])
  /\ (exists body g' d',
        GenerateDot g d
        = Done ([Text ("digraph {" +:+ Strings.nl)] ++ body
                ++ legend_block
                     (legend_row strings <$> term_keys states (seqZ 0 nrStates))
                     (legend_row strings <$> strat_keys states (seqZ 0 nrStates))
                ++ [Text ("}" +:+ Strings.nl)], g', d')
        /\ legend_keys body = [])
  /\ (forall sts,
        NoDup (term_keys states sts) /\ NoDup (strat_keys states sts)
        /\ (forall k, k ∈ term_keys states sts
                      <-> exists n, n ∈ sts /\ Smcdump.Term (states n) = k)
        /\ (forall k, k ∈ strat_keys states sts
                      <-> exists n, n ∈ sts /\ Smcdump.Strategy (states n) = k)).
Proof.
  intros Hinv Hopt Hnodes Hcyc Hall Hmax. split; [|split].
  - destruct (GenerateCounterDot_returns g d Hinv Hnodes Hcyc)
      as (body & g' & d' & Hgen & _ & _ & Hl).
    rewrite Hopt in Hgen. eauto 6.
  - destruct (GenerateDot_returns g d Hinv Hall Hmax)
      as (body & g' & d' & Hgen & _ & _ & Hl).
    rewrite Hopt in Hgen. eauto 6.
  - apply keys_once.
Qed.

End Rendering.

Import Smcdump DumpFormat DumpExamples GraphExamples.

Lemma lasso_tabular :
  Tabular (moved lasso_dump) lasso_nodes lasso_states lasso_strings.
Proof.
  split.
  - intros d n [pos ->] Hn.
    destruct Hn as [-> | [-> | ->]];
      match goal with
      | |- exists d', ?call = _ /\ _ =>
          let r := fresh "r" in
          set (r := call); vm_compute in r; subst r
      end;
      (eexists; split; [reflexivity|eexists; reflexivity]).
  - intros d n [pos ->] Hn. destruct Hn as [-> | [-> | ->]]; vm_compute; reflexivity.
  - intros d n [pos ->] Hn. destruct Hn as [-> | [-> | ->]]; vm_compute; reflexivity.
  - intros d n tr [pos ->] Hn Hin _.
    destruct Hn as [-> | [-> | ->]]; vm_compute in Hin;
      repeat (destruct Hin as [<-|Hin]; [vm_compute; reflexivity|]);
      contradiction.
Qed.

Lemma lasso_stable (d : smcdump) :
  moved lasso_dump d -> Path d = [0] /\ Cycle d = [1; 2] /\ NumberOfStates d = 3.
Proof. intros [pos ->]. vm_compute. auto. Qed.

Lemma lasso_dump_moved : moved lasso_dump lasso_dump.
Proof. eexists. reflexivity. Qed.

Lemma lasso_nodes_all : Forall lasso_nodes [0; 1; 2].
Proof.
  unfold lasso_nodes.
  apply List.Forall_cons; [auto|].
  apply List.Forall_cons; [auto|].
  apply List.Forall_cons; [auto|].
  apply List.Forall_nil.
Qed.

Lemma GenerateCounterDot_single_steps_witness :
  exists out g' d',
    GenerateCounterDot (MakeGrapher Short) lasso_dump = Done (out, g', d')
    /\ node_statements out = [0] ++ [1; 2]
    /\ edge_statements out = steps [0] [1; 2]
    /\ length (node_statements out) = (length [0] + length [1; 2])%nat
    /\ length (edge_statements out) = (length [0] + length [1; 2])%nat.
Proof.
  apply (GenerateCounterDot_single_steps (moved lasso_dump) lasso_nodes
           lasso_states lasso_strings lasso_tabular [0] [1; 2] 3 lasso_stable
           (MakeGrapher Short) lasso_dump).
  - exact lasso_dump_moved.
  - exact lasso_nodes_all.
  - right. discriminate.
  - repeat constructor; vm_compute; congruence.
Defined.

(** C6, as stated, fails when a state has two transitions to the state
    that follows it: in the dump [two_rules] (path of length 1, cycle of
    length 1, every step of the trace a transition of its source)
    [GenerateCounterDot] writes three edge statements, not two. *)
Lemma GenerateCounterDot_parallel_transitions :
  exists out g' d',
    fst (Read "trace.dump" (disk_of "trace.dump" (encode two_rules)))
    = Done (Opened two_rules_dump)
    /\ GenerateCounterDot (MakeGrapher Short) two_rules_dump = Done (out, g', d')
    /\ steps (Path two_rules_dump) (Cycle two_rules_dump) = [(0, 1); (1, 1)]
    /\ Forall (fun st => exists s d1,
                 GetState st.1 two_rules_dump = Done (s, d1)
                 /\ In st.2 (Target <$> Successors s))
              (steps (Path two_rules_dump) (Cycle two_rules_dump))
    /\ length (node_statements out) = 2%nat
    /\ length (edge_statements out) = 3%nat
    /\ length (edge_statements out)
       <> (length (Path two_rules_dump) + length (Cycle two_rules_dump))%nat.
Proof.
  do 3 eexists. split; [vm_compute; reflexivity|].
  split; [vm_compute; reflexivity|].
  split; [reflexivity|].
  split.
  - repeat constructor; (do 2 eexists; split; [vm_compute; reflexivity|]);
      cbn; auto.
  - repeat split; vm_compute; congruence.
Qed.

Lemma legend_rows_of_drawn_states_witness :
  (exists body g' d',
     GenerateCounterDot (MakeGrapher Legend) lasso_dump
     = Done ([Text ("digraph {" +:+ Strings.nl)] ++ body
             ++ legend_block
                  (legend_row lasso_strings <$> term_keys lasso_states ([0] ++ [1; 2]))
                  (legend_row lasso_strings <$> strat_keys lasso_states ([0] ++ [1; 2]))
             ++ [Text ("}" +:+ Strings.nl)], g', d')
     /\ legend_keys body = [])
  /\ (exists body g' d',
        GenerateDot (MakeGrapher Legend) lasso_dump
        = Done ([Text ("digraph {" +:+ Strings.nl)] ++ body
                ++ legend_block
                     (legend_row lasso_strings <$> term_keys lasso_states (seqZ 0 3))
                     (legend_row lasso_strings <$> strat_keys lasso_states (seqZ 0 3))
                ++ [Text ("}" +:+ Strings.nl)], g', d')
        /\ legend_keys body = [])
  /\ (forall sts,
        NoDup (term_keys lasso_states sts) /\ NoDup (strat_keys lasso_states sts)
        /\ (forall k, k ∈ term_keys lasso_states sts
                      <-> exists n, n ∈ sts /\ Term (lasso_states n) = k)
        /\ (forall k, k ∈ strat_keys lasso_states sts
                      <-> exists n, n ∈ sts /\ Strategy (lasso_states n) = k)).
Proof.
  apply (legend_rows_of_drawn_states (moved lasso_dump) lasso_nodes
           lasso_states lasso_strings lasso_tabular [0] [1; 2] 3 lasso_stable
           (MakeGrapher Legend) lasso_dump).
  - exact lasso_dump_moved.
  - reflexivity.
  - exact lasso_nodes_all.
  - right. discriminate.
  - exact lasso_nodes_all.
  - vm_compute. discriminate.
Defined.

(** C7, as stated, fails for the labels of edges: in legend mode the
    counterexample of [two_rules] has an edge whose label is string 2,
    and the legend has no row for 2 (its rows are 4 and 0 for the terms,
    1 for the strategy). *)
Lemma legend_has_no_row_for_edge_labels :
  exists out g' d' st d1,
    GenerateCounterDot (MakeGrapher Legend) two_rules_dump = Done (out, g', d')
    /\ GetState 0 two_rules_dump = Done (st, d1)
    /\ In 2 (label_refs (Successors st))
    /\ GetString 2 two_rules_dump = Done "r1"
    /\ In (Edge 0 1 "r1") out
    /\ legend_keys out = [4; 0; 1]
    /\ ~ In 2 (legend_keys out).
Proof.
  do 5 eexists. split; [vm_compute; reflexivity|].
  split; [vm_compute; reflexivity|].
  split; [vm_compute; auto|].
  split; [vm_compute; reflexivity|].
  split; [cbn; auto 10|].
  split; [reflexivity|].
  cbn. intros [H|[H|[H|[]]]]; discriminate.
Qed.

End GrapherFacts.

(** ** The trace store: round trips, errors and the file handle *)

Module DumpExtras.
Import Smcdump DumpFormat DumpExamples DumpFacts ReaderSpec ReaderFacts StateFormat.
Import GraphExamples.

Lemma read_tmp_at content (f : Os.File) (b tmp : byte) rest :
  file_at content f (b :: rest) ->
  exists f', read_tmp tmp f = (b, f') /\ file_at content f' rest.
Proof.
  intros Hat.
  destruct (file_Read_at content f [b] rest Hat) as (k & f' & Hk & Hr & Hat');
    [simpl; lia|].
  simpl in Hk. assert (k = 1%nat) as -> by lia.
  exists f'. split; [|exact Hat'].
  unfold read_tmp. change (Os.Read 1 f) with (io_Read (length [b]) f).
  now rewrite Hr.
Qed.

Lemma read_successors_encode content : forall trs zeros tmp f rest,
  file_at content f (concat (encode_transition <$> trs) ++ rest) ->
  Forall well_formed_transition trs ->
  length zeros = length trs -> Forall (fun z => Label z = 0) zeros ->
  exists f', read_successors zeros tmp f = (trs, f') /\ file_at content f' rest.
Proof.
  pose proof (binary_Read_at file_at file_Read_at content) as fread.
  induction trs as [|tr trs IH]; intros zeros tmp f rest Hat Hwf Hlen Hz.
  - destruct zeros; [|discriminate]. exists f. auto.
  - destruct zeros as [|z zeros]; [discriminate|].
    inversion Hwf as [|? ? (Htgt & Hlbl & Hkind) Hwf']; subst.
    inversion Hz as [|? ? Hz0 Hz']; subst.
    rewrite fmap_cons in Hat. cbn [concat] in Hat.
    unfold encode_transition at 1 in Hat. rewrite <- !app_assoc in Hat.
    destruct (fread _ (Target z) _ _ Hat Htgt) as (f1 & Hr1 & Hat1).
    cbn [app] in Hat1.
    destruct (read_tmp_at content f1 _ tmp _ Hat1) as (f2 & Hr2 & Hat2).
    cbn [read_successors]. rewrite Hr1, Hr2.
    assert (Hty : Int32.byte_val (Int32.byte_of_Z (TrType tr)) = TrType tr).
    { rewrite Int32Facts.byte_val_of_Z.
      destruct Hkind as [[-> _]|[->| ->]]; reflexivity. }
    rewrite Hty.
    destruct tr as [target label ty]. cbn [Target Label TrType] in *.
    destruct Hkind as [[-> ->]|[->| ->]].
    + change (Idle =? Idle) with true in Hat2. cbn iota in Hat2.
      cbn [app] in Hat2.
      change ((Idle =? Rule) || (Idle =? Opaque)) with false. cbn iota.
      destruct (IH zeros (Int32.byte_of_Z Idle) f2 rest Hat2 Hwf') as (f3 & Hr3 & Hat3);
        [simpl in Hlen; lia | exact Hz' |].
      rewrite Hr3. exists f3. rewrite Hz0. auto.
    + change (Rule =? Idle) with false in Hat2. cbn iota in Hat2.
      change ((Rule =? Rule) || (Rule =? Opaque)) with true. cbn iota.
      destruct (fread _ (Label z) _ _ Hat2 Hlbl) as (f3 & Hr3 & Hat3).
      rewrite Hr3.
      destruct (IH zeros (Int32.byte_of_Z Rule) f3 rest Hat3 Hwf') as (f4 & Hr4 & Hat4);
        [simpl in Hlen; lia | exact Hz' |].
      rewrite Hr4. exists f4. auto.
    + change (Opaque =? Idle) with false in Hat2. cbn iota in Hat2.
      change ((Opaque =? Rule) || (Opaque =? Opaque)) with true. cbn iota.
      destruct (fread _ (Label z) _ _ Hat2 Hlbl) as (f3 & Hr3 & Hat3).
      rewrite Hr3.
      destruct (IH zeros (Int32.byte_of_Z Opaque) f3 rest Hat3 Hwf') as (f4 & Hr4 & Hat4);
        [simpl in Hlen; lia | exact Hz' |].
      rewrite Hr4. exists f4. auto.
Qed.

Lemma length_encode_transitions (trs : list Transition) :
  (length trs <= length (concat (encode_transition <$> trs)))%nat.
Proof.
  induction trs as [|tr trs IH]; [reflexivity|].
  rewrite fmap_cons. cbn [concat length]. unfold encode_transition at 1.
  rewrite !length_app, Int32Facts.encode_length. simpl. lia.
Qed.

Lemma offsets_lookup_lt : forall blocks base i (b : list byte),
  blocks !! i = Some b ->
  offsets base blocks !! i = Some (Z.of_nat (base + length (concat (take i blocks)))).
Proof.
  intros blocks base i b Hb.
  assert (Hi : (i < length blocks)%nat) by (eapply lookup_lt_Some; eauto).
  rewrite <- (offsets_lookup blocks base i) by lia.
  rewrite lookup_app_l; [reflexivity|]. now rewrite length_offsets.
Qed.

(** Reading state [i] back from a dump written in the format. *)
Lemma GetState_encode (c : Contents) (d : smcdump) (i : nat) (st : State) :
  well_formed c -> Forall well_formed_state (c_states c) ->
  statesIndex d = offsets (states_base c) (state_blocks c) ->
  Os.content (file d) = encode c -> Os.is_open (file d) = true ->
  c_states c !! i = Some st ->
  exists f', GetState (Z.of_nat i) d = Done (st, set_file d f')
    /\ Os.content f' = encode c /\ Os.is_open f' = true.
Proof.
  intros Hwf Hsts Hidx Hc Hopen Hst. pose proof (wf_size c Hwf) as Hsize.
  pose proof (length_encode c) as Hlen.
  pose proof (binary_Read_at file_at file_Read_at (encode c)) as fread.
  assert (Hb : state_blocks c !! i = Some (encode_state st)).
  { unfold state_blocks. now rewrite list_lookup_fmap, Hst. }
  pose proof (take_drop_middle _ _ _ Hb) as Hmid.
  assert (Hcat : concat (state_blocks c)
                 = concat (take i (state_blocks c)) ++ encode_state st
                   ++ concat (drop (S i) (state_blocks c))).
  { rewrite <- Hmid at 1. rewrite concat_app. reflexivity. }
  set (before := concat (take i (state_blocks c))) in *.
  assert (Hmax : forall n : nat, (n <= length (encode c))%nat ->
                                 Int32.in_range (Z.of_nat n)).
  { intros n Hn. eapply Int32Facts.in_range_of_nat; [|exact Hsize]. lia. }
  destruct (Forall_lookup_1 _ _ _ _ Hsts Hst) as [Hterm Hstrat Hsuccs].
  unfold GetState. rewrite Hidx.
  rewrite (index_of_nat _ i _ (offsets_lookup_lt _ (states_base c) i _ Hb)).
  cbn [mbind outcome_bind]. fold before.
  pose proof (file_Seek_at (encode c) (file d) (states_base c + length before)
                Hopen Hc) as Hat0.
  assert (Hdrop : drop (states_base c + length before) (encode c)
                  = encode_state st ++ concat (drop (S i) (state_blocks c))
                    ++ concat (string_blocks c) ++ string_table c).
  { unfold encode. rewrite Hcat. rewrite <- !app_assoc.
    rewrite !app_assoc.
    rewrite <- (app_assoc _ (encode_state st)).
    rewrite <- (app_assoc _ (encode_state st ++ _)).
    rewrite <- (app_assoc _ (_ ++ concat (string_blocks c))).
    rewrite <- !(app_assoc (encode_state st)).
    match goal with
    | |- drop ?n (?pre ++ _) = _ =>
        replace n with (length pre); [apply drop_app_length|]
    end.
    rewrite !length_app, length_int32_array, length_offsets,
      Int32Facts.encode_length.
    unfold states_base, state_blocks. rewrite length_fmap. lia. }
  rewrite Hdrop in Hat0. unfold encode_state in Hat0.
  rewrite <- !app_assoc in Hat0.
  destruct (fread _ 0 _ _ Hat0 Hterm) as (f1 & Hr1 & Hat1). rewrite Hr1.
  destruct (fread _ 0 _ _ Hat1 Hstrat) as (f2 & Hr2 & Hat2). rewrite Hr2.
  cbn [app] in Hat2.
  destruct (read_tmp_at _ f2 _ x00 _ Hat2) as (f3 & Hr3 & Hat3). rewrite Hr3.
  assert (Hlenst : (length (encode_state st) <= length (encode c))%nat).
  { pose proof (length_drop (encode c) (states_base c + length before)) as Hd.
    rewrite Hdrop, !length_app in Hd. lia. }
  assert (Hn : Int32.in_range (Z.of_nat (length (Successors st)))).
  { apply Hmax. unfold encode_state in Hlenst. rewrite !length_app in Hlenst.
    pose proof (length_encode_transitions (Successors st)). lia. }
  destruct (fread _ 0 _ _ Hat3 Hn) as (f4 & Hr4 & Hat4). rewrite Hr4.
  rewrite make_of_nat. cbn [mbind outcome_bind].
  destruct (read_successors_encode _ (Successors st)
              (replicate (length (Successors st)) (mkTransition 0 0 0))
              (if Solution st then x01 else x00) f4 _ Hat4 Hsuccs)
    as (f5 & Hr5 & Hat5).
  { apply length_replicate. }
  { apply Forall_replicate. reflexivity. }
  rewrite Hr5. exists f5. cbn [mret outcome_ret].
  destruct Hat5 as (Hopen5 & Hc5 & _). split; [|auto].
  do 2 f_equal. destruct st as [succs sol term strat]. cbn [Successors Solution Term Strategy].
  f_equal. now destruct sol.
Qed.



Lemma reads_set_file (c : Contents) (d : smcdump) (f : Os.File) :
  reads c d -> Os.content f = encode c -> Os.is_open f = true ->
  reads c (set_file d f).
Proof. intros (H1 & H2 & _ & _) Hc Ho. repeat split; assumption. Qed.

Lemma Read_reads (c : Contents) (fpath : string) (os : Os.t) :
  well_formed c -> Os.disk os !! fpath = Some (encode c) ->
  exists d, fst (Read fpath os) = Done (Opened d) /\ reads c d
    /\ InitialTerm d = c_initialTerm c /\ LtlFormula d = c_formula c
    /\ NumberOfStates d = Z.of_nat (length (c_states c))
    /\ Path d = (if c_holds c then [] else c_path c)
    /\ Cycle d = (if c_holds c then [] else c_cycle c).
Proof.
  intros Hwf Hd. rewrite (DumpClaims.Read_opens _ _ _ Hd). cbn [fst].
  destruct (Read_file_encode c (Os.mkFile (Os.next_fd os) (encode c) 0 true) Hwf)
    as (f' & Hread & Hc & Hopen); [reflexivity..|].
  eexists. split; [exact Hread|].
  unfold reads, NumberOfStates.
  cbn [statesIndex stringsIndex file InitialTerm LtlFormula Path Cycle
       initialTerm ltlFormula path cycle].
  rewrite length_offsets. unfold state_blocks. rewrite length_fmap. auto 10.
Qed.

(** [X1] A dump written in the format, with states
    whose transitions are idle, rule or opaque transitions, is read
    back state by state: [Read] returns a dump, and on it, and on the
    dump that any number of calls of [State] leaves, [State(i)] returns
    state [i] as it was written. *)
Theorem State_round_trip (c : Contents) (fpath : string) (os : Os.t) :
  well_formed c -> Forall well_formed_state (c_states c) ->
  Os.disk os !! fpath = Some (encode c) ->
  exists d, fst (Read fpath os) = Done (Opened d) /\ reads c d
    /\ forall d1 i st, reads c d1 -> c_states c !! i = Some st ->
         exists d2, GetState (Z.of_nat i) d1 = Done (st, d2) /\ reads c d2.
Proof.
  intros Hwf Hsts Hd.
  destruct (Read_reads c fpath os Hwf Hd) as (d & Hread & Hreads & _).
  exists d. split; [exact Hread|]. split; [exact Hreads|].
  intros d1 i st Hr1 Hst. pose proof Hr1 as (Hsi & _ & Hc & Hopen).
  destruct (GetState_encode c d1 i st Hwf Hsts Hsi Hc Hopen Hst)
    as (f' & Hget & Hc' & Hopen').
  eexists. split; [exact Hget|]. now apply reads_set_file.
Qed.

Lemma lasso_well_formed : well_formed lasso.
Proof.
  split.
  - apply (bool_decide_unpack _). vm_compute. exact I.
  - apply (bool_decide_unpack _). vm_compute. exact I.
  - repeat constructor; vm_compute; discriminate.
  - repeat constructor; vm_compute; discriminate.
  - vm_compute. discriminate.
Qed.

Lemma lasso_states_well_formed : Forall well_formed_state (c_states lasso).
Proof.
  repeat first
    [ apply List.Forall_cons | apply List.Forall_nil | split
    | (left; split; reflexivity) | (right; left; reflexivity)
    | (right; right; reflexivity) | (vm_compute; discriminate) ].
Qed.

Lemma State_round_trip_witness :
  exists d,
    fst (Read "trace.dump" (disk_of "trace.dump" (encode lasso))) = Done (Opened d)
    /\ reads lasso d
    /\ forall d1 i st, reads lasso d1 -> c_states lasso !! i = Some st ->
         exists d2, GetState (Z.of_nat i) d1 = Done (st, d2) /\ reads lasso d2.
Proof.
  apply (State_round_trip lasso "trace.dump" (disk_of "trace.dump" (encode lasso))).
  - exact lasso_well_formed.
  - exact lasso_states_well_formed.
  - reflexivity.
Defined.

(** [X2] What [Read] returns for a dump written in the
    format: the initial term and the formula without their terminators,
    the number of states, and the path and the cycle when the flag says
    that the property does not hold (none otherwise). *)
Theorem Read_header_round_trip (c : Contents) (fpath : string) (os : Os.t) :
  well_formed c -> Os.disk os !! fpath = Some (encode c) ->
  exists d, fst (Read fpath os) = Done (Opened d)
    /\ InitialTerm d = c_initialTerm c /\ LtlFormula d = c_formula c
    /\ NumberOfStates d = Z.of_nat (length (c_states c))
    /\ Path d = (if c_holds c then [] else c_path c)
    /\ Cycle d = (if c_holds c then [] else c_cycle c).
Proof.
  intros Hwf Hd.
  destruct (Read_reads c fpath os Hwf Hd) as (d & Hread & _ & H).
  exists d. auto.
Qed.

Lemma Read_header_round_trip_witness :
  exists d,
    fst (Read "trace.dump" (disk_of "trace.dump" (encode two_rules)))
    = Done (Opened d)
    /\ InitialTerm d = c_initialTerm two_rules
    /\ LtlFormula d = c_formula two_rules
    /\ NumberOfStates d = Z.of_nat (length (c_states two_rules))
    /\ Path d = (if c_holds two_rules then [] else c_path two_rules)
    /\ Cycle d = (if c_holds two_rules then [] else c_cycle two_rules).
Proof.
  apply (Read_header_round_trip two_rules "trace.dump"
           (disk_of "trace.dump" (encode two_rules))).
  - exact DumpClaims.two_rules_well_formed.
  - reflexivity.
Defined.

Lemma same_file_refl f : same_file f f.
Proof. now repeat split. Qed.

Lemma same_file_trans f g h : same_file f g -> same_file g h -> same_file f h.
Proof. intros (?&?&?) (?&?&?). repeat split; congruence. Qed.

Lemma Os_Read_same n f : same_file f (Os.Read n f).2.
Proof. unfold Os.Read. destruct (Os.is_open f) eqn:E; repeat split; auto. Qed.

Lemma Os_Seek_same off f : same_file f (Os.Seek off f).
Proof.
  unfold Os.Seek. destruct (Os.is_open f) eqn:E; cbn [andb];
    [destruct (0 <=? off)|]; repeat split; auto.
Qed.

Section Readers.
Context {R : Type} `{IoReader R}.
Variable file_of : R -> Os.File.
Hypothesis Read_same : forall n rdr, same_file (file_of rdr) (file_of (io_Read n rdr).2).

Lemma ReadFull_loop_same : forall fuel need acc rdr,
  same_file (file_of rdr) (file_of (ReadFull_loop fuel need acc rdr).2).
Proof.
  induction fuel as [|fuel IH]; intros need acc rdr.
  - destruct need; apply same_file_refl.
  - destruct need as [|need]; [apply same_file_refl|].
    cbn [ReadFull_loop]. pose proof (Read_same (S need) rdr) as Hs.
    destruct (io_Read (S need) rdr) as [bs rdr'].
    destruct bs; [exact Hs|].
    eapply same_file_trans; [exact Hs|apply IH].
Qed.

Lemma binary_Read_same old rdr :
  same_file (file_of rdr) (file_of (binary_Read old rdr).2).
Proof.
  unfold binary_Read, ReadFull.
  pose proof (ReadFull_loop_same 4 4 [] rdr) as Hs.
  now destruct (ReadFull_loop 4 4 [] rdr).
Qed.

Lemma readArray_same : forall array rdr,
  same_file (file_of rdr) (file_of (readArray array rdr).2).
Proof.
  induction array as [|x array IH]; intros rdr; [apply same_file_refl|].
  cbn [readArray]. pose proof (binary_Read_same x rdr) as Hs.
  destruct (binary_Read x rdr) as [x' rdr1].
  pose proof (IH rdr1) as Hs'. destruct (readArray array rdr1) as [rest rdr2].
  eapply same_file_trans; eassumption.
Qed.

End Readers.

Lemma file_Read_same n (f : Os.File) : same_file f (io_Read n f).2.
Proof. apply Os_Read_same. Qed.

Lemma Bufio_Read_same n b : same_file (Bufio.rd b) (Bufio.rd (io_Read n b).2).
Proof.
  unfold io_Read, Bufio_reader, Bufio.Read.
  destruct (n =? 0)%nat; [apply same_file_refl|].
  destruct (Bufio.Buffered b =? 0)%nat; [|apply same_file_refl].
  destruct (Bufio.size b <=? n)%nat.
  - pose proof (Os_Read_same n (Bufio.rd b)) as Hs.
    now destruct (Os.Read n (Bufio.rd b)).
  - pose proof (Os_Read_same (Bufio.size b) (Bufio.rd b)) as Hs.
    now destruct (Os.Read (Bufio.size b) (Bufio.rd b)).
Qed.

Lemma Bufio_ReadByte_same b : same_file (Bufio.rd b) (Bufio.rd (Bufio.ReadByte b).2).
Proof.
  unfold Bufio.ReadByte. destruct (Bufio.Buffered b =? 0)%nat.
  - pose proof (Os_Read_same (Bufio.size b) (Bufio.rd b)) as Hs.
    destruct (Os.Read (Bufio.size b) (Bufio.rd b)) as [bs f]. now destruct bs.
  - destruct (Bufio.buffer b); apply same_file_refl.
Qed.

Lemma Bufio_ReadString_loop_same delim : forall fuel acc b,
  same_file (Bufio.rd b) (Bufio.rd (Bufio.ReadString_loop fuel delim acc b).2).
Proof.
  induction fuel as [|fuel IH]; intros acc b; [apply same_file_refl|].
  cbn [Bufio.ReadString_loop].
  destruct (Bufio.find_byte delim (Bufio.buffer b)); [apply same_file_refl|].
  destruct (Bufio.size b <=? Bufio.Buffered b)%nat; [apply (IH _ (Bufio.mkReader _ _ _))|].
  pose proof (Os_Read_same (Bufio.size b - Bufio.Buffered b) (Bufio.rd b)) as Hs.
  destruct (Os.Read (Bufio.size b - Bufio.Buffered b) (Bufio.rd b)) as [bs f].
  destruct bs; [exact Hs|].
  eapply same_file_trans; [exact Hs|]. apply (IH _ (Bufio.mkReader _ _ _)).
Qed.

Lemma Bufio_ReadString_same delim b :
  same_file (Bufio.rd b) (Bufio.rd (Bufio.ReadString delim b).2).
Proof. apply Bufio_ReadString_loop_same. Qed.

(** The dump that [Read] returns reads from the handle that was opened. *)
Lemma Read_file_same (f : Os.File) (d : smcdump) :
  Read_file f = Done (Opened d) -> same_file f (file d).
Proof.
  unfold Read_file. intros Hread.
  pose proof (Bufio_Read_same 11 (Bufio.NewReaderSize f 1024)) as H1.
  unfold io_Read, Bufio_reader in H1.
  destruct (Bufio.Read 11 (Bufio.NewReaderSize f 1024)) as [bs b1].
  destruct (negb (bytes_Equal _ header)); [discriminate|].
  pose proof (Bufio_ReadByte_same b1) as H2.
  destruct (Bufio.ReadByte b1) as [version b2].
  destruct (negb (byte_or_zero version =? 0)); [discriminate|].
  pose proof (Bufio_ReadString_same x00 b2) as H3.
  destruct (Bufio.ReadString x00 b2) as [initialTerm b3].
  pose proof (Bufio_ReadString_same x00 b3) as H4.
  destruct (Bufio.ReadString x00 b3) as [ltlFormula b4].
  destruct (drop_last initialTerm) as [it| |]; [|discriminate..].
  destruct (drop_last ltlFormula) as [lf| |]; [|discriminate..].
  cbn [mbind outcome_bind] in Hread.
  pose proof (Bufio_ReadByte_same b4) as H5.
  destruct (Bufio.ReadByte b4) as [flag b5].
  pose proof (binary_Read_same Bufio.rd Bufio_Read_same 0 b5) as H6.
  destruct (binary_Read 0 b5) as [numberOfStates b6].
  cbn [snd] in *.
  assert (Hb6 : same_file f (Bufio.rd b6)).
  { repeat (eapply same_file_trans; [eassumption|]). apply same_file_refl. }
  clear H1 H2 H3 H4 H5 H6.
  match type of Hread with
  | mbind _ ?m = _ => destruct m as [[[pth cyc] b7]| |] eqn:Hcex; [|discriminate..]
  end.
  assert (Hb7 : same_file f (Bufio.rd b7)).
  { destruct (negb (byte_or_zero flag =? 0)).
    - pose proof (binary_Read_same Bufio.rd Bufio_Read_same 0 b6) as H7.
      destruct (binary_Read 0 b6) as [listSize r7].
      destruct (make 0 listSize) as [p0| |]; [|discriminate..].
      cbn [mbind outcome_bind] in Hcex.
      pose proof (readArray_same Bufio.rd Bufio_Read_same p0 r7) as H8.
      destruct (readArray p0 r7) as [p1 r8].
      pose proof (binary_Read_same Bufio.rd Bufio_Read_same listSize r8) as H9.
      destruct (binary_Read listSize r8) as [listSize' r9].
      destruct (make 0 listSize') as [c0| |]; [|discriminate..].
      cbn [mbind outcome_bind] in Hcex.
      pose proof (readArray_same Bufio.rd Bufio_Read_same c0 r9) as H10.
      destruct (readArray c0 r9) as [c1 r10].
      cbn [snd] in *. injection Hcex as _ _ <-.
      repeat (eapply same_file_trans; [eassumption|]). apply same_file_refl.
    - injection Hcex as _ _ <-. exact Hb6. }
  cbn [mbind outcome_bind] in Hread.
  destruct (make 0 numberOfStates) as [s0| |]; [|discriminate..].
  cbn [mbind outcome_bind] in Hread.
  pose proof (readArray_same Bufio.rd Bufio_Read_same s0 b7) as H11.
  destruct (readArray s0 b7) as [s1 b8].
  pose proof (binary_Read_same Bufio.rd Bufio_Read_same 0 b8) as H12.
  destruct (binary_Read 0 b8) as [stringsTableOffset b9].
  pose proof (Os_Seek_same stringsTableOffset (Bufio.rd b9)) as H13.
  set (f10 := Os.Seek stringsTableOffset (Bufio.rd b9)) in *.
  pose proof (binary_Read_same (fun f : Os.File => f) file_Read_same 0 f10) as H14.
  destruct (binary_Read 0 f10) as [stringsTableSize f11].
  destruct (make 0 (int32 (stringsTableSize + 1))) as [i0| |]; [|discriminate..].
  cbn [mbind outcome_bind] in Hread.
  pose proof (readArray_same (fun f : Os.File => f) file_Read_same i0 f11) as H15.
  destruct (readArray i0 f11) as [i1 f12].
  cbn [snd] in *. injection Hread as <-. cbn [file].
  repeat (eapply same_file_trans; [eassumption|]). apply same_file_refl.
Qed.

(** The comparison of the first bytes with the signature. *)
Lemma mark_check (bs : list byte) :
  bytes_Equal (overwrite (replicate 11 x00) (take 11 bs)) header
  = bool_decide (take 11 bs = header).
Proof.
  unfold bytes_Equal, overwrite.
  destruct (Nat.le_gt_cases 11 (length bs)) as [Hlen|Hlen].
  - rewrite length_replicate, take_take, Nat.min_id.
    rewrite length_take, Nat.min_l by lia.
    change (drop 11 (replicate 11 x00)) with (@nil byte).
    now rewrite app_nil_r.
  - rewrite (take_ge bs) by lia. rewrite length_replicate.
    rewrite !bool_decide_false; [reflexivity| |].
    + intros Heq. apply (f_equal length) in Heq.
      change (length header) with 11%nat in Heq. lia.
    + do 11 (destruct bs as [|? bs]; [cbn; intros Heq; inversion Heq|]).
      simpl in Hlen. lia.
Qed.

Lemma mark_length (bs : list byte) : take 11 bs = header -> (11 <= length bs)%nat.
Proof.
  intros Hmark. apply (f_equal length) in Hmark. rewrite length_take in Hmark.
  change (length header) with 11%nat in Hmark. lia.
Qed.

(** The two checks of [Read], on the bytes of the file. *)
Lemma Read_file_checks (f : Os.File) :
  Os.offset f = 0%nat -> Os.is_open f = true ->
  exists b2 tail,
    Read_file f
    = (if negb (bool_decide (take 11 (Os.content f) = header))
       then Done (Failed "bad format (no initial mark)")
       else if negb (byte_or_zero (Os.content f !! 11%nat) =? 0)
       then Done (Failed "bad format (bad version)")
       else tail)
    /\ (take 11 (Os.content f) = header ->
        bufio_at (Os.content f) b2 (drop 12 (Os.content f))
        /\ tail
           = let '(initialTerm, reader) := Bufio.ReadString x00 b2 in
             let '(ltlFormula, reader) := Bufio.ReadString x00 reader in
             initialTerm ← drop_last initialTerm;
             ltlFormula ← drop_last ltlFormula;
             let '(version, reader) := Bufio.ReadByte reader in
             let propertyHolds := byte_or_zero version =? 0 in
             let '(numberOfStates, reader) := binary_Read 0 reader in
             '(path, cycle, reader) ←
               (if negb propertyHolds then
                  let '(listSize, reader) := binary_Read 0 reader in
                  path ← make 0 listSize;
                  let '(path, reader) := readArray path reader in
                  let '(listSize, reader) := binary_Read listSize reader in
                  cycle ← make 0 listSize;
                  let '(cycle, reader) := readArray cycle reader in
                  mret (path, cycle, reader)
                else mret ([], [], reader));
             statesIndex ← make 0 numberOfStates;
             let '(statesIndex, reader) := readArray statesIndex reader in
             let '(stringsTableOffset, reader) := binary_Read 0 reader in
             let file := Os.Seek stringsTableOffset (Bufio.rd reader) in
             let '(stringsTableSize, file) := binary_Read 0 file in
             stringsIndex ← make 0 (int32 (stringsTableSize + 1));
             let '(stringsIndex, file) := readArray stringsIndex file in
             mret (Opened (mkDump path cycle
                             (string_of_list_byte initialTerm)
                             (string_of_list_byte ltlFormula)
                             statesIndex stringsIndex file))).
Proof.
  intros Hoff Hopen. destruct f as [fd bs off op]. cbn in Hoff, Hopen. subst.
  cbn [Os.content].
  unfold Read_file, Bufio.NewReaderSize, Bufio.Read, Bufio.Buffered.
  cbn [Bufio.rd Bufio.r Bufio.size Os.offset Nat.eqb Nat.sub].
  change (1024 <=? 11)%nat with false. cbn iota.
  unfold Os.Read. cbn [Os.is_open Os.offset Os.content Os.fd].
  change (drop 0 bs) with bs. cbn [Nat.add].
  rewrite take_take. change (Nat.min 11 1024) with 11%nat.
  rewrite mark_check.
  set (b1 := Bufio.mkReader _ _ _).
  destruct (Bufio.ReadByte b1) as [version b2] eqn:Hbyte.
  exists b2. eexists. split.
  - destruct (bool_decide (take 11 bs = header)) eqn:Hmark; cbn [negb];
      [|reflexivity].
    apply bool_decide_eq_true in Hmark.
    pose proof (mark_length bs Hmark) as Hlen.
    assert (Hat1 : bufio_at bs b1 (drop 11 bs)).
    { unfold bufio_at, b1. cbn [Bufio.rd Bufio.r Bufio.size Os.is_open Os.content Os.offset].
      rewrite !length_take. repeat split; auto; try lia.
      f_equal. lia. }
    assert (Hv : version = bs !! 11%nat).
    { destruct (bs !! 11%nat) as [c|] eqn:Hc.
      - assert (Hd : drop 11 bs = c :: drop 12 bs).
        { now rewrite (drop_S _ _ _ Hc). }
        rewrite Hd in Hat1.
        destruct (bufio_ReadByte_at bs b1 c _ Hat1) as (b' & Hr & _).
        congruence.
      - apply lookup_ge_None in Hc. assert (Hl : length bs = 11%nat) by lia.
        revert Hbyte. unfold Bufio.ReadByte, b1, Bufio.Buffered, Os.Read.
        cbn [Bufio.rd Bufio.r Bufio.size Os.is_open Os.content Os.offset].
        rewrite !length_take, Hl.
        change (Nat.min 1024 11 - Nat.min 11 11 =? 0)%nat with true. cbn iota.
        rewrite drop_ge by (rewrite Hl; cbn; lia). cbn [take]. congruence. }
    rewrite Hv. reflexivity.
  - intros Hmark.
    pose proof (mark_length bs Hmark) as Hlen.
    split; [|reflexivity].
    assert (Hat1 : bufio_at bs b1 (drop 11 bs)).
    { unfold bufio_at, b1. cbn [Bufio.rd Bufio.r Bufio.size Os.is_open Os.content Os.offset].
      rewrite !length_take. repeat split; auto; try lia.
      f_equal. lia. }
    destruct (bs !! 11%nat) as [c|] eqn:Hc.
    + assert (Hd : drop 11 bs = c :: drop 12 bs).
      { now rewrite (drop_S _ _ _ Hc). }
      rewrite Hd in Hat1.
      destruct (bufio_ReadByte_at bs b1 c _ Hat1) as (b' & Hr & Hat2).
      congruence.
    + apply lookup_ge_None in Hc. assert (Hl : length bs = 11%nat) by lia.
      revert Hbyte. unfold Bufio.ReadByte, b1, Bufio.Buffered, Os.Read.
      cbn [Bufio.rd Bufio.r Bufio.size Os.is_open Os.content Os.offset].
      rewrite !length_take, Hl.
      change (Nat.min 1024 11 - Nat.min 11 11 =? 0)%nat with true. cbn iota.
      rewrite (drop_ge bs) by (rewrite Hl; cbn; lia). cbn [take].
      intros [= _ <-].
      unfold bufio_at. cbn [Bufio.rd Bufio.r Bufio.size Os.is_open Os.content Os.offset].
      rewrite Hl, !drop_ge by lia. cbn.
      repeat split; auto; lia.
Qed.

Lemma tail_not_Failed (b2 : Bufio.Reader) (err : string) :
  (let '(initialTerm, reader) := Bufio.ReadString x00 b2 in
   let '(ltlFormula, reader) := Bufio.ReadString x00 reader in
   initialTerm ← drop_last initialTerm;
   ltlFormula ← drop_last ltlFormula;
   let '(version, reader) := Bufio.ReadByte reader in
   let propertyHolds := byte_or_zero version =? 0 in
   let '(numberOfStates, reader) := binary_Read 0 reader in
   '(path, cycle, reader) ←
     (if negb propertyHolds then
        let '(listSize, reader) := binary_Read 0 reader in
        path ← make 0 listSize;
        let '(path, reader) := readArray path reader in
        let '(listSize, reader) := binary_Read listSize reader in
        cycle ← make 0 listSize;
        let '(cycle, reader) := readArray cycle reader in
        mret (path, cycle, reader)
      else mret ([], [], reader));
   statesIndex ← make 0 numberOfStates;
   let '(statesIndex, reader) := readArray statesIndex reader in
   let '(stringsTableOffset, reader) := binary_Read 0 reader in
   let file := Os.Seek stringsTableOffset (Bufio.rd reader) in
   let '(stringsTableSize, file) := binary_Read 0 file in
   stringsIndex ← make 0 (int32 (stringsTableSize + 1));
   let '(stringsIndex, file) := readArray stringsIndex file in
   mret (Opened (mkDump path cycle
                   (string_of_list_byte initialTerm)
                   (string_of_list_byte ltlFormula)
                   statesIndex stringsIndex file)))
  <> Done (Failed err).
Proof.
  destruct (Bufio.ReadString x00 b2) as [initialTerm b3].
  destruct (Bufio.ReadString x00 b3) as [ltlFormula b4].
  destruct (drop_last initialTerm) as [it| |]; [|discriminate..].
  destruct (drop_last ltlFormula) as [lf| |]; [|discriminate..].
  cbn [mbind outcome_bind].
  destruct (Bufio.ReadByte b4) as [flag b5].
  destruct (binary_Read 0 b5) as [numberOfStates b6]. cbv zeta.
  match goal with
  | |- mbind _ ?m <> _ => destruct m as [[[pth cyc] b7]| |]; [|discriminate..]
  end.
  cbn [mbind outcome_bind].
  destruct (make 0 numberOfStates) as [s0| |]; [|discriminate..].
  cbn [mbind outcome_bind].
  destruct (readArray s0 b7) as [s1 b8].
  destruct (binary_Read 0 b8) as [stringsTableOffset b9].
  destruct (binary_Read 0 (Os.Seek stringsTableOffset (Bufio.rd b9)))
    as [stringsTableSize f11].
  destruct (make 0 (int32 (stringsTableSize + 1))) as [i0| |]; [|discriminate..].
  cbn [mbind outcome_bind].
  destruct (readArray i0 f11) as [i1 f12]. discriminate.
Qed.

(** [X3] [Read] reports an error for an existing file in
    two cases only: the file does not start with the signature, or the
    byte after the signature (the version) is not zero. A file that is
    cut short anywhere after the signature is not reported as an
    error. *)
Theorem Read_rejects_iff (fpath : string) (os : Os.t) (bs : list byte) :
  Os.disk os !! fpath = Some bs ->
  (fst (Read fpath os) = Done (Failed "bad format (no initial mark)")
   <-> take 11 bs <> header)
  /\ (fst (Read fpath os) = Done (Failed "bad format (bad version)")
      <-> take 11 bs = header /\ exists v, bs !! 11%nat = Some v /\ v <> x00)
  /\ ((exists err, fst (Read fpath os) = Done (Failed err))
      <-> take 11 bs <> header
          \/ exists v, bs !! 11%nat = Some v /\ v <> x00).
Proof.
  intros Hd. rewrite (DumpClaims.Read_opens _ _ _ Hd). cbn [fst].
  destruct (Read_file_checks (Os.mkFile (Os.next_fd os) bs 0 true))
    as (b2 & tail & Hread & Htail); [reflexivity..|].
  cbn [Os.content] in *. rewrite Hread. clear Hread.
  assert (Hv : forall o : option byte,
    negb (byte_or_zero o =? 0) = true <-> exists v, o = Some v /\ v <> x00).
  { intros [v|]; cbn [byte_or_zero].
    - split.
      + intros Hne. exists v. split; [reflexivity|]. intros ->. discriminate.
      + intros (v' & [= <-] & Hne). destruct v; try reflexivity. now destruct Hne.
    - split; [discriminate|]. now intros (v & ? & _). }
  destruct (decide (take 11 bs = header)) as [Hmark|Hmark].
  - rewrite bool_decide_true by assumption. cbn [negb].
    destruct (Htail Hmark) as [_ ->].
    destruct (negb (byte_or_zero (bs !! 11%nat) =? 0)) eqn:Hver.
    + apply Hv in Hver. split; [|split].
      * split; [discriminate|tauto].
      * split; [auto|reflexivity].
      * split; [auto|eauto].
    + assert (Hno : ~ exists v, bs !! 11%nat = Some v /\ v <> x00).
      { intros Hex. apply Hv in Hex. congruence. }
      split; [|split].
      * split; [intros Hf; now apply tail_not_Failed in Hf|tauto].
      * split; [intros Hf; now apply tail_not_Failed in Hf|tauto].
      * split; [intros [err Hf]; now apply tail_not_Failed in Hf|tauto].
  - rewrite bool_decide_false by assumption. cbn [negb].
    split; [|split].
    * split; [auto|reflexivity].
    * split; [discriminate|tauto].
    * split; [auto|eauto].
Qed.

Lemma Read_rejects_iff_witness :
  (fst (Read "notes.txt" (disk_of "notes.txt" no_mark))
   = Done (Failed "bad format (no initial mark)")
   <-> take 11 no_mark <> header)
  /\ (fst (Read "notes.txt" (disk_of "notes.txt" no_mark))
      = Done (Failed "bad format (bad version)")
      <-> take 11 no_mark = header
          /\ exists v, no_mark !! 11%nat = Some v /\ v <> x00)
  /\ ((exists err, fst (Read "notes.txt" (disk_of "notes.txt" no_mark))
                   = Done (Failed err))
      <-> take 11 no_mark <> header
          \/ exists v, no_mark !! 11%nat = Some v /\ v <> x00).
Proof.
  apply (Read_rejects_iff "notes.txt" (disk_of "notes.txt" no_mark) no_mark).
  reflexivity.
Defined.

Lemma find_byte_absent (delim : byte) (bs : list byte) :
  delim ∉ bs -> Bufio.find_byte delim bs = None.
Proof.
  induction bs as [|c bs IH]; intros Hno; [reflexivity|].
  apply not_elem_of_cons in Hno as [Hc Hno]. cbn [Bufio.find_byte].
  rewrite bool_decide_false by auto. now rewrite IH.
Qed.

(** [ReadString] on a reader with no delimiter left: the rest of the
    file is returned and the reader stands at the end. *)
Lemma ReadString_loop_eof content (delim : byte) : forall fuel acc b rest,
  bufio_at content b rest -> delim ∉ rest ->
  (2 * (length content - Os.offset (Bufio.rd b))
   + (if Bufio.size b <=? Bufio.Buffered b then 1 else 0) < fuel)%nat ->
  exists b', Bufio.ReadString_loop fuel delim acc b = (acc ++ rest, b')
             /\ bufio_at content b' [].
Proof.
  induction fuel as [|fuel IH]; intros acc b rest Hat Hno Hfuel; [lia|].
  pose proof Hat as (Hopen & Hc & Hr & Hsz & Hd).
  assert (Hrest : length rest = (length content - Bufio.r b)%nat).
  { rewrite <- Hd. apply length_drop. }
  cbn [Bufio.ReadString_loop].
  rewrite (bufio_buffer content b _ Hat).
  rewrite find_byte_absent
    by (intros Hin; apply Hno; now apply (subseteq_take (Bufio.Buffered b) rest)).
  destruct (Nat.leb_spec (Bufio.size b) (Bufio.Buffered b)) as [Hfull|Hroom].
  - unfold Bufio.Buffered in *.
    set (m := (Os.offset (Bufio.rd b) - Bufio.r b)%nat) in *.
    destruct (IH (acc ++ take m rest)
                (Bufio.mkReader (Bufio.rd b) (Os.offset (Bufio.rd b)) (Bufio.size b))
                (drop m rest)) as (b' & Hloop & Hat').
    + unfold bufio_at. cbn [Bufio.rd Bufio.r Bufio.size].
      split; [assumption|]. split; [assumption|]. split; [lia|].
      split; [assumption|].
      replace (Os.offset (Bufio.rd b)) with (Bufio.r b + m)%nat by lia.
      now rewrite <- drop_drop, Hd.
    + intros Hin. apply Hno. now apply (subseteq_drop m rest).
    + unfold Bufio.Buffered. cbn [Bufio.rd Bufio.r Bufio.size].
      rewrite Nat.sub_diag.
      destruct (Nat.leb_spec (Bufio.size b) 0); lia.
    + exists b'. split; [|assumption]. rewrite Hloop.
      now rewrite <- app_assoc, take_drop.
  - unfold Os.Read. rewrite Hopen, Hc.
    destruct (take (Bufio.size b - Bufio.Buffered b)
                (drop (Os.offset (Bufio.rd b)) content)) as [|c bs] eqn:Hread.
    + (* the end of the file *)
      assert (Hend : Os.offset (Bufio.rd b) = length content).
      { apply (f_equal length) in Hread.
        rewrite length_take, length_drop in Hread. cbn in Hread. lia. }
      eexists. split.
      * f_equal. f_equal. apply take_ge. unfold Bufio.Buffered. lia.
      * unfold bufio_at.
        cbn [Bufio.rd Bufio.r Bufio.size Os.is_open Os.content Os.offset length].
        rewrite Nat.add_0_r, Hend, drop_all. repeat split; auto.
    + set (f := Os.mkFile _ _ _ _).
      assert (Hoff : (Os.offset (Bufio.rd b) < Os.offset f <= length content)%nat).
      { unfold f. cbn [Os.offset].
        assert (Hl : (0 < length (c :: bs) <= length content - Os.offset (Bufio.rd b))%nat).
        { rewrite <- Hread, length_take, length_drop. split; [|lia].
          rewrite <- length_drop, <- length_take, Hread. cbn. lia. }
        lia. }
      destruct (IH acc (Bufio.mkReader f (Bufio.r b) (Bufio.size b)) rest)
        as (b' & Hloop & Hat'); [| assumption | |].
      * unfold bufio_at. cbn [Bufio.rd Bufio.r Bufio.size].
        unfold f at 1 2. cbn [Os.is_open Os.content].
        repeat split; auto; lia.
      * unfold Bufio.Buffered in *. cbn [Bufio.rd Bufio.r Bufio.size].
        destruct (Nat.leb_spec (Bufio.size b) (Os.offset f - Bufio.r b));
          destruct (Nat.leb_spec (Bufio.size b)
                      (Os.offset (Bufio.rd b) - Bufio.r b)); lia.
      * exists b'. split; [|assumption]. exact Hloop.
Qed.

Lemma bufio_ReadString_eof content (delim : byte) b rest :
  bufio_at content b rest -> delim ∉ rest ->
  exists b', Bufio.ReadString delim b = (rest, b') /\ bufio_at content b' [].
Proof.
  intros Hat Hno. pose proof Hat as (Hopen & Hc & Hr & Hsz & Hd).
  unfold Bufio.ReadString.
  destruct (ReadString_loop_eof content delim
              (2 * length (Os.content (Bufio.rd b)) + 2) [] b rest Hat Hno)
    as (b' & Hloop & Hat').
  - rewrite Hc. destruct (Bufio.size b <=? Bufio.Buffered b)%nat; lia.
  - exists b'. now rewrite Hloop.
Qed.

(** [X4] A file that has the signature and the version
    byte and ends before the terminator of the initial term, or right
    after it, makes [Read] panic: the empty string that comes back from
    the reader is sliced to one byte less. *)
Theorem Read_panics_on_truncated (fpath : string) (os : Os.t) (rest : list byte) :
  Os.disk os !! fpath = Some (header ++ x00 :: rest) ->
  x00 ∉ rest \/ (exists term, rest = term ++ [x00] /\ x00 ∉ term) ->
  fst (Read fpath os) = Panics.
Proof.
  intros Hd Hrest. rewrite (DumpClaims.Read_opens _ _ _ Hd). cbn [fst].
  destruct (Read_file_checks (Os.mkFile (Os.next_fd os) (header ++ x00 :: rest) 0 true))
    as (b2 & tail & Hread & Htail); [reflexivity..|].
  cbn [Os.content] in *. rewrite Hread. clear Hread.
  assert (Hmark : take 11 (header ++ x00 :: rest) = header)
    by (apply (take_app_length header)).
  rewrite bool_decide_true by assumption. cbn [negb].
  change ((header ++ x00 :: rest) !! 11%nat) with (Some x00).
  change (negb (byte_or_zero (Some x00) =? 0)) with false. cbn iota.
  destruct (Htail Hmark) as [Hat ->].
  change (drop 12 (header ++ x00 :: rest)) with rest in Hat.
  destruct Hrest as [Hno|(term & -> & Hno)].
  - destruct (bufio_ReadString_eof _ x00 b2 rest Hat Hno) as (b3 & -> & Hat3).
    destruct (bufio_ReadString_eof _ x00 b3 [] Hat3) as (b4 & -> & _);
      [apply not_elem_of_nil|].
    unfold drop_last at 1. destruct rest; reflexivity.
  - change (term ++ [x00]) with (term ++ x00 :: []) in Hat.
    destruct (bufio_ReadString_at _ x00 b2 term [] Hat Hno) as (b3 & -> & Hat3).
    destruct (bufio_ReadString_eof _ x00 b3 [] Hat3) as (b4 & -> & _);
      [apply not_elem_of_nil|].
    rewrite drop_last_snoc. reflexivity.
Qed.

Lemma Read_panics_on_truncated_witness :
  fst (Read "cut.dump" (disk_of "cut.dump" (header ++ [x00]))) = Panics.
Proof.
  apply (Read_panics_on_truncated "cut.dump"
           (disk_of "cut.dump" (header ++ [x00])) []).
  - reflexivity.
  - left. apply not_elem_of_nil.
Defined.

(** [X5] [Close] on the dump that [Read] returned closes the
    descriptor that [Read] opened: the descriptors of the process are
    those from before the [Read]. *)
Theorem Close_releases_the_file (fpath : string) (os : Os.t) (d : smcdump) :
  Os.next_fd os ∉ Os.open_fds os ->
  fst (Read fpath os) = Done (Opened d) ->
  Os.open_fds (snd (Read fpath os)) = {[Os.next_fd os]} ∪ Os.open_fds os
  /\ Os.open_fds (snd (Close d (snd (Read fpath os)))) = Os.open_fds os
  /\ Os.is_open (file (fst (Close d (snd (Read fpath os))))) = false.
Proof.
  intros Hfresh Hread.
  destruct (Os.disk os !! fpath) as [bs|] eqn:Hd.
  - rewrite (DumpClaims.Read_opens _ _ _ Hd) in *. cbn [fst snd] in *.
    apply Read_file_same in Hread as (Hfd & _ & _). cbn [Os.fd] in Hfd.
    unfold Close, Os.Close. cbn [fst snd Os.open_fds file set_file Os.is_open].
    rewrite Hfd. split; [reflexivity|]. split; [|reflexivity].
    apply set_eq. intros x.
    rewrite elem_of_difference, elem_of_union, elem_of_singleton.
    split; [intros [[->|Hx] Hne]; [contradiction|exact Hx]|].
    intros Hx. split; [now right|]. intros ->. contradiction.
  - unfold Read, Os.Open in Hread. rewrite Hd in Hread. discriminate.
Qed.

Lemma Close_releases_the_file_witness :
  Os.open_fds (snd (Read "trace.dump" (disk_of "trace.dump" (encode two_rules))))
  = {[Os.next_fd (disk_of "trace.dump" (encode two_rules))]}
    ∪ Os.open_fds (disk_of "trace.dump" (encode two_rules))
  /\ Os.open_fds (snd (Close two_rules_dump
                         (snd (Read "trace.dump"
                                 (disk_of "trace.dump" (encode two_rules))))))
     = Os.open_fds (disk_of "trace.dump" (encode two_rules))
  /\ Os.is_open (file (fst (Close two_rules_dump
                              (snd (Read "trace.dump"
                                      (disk_of "trace.dump" (encode two_rules)))))))
     = false.
Proof.
  apply (Close_releases_the_file "trace.dump"
           (disk_of "trace.dump" (encode two_rules)) two_rules_dump).
  - apply not_elem_of_empty.
  - vm_compute. reflexivity.
Defined.

Lemma length_string_of_list_byte (bs : list byte) :
  String.length (string_of_list_byte bs) = length bs.
Proof.
  induction bs as [|b bs IH]; [reflexivity|].
  change (string_of_list_byte (b :: bs))
    with (String (ascii_of_byte b) (string_of_list_byte bs)).
  cbn [String.length]. now rewrite IH.
Qed.

Lemma length_overwrite {A} (dst src : list A) :
  length (overwrite dst src) = length dst.
Proof. unfold overwrite. rewrite length_app, length_take, length_drop. lia. Qed.

Lemma ReadFull_closed (f : Os.File) (n : nat) :
  Os.is_open f = false -> (0 < n)%nat -> ReadFull n f = (None, f).
Proof.
  intros Hc Hn. unfold ReadFull. destruct n as [|n]; [lia|].
  cbn [ReadFull_loop]. unfold io_Read, File_reader, Os.Read. now rewrite Hc.
Qed.

Lemma binary_Read_closed (f : Os.File) (old : Z) :
  Os.is_open f = false -> binary_Read old f = (old, f).
Proof. intros Hc. unfold binary_Read. rewrite ReadFull_closed by (auto; lia). reflexivity. Qed.

(** [X6] A dump that has been closed still answers, with
    zero values and no error: for every string number for which
    [GetString] returned a string it now returns a string of the same
    length made of zero bytes, and [State] returns, for every state
    number of the dump, a state with no successors, that is no solution,
    with term and strategy 0. *)
Theorem reads_after_Close_are_zero (d : smcdump) (os : Os.t) :
  (forall m s, GetString m d = Done s ->
     GetString m (fst (Close d os))
     = Done (string_of_list_byte (replicate (String.length s) x00)))
  /\ (forall n, 0 <= n < NumberOfStates d ->
        GetState n (fst (Close d os))
        = Done (mkState [] false 0 0, fst (Close d os))).
Proof.
  unfold Close, Os.Close. cbn [fst].
  set (f := Os.mkFile _ _ _ false). split.
  - intros m s Hs. revert Hs. unfold GetString. cbn [stringsIndex set_file file].
    destruct (index (stringsIndex d) (int32 (m + 1))) as [hi| |]; [|discriminate..].
    cbn [mbind outcome_bind].
    destruct (index (stringsIndex d) m) as [lo| |]; [|discriminate..].
    cbn [mbind outcome_bind]. unfold make.
    destruct (int32 (hi - lo) <? 0); [discriminate|].
    cbn [mbind outcome_bind mret outcome_ret].
    intros [= <-]. f_equal. f_equal.
    rewrite length_string_of_list_byte.
    unfold Os.ReadAt, f. cbn [Os.is_open andb].
    rewrite length_overwrite, !length_replicate.
    unfold overwrite. now rewrite take_nil.
  - intros n Hn. unfold GetState, NumberOfStates in *.
    cbn [statesIndex set_file file].
    destruct (lookup_lt_is_Some_2 (statesIndex d) (Z.to_nat n)) as [off Hoff]; [lia|].
    unfold index. destruct (Z.ltb_spec n 0); [lia|]. rewrite Hoff.
    cbn [mbind outcome_bind].
    assert (Hseek : Os.Seek off f = f) by reflexivity.
    rewrite Hseek.
    rewrite !(binary_Read_closed f) by reflexivity.
    unfold read_tmp, Os.Read. cbn [Os.is_open f].
    change (Os.is_open f) with false. cbn iota.
    rewrite !(binary_Read_closed f) by reflexivity.
    reflexivity.
Qed.

Lemma reads_after_Close_are_zero_witness :
  GetString 3 (fst (Close two_rules_dump (disk_of "trace.dump" (encode two_rules))))
  = Done (string_of_list_byte
            (replicate (String.length "r2") x00))
  /\ GetState 1 (fst (Close two_rules_dump (disk_of "trace.dump" (encode two_rules))))
     = Done (mkState [] false 0 0,
             fst (Close two_rules_dump (disk_of "trace.dump" (encode two_rules)))).
Proof.
  destruct (reads_after_Close_are_zero two_rules_dump
              (disk_of "trace.dump" (encode two_rules))) as [Hstring Hstate].
  split.
  - apply (Hstring 3). vm_compute. reflexivity.
  - apply (Hstate 1). vm_compute. split; [discriminate|reflexivity].
Defined.

(** [X7] Outside the tables of the dump the accessors
    panic: [State] for a number that is negative or not below the
    number of states, [GetString] for a number that is negative or whose
    successor is not an entry of the string table (the last entry of the
    table marks the end of the last string). *)
Theorem accessors_panic_out_of_range (d : smcdump) (n m : Z) :
  Int32.in_range n -> Int32.in_range m ->
  n < 0 \/ NumberOfStates d <= n ->
  m < 0 \/ Z.of_nat (length (stringsIndex d)) <= m + 1 ->
  GetState n d = Panics /\ GetString m d = Panics.
Proof.
  intros Hn Hm Hout Hout'. split.
  - unfold GetState, index, NumberOfStates in *.
    destruct (Z.ltb_spec n 0); [reflexivity|].
    rewrite (lookup_ge_None_2 (statesIndex d)) by lia. reflexivity.
  - unfold GetString, index.
    destruct (Z.ltb_spec (int32 (m + 1)) 0) as [|Hpos]; [reflexivity|].
    assert (Hnext : int32 (m + 1) = m + 1 \/ m + 1 = 2 ^ 31).
    { unfold Int32.in_range, Int32.min_int, Int32.max_int in Hm.
      destruct (Z.eq_dec (m + 1) (2 ^ 31)); [now right|left].
      apply Int32Facts.int32_in_range.
      unfold Int32.in_range, Int32.min_int, Int32.max_int. lia. }
    destruct Hnext as [Heq|Heq].
    + rewrite Heq in *. destruct Hout' as [Hneg|Hlen].
      * assert (m = -1) as -> by lia. cbn [Z.add].
        destruct (stringsIndex d !! Z.to_nat (-1 + 1)); reflexivity.
      * rewrite (lookup_ge_None_2 (stringsIndex d) (Z.to_nat (m + 1))) by lia.
        reflexivity.
    + rewrite Heq in Hpos. vm_compute in Hpos. now destruct Hpos.
Qed.

Lemma accessors_panic_out_of_range_witness :
  GetState 2 two_rules_dump = Panics /\ GetString 6 two_rules_dump = Panics.
Proof.
  apply (accessors_panic_out_of_range two_rules_dump 2 6).
  - vm_compute. split; discriminate.
  - vm_compute. split; discriminate.
  - right. vm_compute. discriminate.
  - right. vm_compute. discriminate.
Defined.

Lemma HasSignature_long (fpath : string) (hb : list byte) (os : Os.t) (bs : list byte) :
  length hb = 11%nat -> Os.disk os !! fpath = Some bs -> (11 <= length bs)%nat ->
  (HasSignature fpath hb os).1
  = (bool_decide (take 11 bs = header), take 11 bs).
Proof.
  intros Hhb Hd Hlen. unfold HasSignature, Os.Open. rewrite Hd.
  unfold Os.Read. cbn [Os.is_open Os.offset Os.content Os.Close fst snd].
  change (drop 0 bs) with bs. rewrite Hhb.
  unfold overwrite, bytes_Equal. rewrite Hhb, take_take, Nat.min_id.
  rewrite length_take, Nat.min_l by lia.
  rewrite (drop_ge hb) by lia. now rewrite app_nil_r.
Qed.

(** [X8] For a file of at least eleven bytes
    [HasSignature] tells whether the file starts with the signature,
    whatever file was examined before, and leaves the first eleven
    bytes of the file in its buffer. *)
Theorem HasSignature_of_long_file (fpath : string) (hb : list byte) (os : Os.t)
    (bs : list byte) :
  length hb = 11%nat -> Os.disk os !! fpath = Some bs -> (11 <= length bs)%nat ->
  (HasSignature fpath hb os).1.1 = bool_decide (take 11 bs = header)
  /\ (HasSignature fpath hb os).1.2 = take 11 bs.
Proof.
  intros Hhb Hd Hlen. now rewrite (HasSignature_long _ _ _ _ Hhb Hd Hlen).
Qed.

Lemma HasSignature_of_long_file_witness :
  (HasSignature "trace.dump" headerBuffer_init two_files).1.1
  = bool_decide (take 11 (encode two_rules) = header)
  /\ (HasSignature "trace.dump" headerBuffer_init two_files).1.2
     = take 11 (encode two_rules).
Proof.
  apply (HasSignature_of_long_file "trace.dump" headerBuffer_init two_files
           (encode two_rules)); [reflexivity|reflexivity|vm_compute; lia].
Defined.

(** [X9] [HasSignature] closes the file that it opens:
    when it returns, the descriptors of the process are those from
    before the call, and the files are untouched. *)
Theorem HasSignature_closes_its_file (fpath : string) (hb : list byte) (os : Os.t) :
  Os.next_fd os ∉ Os.open_fds os ->
  Os.open_fds (HasSignature fpath hb os).2 = Os.open_fds os
  /\ Os.disk (HasSignature fpath hb os).2 = Os.disk os.
Proof.
  intros Hfresh. unfold HasSignature, Os.Open.
  destruct (Os.disk os !! fpath) as [bs|]; [|now split].
  unfold Os.Read, Os.Close. cbn [Os.is_open Os.fd fst snd Os.open_fds Os.disk].
  split; [|reflexivity].
  apply set_eq. intros x.
  rewrite elem_of_difference, elem_of_union, elem_of_singleton.
  split; [intros [[->|Hx] Hne]; [contradiction|exact Hx]|].
  intros Hx. split; [now right|]. intros ->. contradiction.
Qed.

Lemma HasSignature_closes_its_file_witness :
  Os.open_fds (HasSignature "trace.dump" headerBuffer_init two_files).2
  = Os.open_fds two_files
  /\ Os.disk (HasSignature "trace.dump" headerBuffer_init two_files).2
     = Os.disk two_files.
Proof.
  apply (HasSignature_closes_its_file "trace.dump" headerBuffer_init two_files).
  apply not_elem_of_empty.
Defined.

(** [X10] A file that [Read] accepts has the
    signature for [HasSignature], whatever file was examined before. *)
Theorem Read_implies_HasSignature (fpath : string) (os : Os.t) (d : smcdump)
    (hb : list byte) :
  length hb = 11%nat ->
  fst (Read fpath os) = Done (Opened d) ->
  (HasSignature fpath hb os).1.1 = true.
Proof.
  intros Hhb Hread.
  destruct (Os.disk os !! fpath) as [bs|] eqn:Hd.
  - rewrite (DumpClaims.Read_opens _ _ _ Hd) in Hread. cbn [fst] in Hread.
    destruct (Read_file_checks (Os.mkFile (Os.next_fd os) bs 0 true))
      as (b2 & tail & Hchk & _); [reflexivity..|].
    rewrite Hchk in Hread. cbn [Os.content] in Hread.
    destruct (decide (take 11 bs = header)) as [Hmark|Hmark].
    + rewrite (HasSignature_long _ _ _ _ Hhb Hd (mark_length bs Hmark)).
      cbn [fst]. now apply bool_decide_eq_true.
    + rewrite bool_decide_false in Hread by assumption. discriminate.
  - unfold Read, Os.Open in Hread. rewrite Hd in Hread. discriminate.
Qed.

Lemma Read_implies_HasSignature_witness :
  (HasSignature "trace.dump" headerBuffer_init
     (disk_of "trace.dump" (encode two_rules))).1.1 = true.
Proof.
  apply (Read_implies_HasSignature "trace.dump"
           (disk_of "trace.dump" (encode two_rules)) two_rules_dump
           headerBuffer_init).
  - reflexivity.
  - vm_compute. reflexivity.
Defined.

End DumpExtras.

(** ** The session driver: what the operations return *)

Module DriverFacts.
Import Strings Regexp Maude Protocol MaudeExamples MaudeFacts Transcript.

Lemma prefix_append_cases : forall p l r,
  String.prefix p (l +:+ r) = true ->
  String.prefix p l = true \/ String.prefix l p = true.
Proof.
  induction p as [|a p IH]; intros l r Hp; [left; apply prefix_nil|].
  destruct l as [|b l]; [right; reflexivity|].
  rewrite append_cons in Hp. cbn [String.prefix] in *.
  destruct (ascii_dec a b) as [->|Hne]; [|discriminate].
  destruct (ascii_dec b b); [|contradiction]. eauto.
Qed.

Lemma prefix_all_chars (q : ascii -> bool) : forall l p,
  String.prefix l p = true -> all_chars q p = true -> all_chars q l = true.
Proof.
  induction l as [|a l IH]; intros p Hl Hp; [reflexivity|].
  destruct p as [|b p]; [discriminate|]. cbn [String.prefix] in Hl.
  destruct (ascii_dec a b) as [->|]; [|discriminate].
  cbn [all_chars] in *. apply andb_prop in Hp as [Hb Hp].
  now rewrite Hb, (IH p Hl Hp).
Qed.

Lemma is_line_cut (l rest : string) :
  is_line l ->
  cut_line (l +:+ rest) = Some (l, rest)
  /\ String.prefix maudePrompt (l +:+ rest) = false
  /\ (0 < String.length l)%nat.
Proof.
  intros (text & -> & Htext & Hpre). split; [|split].
  - rewrite append_assoc. now apply cut_line_append.
  - destruct (String.prefix maudePrompt ((text +:+ nl) +:+ rest)) eqn:Hp;
      [|reflexivity].
    apply prefix_append_cases in Hp as [Hp|Hp]; [congruence|].
    apply (prefix_all_chars (none_of nl)) in Hp; [|reflexivity].
    rewrite all_chars_append in Hp. apply andb_prop in Hp as [_ Hp].
    discriminate.
  - rewrite length_append. cbn. lia.
Qed.

Lemma answer_cons (l : string) (lines : list string) :
  answer (l :: lines) = l +:+ answer lines.
Proof. reflexivity. Qed.

Lemma length_answer : forall lines,
  Forall is_line lines -> (length lines < String.length (answer lines))%nat.
Proof.
  induction 1 as [|l lines Hl _ IH]; [cbn; lia|].
  rewrite answer_cons, length_append. cbn [length].
  destruct (is_line_cut l EmptyString Hl) as (_ & _ & Hpos). lia.
Qed.

Lemma response_answer : forall lines, Forall is_line lines -> response (answer lines).
Proof.
  induction 1 as [|l lines Hl _ IH]; [constructor|].
  rewrite answer_cons. destruct (is_line_cut l (answer lines) Hl) as (Hcut & Hpre & _).
  econstructor; eassumption.
Qed.

Section Loops.
Context `{Interpreter}.

Lemma promptReached_answer (c : Client) (lines : list string) :
  Forall is_line lines -> stdout c = answer lines ->
  promptReached c = Done (match lines with [] => true | _ => false end).
Proof.
  intros Hl Hc. rewrite promptReached_response
    by (rewrite Hc; now apply response_answer).
  rewrite Hc. destruct Hl as [|l lines Hl _]; [reflexivity|].
  rewrite answer_cons. now destruct (is_line_cut l (answer lines) Hl) as (_ & -> & _).
Qed.

(** A loop over the lines of an answer whose body asks for the next
    line every time: the body is folded over the lines, and the loop
    stops in front of the prompt. *)
Lemma for_lines_loop_fold {St} (body : string -> St -> outcome (flow St))
    (step : string -> St -> St) :
  forall lines, Forall is_line lines ->
  (forall l s, In l lines -> body l s = Done (Continue (step l s))) ->
  forall fuel s c, stdout c = answer lines -> (length lines < fuel)%nat ->
  for_lines_loop fuel body s c
  = Done (foldl (fun s l => step l s) s lines, false, set_stdout c maudePrompt).
Proof.
  induction 1 as [|l lines Hl Hls IH]; intros Hbody fuel s c Hc Hfuel.
  - destruct fuel as [|fuel]; [cbn in Hfuel; lia|]. cbn [for_lines_loop].
    rewrite (promptReached_answer c []) by (auto; constructor).
    cbn [mbind outcome_bind foldl]. do 2 f_equal.
    destruct c; cbn in *. now subst.
  - destruct fuel as [|fuel]; [cbn in Hfuel; lia|]. cbn [for_lines_loop].
    rewrite (promptReached_answer c (l :: lines)) by (auto; now constructor).
    cbn [mbind outcome_bind]. unfold ReadString. rewrite Hc, answer_cons.
    destruct (is_line_cut l (answer lines) Hl) as (-> & _ & _).
    cbn [mbind outcome_bind]. rewrite Hbody by (now left).
    cbn [mbind outcome_bind foldl].
    rewrite IH; [reflexivity| |reflexivity|cbn in Hfuel; lia].
    intros l' s' Hin. apply Hbody. now right.
Qed.

Lemma for_lines_fold {St} (body : string -> St -> outcome (flow St))
    (step : string -> St -> St) (lines : list string) (s : St) (c : Client) :
  Forall is_line lines ->
  (forall l s, In l lines -> body l s = Done (Continue (step l s))) ->
  stdout c = answer lines ->
  for_lines body s c
  = Done (foldl (fun s l => step l s) s lines, false, set_stdout c maudePrompt).
Proof.
  intros Hl Hbody Hc. unfold for_lines.
  apply for_lines_loop_fold; auto. rewrite Hc.
  pose proof (length_answer lines Hl). lia.
Qed.

(** The same for a body that leaves the loop at the line [l]. *)
Lemma for_lines_loop_break {St} (body : string -> St -> outcome (flow St))
    (step : string -> St -> St) (l : string) (post : list string) (s1 : St) :
  forall pre, Forall is_line (pre ++ l :: post) ->
  (forall l s, In l pre -> body l s = Done (Continue (step l s))) ->
  forall fuel s c, stdout c = answer (pre ++ l :: post) ->
  (length pre < fuel)%nat ->
  body l (foldl (fun s l => step l s) s pre) = Done (Break s1) ->
  for_lines_loop fuel body s c = Done (s1, true, set_stdout c (answer post)).
Proof.
  induction pre as [|l0 pre IH]; intros Hl Hbody fuel s c Hc Hfuel Hbreak.
  - cbn [app] in *. inversion Hl as [|? ? Hl0 Hpost]; subst.
    destruct fuel as [|fuel]; [cbn in Hfuel; lia|]. cbn [for_lines_loop].
    rewrite (promptReached_answer c (l :: post)) by (auto; now constructor).
    cbn [mbind outcome_bind]. unfold ReadString. rewrite Hc, answer_cons.
    destruct (is_line_cut l (answer post) Hl0) as (-> & _ & _).
    cbn [mbind outcome_bind foldl] in *. rewrite Hbreak. reflexivity.
  - cbn [app] in *. inversion Hl as [|? ? Hl0 Hrest]; subst.
    destruct fuel as [|fuel]; [cbn in Hfuel; lia|]. cbn [for_lines_loop].
    rewrite (promptReached_answer c (l0 :: pre ++ l :: post)) by (auto; now constructor).
    cbn [mbind outcome_bind]. unfold ReadString. rewrite Hc, answer_cons.
    destruct (is_line_cut l0 (answer (pre ++ l :: post)) Hl0) as (-> & _ & _).
    cbn [mbind outcome_bind]. rewrite Hbody by (now left).
    cbn [mbind outcome_bind foldl] in *.
    rewrite (IH Hrest); [reflexivity| |reflexivity|cbn in Hfuel; lia|exact Hbreak].
    intros l' s' Hin. apply Hbody. now right.
Qed.

Lemma for_lines_break {St} (body : string -> St -> outcome (flow St))
    (step : string -> St -> St) (l : string) (pre post : list string)
    (s s1 : St) (c : Client) :
  Forall is_line (pre ++ l :: post) ->
  (forall l s, In l pre -> body l s = Done (Continue (step l s))) ->
  stdout c = answer (pre ++ l :: post) ->
  body l (foldl (fun s l => step l s) s pre) = Done (Break s1) ->
  for_lines body s c = Done (s1, true, set_stdout c (answer post)).
Proof.
  intros Hl Hbody Hc Hbreak. unfold for_lines.
  eapply for_lines_loop_break; eauto. rewrite Hc.
  pose proof (length_answer _ Hl) as Hlen.
  rewrite length_app in Hlen. cbn [length] in Hlen. lia.
Qed.

Lemma advanceUntilPrompt_answer (c : Client) (lines : list string) :
  Forall is_line lines -> stdout c = answer lines ->
  advanceUntilPrompt c = Done (set_stdout c EmptyString).
Proof.
  intros Hl Hc. unfold advanceUntilPrompt.
  rewrite (for_lines_fold _ (fun _ s => s) lines tt c Hl);
    [|intros l []; reflexivity|exact Hc].
  reflexivity.
Qed.

End Loops.

(** Concrete lines. *)
Ltac concrete_lines :=
  repeat first
    [ apply List.Forall_nil
    | apply List.Forall_cons
    | (eexists; split; [reflexivity|split; reflexivity])
    | (split; [discriminate|reflexivity])
    | reflexivity ].

End DriverFacts.

Module ListingFacts.
Import Strings Regexp Maude Protocol MaudeExamples MaudeFacts Transcript DriverFacts Listings.
Import SessionExamples.

Lemma run_Star_Class_cons p c s caps k :
  run (Star (Class p)) (String c s) caps k
  = if p c
    then match run (Star (Class p)) s caps k with
         | Some r => Some r
         | None => k (String c s) caps
         end
    else k (String c s) caps.
Proof.
  cbn [run String.length]. destruct (p c); [|reflexivity].
  destruct (Nat.ltb_spec (String.length s) (S (String.length s))); [|lia].
  reflexivity.
Qed.

Lemma run_Star_nil r caps k : run (Star r) EmptyString caps k = k EmptyString caps.
Proof. reflexivity. Qed.

(** A repetition of a class that has to give back its last character:
    what follows the run is refused, what follows the run without its
    last character is accepted. *)
Lemma run_star_class_back (p : ascii -> bool)
    (K : string -> list string -> option (list string)) (last : ascii) :
  forall name rest caps res,
  all_chars p name = true -> p last = true ->
  (forall c rest', rest = String c rest' -> p c = false) ->
  K rest caps = None -> K (String last rest) caps = Some res ->
  run (Star (Class p)) (name +:+ String last rest) caps K = Some res.
Proof.
  induction name as [|c name IH]; intros rest caps res Hall Hlast Hrest Hno Hk.
  - rewrite append_nil, run_Star_Class_cons, Hlast.
    assert (Hr : run (Star (Class p)) rest caps K = None).
    { destruct rest as [|c rest']; [exact Hno|].
      rewrite run_Star_Class_cons, (Hrest c rest' eq_refl). exact Hno. }
    now rewrite Hr.
  - cbn [all_chars] in Hall. apply andb_prop in Hall as [Hc Hall].
    rewrite append_cons, run_Star_Class_cons, Hc.
    now rewrite (IH rest caps res Hall Hlast Hrest Hno Hk).
Qed.

Lemma none_of_weaken (a b : string) (s : string) :
  (forall c, none_of a c = true -> none_of b c = true) ->
  all_chars (none_of a) s = true -> all_chars (none_of b) s = true.
Proof. apply all_chars_impl. Qed.

Lemma kind_is_text (kind : string) :
  In kind module_kinds ->
  all_chars (none_of nl) kind = true
  /\ forall rest, String.prefix maudePrompt (kind +:+ rest) = false.
Proof.
  intros Hk. repeat (destruct Hk as [<-|Hk]; [split; [reflexivity|intros rest; reflexivity]|]).
  contradiction.
Qed.

Lemma module_line_is_line (m : string * string) :
  In m.1 module_kinds -> is_name m.2 -> is_line (module_line m).
Proof.
  intros Hk [Hne Hn]. destruct (kind_is_text _ Hk) as [Hkt Hkp].
  exists (m.1 +:+ " " +:+ m.2). unfold module_line. split; [|split].
  - now rewrite !append_assoc.
  - rewrite !all_chars_append, Hkt. cbn [andb].
    change (all_chars (none_of nl) " ") with true. cbn [andb].
    revert Hn. apply all_chars_impl. intros c. none_of_cases c.
  - apply Hkp.
Qed.

Lemma modRegex_module_line (m : string * string) :
  In m.1 module_kinds -> is_name m.2 ->
  FindStringSubmatch 2 modRegex (module_line m)
  = Some [module_line m; m.1; m.2].
Proof.
  destruct m as [kind name]. cbn [fst snd]. intros Hk [Hne Hn].
  unfold FindStringSubmatch, modRegex, module_line. cbn [fst snd].
  rewrite run_Cat, run_Group.
  erewrite run_kind; [reflexivity|exact Hk|].
  rewrite consumed_append.
  rewrite run_Cat, run_Lit, append_cons, append_nil, prefix_cons, prefix_nil.
  cbn [String.length drop]. rewrite run_Cat, run_Group.
  destruct name as [|c name]; [contradiction|].
  cbn [all_chars] in Hn. apply andb_prop in Hn as [Hc Hn].
  assert (Hc' : none_of " {" c = true).
  { revert Hc. none_of_cases c. }
  assert (Hn' : all_chars (none_of " {") name = true).
  { revert Hn. apply all_chars_impl. intros x. none_of_cases x. }
  unfold Plus. rewrite run_Cat, append_cons, run_Class_cons, Hc'.
  unfold nl. erewrite (run_star_class_back _ _ LF name EmptyString);
    [reflexivity|exact Hn'|reflexivity|discriminate|reflexivity|].
  rewrite run_Cat, run_Lit. cbn [String.prefix String.length drop].
  destruct (ascii_dec LF LF); [|contradiction].
  cbn [run].
  change (String c (name +:+ String LF EmptyString))
    with (String c name +:+ String LF EmptyString).
  rewrite consumed_append. rewrite consumed_all.
  reflexivity.
Qed.

Section Listing.
Context `{Interpreter}.

Lemma foldl_append_answer : forall lines acc,
  foldl (fun s l => s +:+ l) acc lines +:+ maudePrompt = acc +:+ answer lines.
Proof.
  induction lines as [|l lines IH]; intros acc; [reflexivity|].
  cbn [foldl]. rewrite IH, answer_cons. now rewrite append_assoc.
Qed.

(** [X11] [RawInput] returns what the interpreter prints up to
    the prompt: the text returned, followed by the prompt, is the
    answer, and the session is at the prompt again. *)
Theorem RawInput_returns_the_answer (c : Client) (input : string)
    (lines : list string) :
  at_prompt c -> Forall is_line lines ->
  snd (exec (command c) (input +:+ nl)) = answer lines ->
  exists out c',
    RawInput input c = Done (out, c')
    /\ out +:+ maudePrompt = snd (exec (command c) (input +:+ nl))
    /\ at_prompt c' /\ command c' = fst (exec (command c) (input +:+ nl)).
Proof.
  intros [Hact Hout] Hl Hans. unfold RawInput. rewrite Hact. cbn [negb].
  set (c0 := stdin_Write (input +:+ nl) c).
  assert (Hc0 : stdout c0 = answer lines /\ active c0 = true
                /\ command c0 = fst (exec (command c) (input +:+ nl))).
  { unfold c0, stdin_Write. destruct (exec (command c) (input +:+ nl)) as [p out].
    cbn [stdout active command fst snd] in *. now rewrite Hout, Hans. }
  destruct Hc0 as (Hs0 & Ha0 & Hp0).
  rewrite (for_lines_fold _ (fun str output => output +:+ str) lines "" c0 Hl);
    [|reflexivity|exact Hs0].
  cbn [mbind outcome_bind].
  rewrite (advanceUntilPrompt_answer (set_stdout c0 maudePrompt) []);
    [|constructor|reflexivity].
  cbn [mbind outcome_bind]. eexists. eexists. split; [reflexivity|].
  split; [now rewrite foldl_append_answer, Hans|].
  split; [split; [exact Ha0|reflexivity]|exact Hp0].
Qed.

(** [X12] On an answer that lists modules and theories, one on
    a line with its keyword, [Modules] returns them in the order of the
    answer, each with its name and its kind. *)
Theorem Modules_lists_the_modules (c : Client) (mods : list (string * string)) :
  at_prompt c ->
  Forall (fun m => In m.1 module_kinds /\ is_name m.2) mods ->
  snd (exec (command c) ("show modules ." +:+ nl)) = answer (module_line <$> mods) ->
  exists c',
    Modules c = Done ((fun m => mkModuleInfo m.2 m.1) <$> mods, c')
    /\ at_prompt c'.
Proof.
  intros [Hact Hout] Hmods Hans. unfold Modules. rewrite Hact. cbn [negb].
  set (c0 := stdin_Write ("show modules ." +:+ nl) c).
  assert (Hc0 : stdout c0 = answer (module_line <$> mods) /\ active c0 = true).
  { unfold c0, stdin_Write.
    destruct (exec (command c) ("show modules ." +:+ nl)) as [p out].
    cbn [stdout active command fst snd] in *. now rewrite Hout, Hans. }
  destruct Hc0 as (Hs0 & Ha0).
  assert (Hl : Forall is_line (module_line <$> mods)).
  { apply Forall_fmap. eapply Forall_impl; [exact Hmods|].
    intros m [Hk Hn]. now apply module_line_is_line. }
  rewrite (for_lines_fold _
             (fun str modules =>
                match FindStringSubmatch 2 modRegex str with
                | Some m => modules ++ [mkModuleInfo (default "" (m !! 2%nat))
                                                     (default "" (m !! 1%nat))]
                | None => modules
                end) (module_line <$> mods) [] c0 Hl); [| |exact Hs0].
  - cbn [mbind outcome_bind].
    rewrite (advanceUntilPrompt_answer (set_stdout c0 maudePrompt) []);
      [|constructor|reflexivity].
    cbn [mbind outcome_bind].
    assert (Hfold : forall acc,
      foldl (fun s l =>
               match FindStringSubmatch 2 modRegex l with
               | Some m => s ++ [mkModuleInfo (default "" (m !! 2%nat))
                                              (default "" (m !! 1%nat))]
               | None => s
               end) acc (module_line <$> mods)
      = acc ++ ((fun m => mkModuleInfo m.2 m.1) <$> mods)).
    { clear Hans Hs0 Hl. induction Hmods as [|m mods [Hk Hn] _ IH]; intros acc.
      - cbn. now rewrite app_nil_r.
      - rewrite !fmap_cons. cbn [foldl].
        rewrite (modRegex_module_line m Hk Hn). cbn [lookup list_lookup default].
        rewrite IH. now rewrite <- app_assoc. }
    rewrite (Hfold []). cbn [app].
    eexists. split; [reflexivity|]. split; [exact Ha0|reflexivity].
  - intros l s Hin. apply list_elem_of_In, list_elem_of_fmap in Hin as (m & -> & Hm).
    destruct (proj1 (Forall_forall _ _) Hmods m Hm) as [Hk Hn].
    rewrite (modRegex_module_line m Hk Hn). reflexivity.
Qed.

End Listing.

Lemma RawInput_returns_the_answer_witness :
  exists out c',
    RawInput (H := toy) "show module ." toy_client = Done (out, c')
    /\ out +:+ maudePrompt
       = snd (exec (Interpreter := toy) (command toy_client) ("show module ." +:+ nl))
    /\ at_prompt c'
    /\ command c'
       = fst (exec (Interpreter := toy) (command toy_client) ("show module ." +:+ nl)).
Proof.
  apply (RawInput_returns_the_answer (H := toy) toy_client "show module ."
           toy_module_lines).
  - split; reflexivity.
  - concrete_lines.
  - reflexivity.
Defined.

Lemma Modules_lists_the_modules_witness :
  exists c',
    Modules (asked (answer (module_line <$> some_modules)))
    = Done ((fun m => mkModuleInfo m.2 m.1) <$> some_modules, c')
    /\ at_prompt c'.
Proof.
  apply (Modules_lists_the_modules (asked (answer (module_line <$> some_modules)))
           some_modules).
  - split; reflexivity.
  - repeat first
      [ apply List.Forall_nil | apply List.Forall_cons
      | (split; [cbn; tauto|split; [discriminate|reflexivity]]) ].
  - reflexivity.
Defined.

End ListingFacts.

Module ListingFacts2.
Import Strings Regexp Maude Protocol MaudeExamples MaudeFacts Transcript DriverFacts Listings ListingFacts.
Import SessionExamples.

Lemma sort_line_is_line (s : string * string) :
  is_sort_name s.1 -> all_chars (none_of nl) s.2 = true -> is_line (sort_line s).
Proof.
  intros [Hne Hn] Ht. exists ("sort " +:+ s.1 +:+ " ." +:+ s.2).
  unfold sort_line. split; [|split].
  - now rewrite !append_assoc.
  - rewrite !all_chars_append, Ht.
    change (all_chars (none_of nl) "sort ") with true.
    change (all_chars (none_of nl) " .") with true.
    cbn [andb]. rewrite ?andb_true_r.
    revert Hn. apply all_chars_impl. intros c. none_of_cases c.
  - reflexivity.
Qed.

Lemma sortRegex_sort_line (s : string * string) :
  is_sort_name s.1 ->
  FindStringSubmatch 1 sortRegex (sort_line s)
  = Some ["sort " +:+ s.1 +:+ " ."; s.1].
Proof.
  destruct s as [name tail]. cbn [fst snd]. intros [Hne Hn].
  unfold FindStringSubmatch, sortRegex, sort_line. cbn [fst snd].
  rewrite run_Cat, run_Lit.
  rewrite !append_cons, append_nil, !prefix_cons, prefix_nil.
  cbn [String.length drop].
  rewrite run_Cat, run_Group.
  destruct name as [|c name]; [contradiction|].
  cbn [all_chars] in Hn. apply andb_prop in Hn as [Hc Hn].
  assert (Hc' : none_of " " c = true) by (revert Hc; none_of_cases c).
  assert (Hn' : all_chars (none_of " ") name = true).
  { revert Hn. apply all_chars_impl. intros x. none_of_cases x. }
  unfold Plus. rewrite run_Cat, append_cons, run_Class_cons, Hc'.
  erewrite (run_star_class _ _ name (" ." +:+ tail +:+ nl));
    [reflexivity|exact Hn'|intros x rest' [= <- _]; reflexivity|].
  rewrite run_Cat, run_Lit, append_cons, append_cons, prefix_cons, prefix_nil.
  cbn [String.length drop]. rewrite append_nil, run_Class_cons.
  change (any_but_newline ".") with true. cbn iota.
  rewrite <- append_cons, consumed_append.
  match goal with
  | |- context [consumed ?w (tail +:+ nl)] =>
      replace w with (("sort " +:+ String c name +:+ " .") +:+ (tail +:+ nl))
        by (now rewrite !append_assoc)
  end.
  rewrite consumed_append. reflexivity.
Qed.

Section Listing.
Context `{Interpreter}.

(** [X13] On an answer that declares one sort on every line
    (with or without its subsorts after the declaration), [Sorts]
    returns the names of the sorts in the order of the answer. *)
Theorem Sorts_lists_the_sorts (c : Client) (sorts : list (string * string)) :
  at_prompt c ->
  Forall (fun s => is_sort_name s.1 /\ all_chars (none_of nl) s.2 = true) sorts ->
  snd (exec (command c) ("show sorts ." +:+ nl)) = answer (sort_line <$> sorts) ->
  exists c', Sorts c = Done (fst <$> sorts, c') /\ at_prompt c'.
Proof.
  intros [Hact Hout] Hsorts Hans. unfold Sorts. rewrite Hact. cbn [negb].
  set (c0 := stdin_Write ("show sorts ." +:+ nl) c).
  assert (Hc0 : stdout c0 = answer (sort_line <$> sorts) /\ active c0 = true).
  { unfold c0, stdin_Write.
    destruct (exec (command c) ("show sorts ." +:+ nl)) as [p out].
    cbn [stdout active command fst snd] in *. now rewrite Hout, Hans. }
  destruct Hc0 as (Hs0 & Ha0).
  assert (Hl : Forall is_line (sort_line <$> sorts)).
  { apply Forall_fmap. eapply Forall_impl; [exact Hsorts|].
    intros s [Hn Ht]. now apply sort_line_is_line. }
  rewrite (for_lines_fold _
             (fun str sorts =>
                sorts ++ [default "" (default [] (FindStringSubmatch 1 sortRegex str)
                                      !! 1%nat)])
             (sort_line <$> sorts) [] c0 Hl); [| |exact Hs0].
  - cbn [mbind outcome_bind].
    rewrite (advanceUntilPrompt_answer (set_stdout c0 maudePrompt) []);
      [|constructor|reflexivity].
    cbn [mbind outcome_bind].
    assert (Hfold : forall acc,
      foldl (fun s l =>
               s ++ [default "" (default [] (FindStringSubmatch 1 sortRegex l)
                                 !! 1%nat)]) acc (sort_line <$> sorts)
      = acc ++ (fst <$> sorts)).
    { clear Hans Hs0 Hl. induction Hsorts as [|s sorts [Hn Ht] _ IH]; intros acc.
      - cbn. now rewrite app_nil_r.
      - rewrite !fmap_cons. cbn [foldl].
        rewrite (sortRegex_sort_line s Hn). cbn [lookup list_lookup default].
        rewrite IH. now rewrite <- app_assoc. }
    rewrite (Hfold []). cbn [app].
    eexists. split; [reflexivity|]. split; [exact Ha0|reflexivity].
  - intros l s Hin. apply list_elem_of_In, list_elem_of_fmap in Hin as (m & -> & Hm).
    destruct (proj1 (Forall_forall _ _) Hsorts m Hm) as [Hn Ht].
    rewrite (sortRegex_sort_line m Hn). reflexivity.
Qed.

End Listing.

Lemma Sorts_lists_the_sorts_witness :
  exists c',
    Sorts (asked (answer (sort_line <$> some_sorts))) = Done (fst <$> some_sorts, c')
    /\ at_prompt c'.
Proof.
  apply (Sorts_lists_the_sorts (asked (answer (sort_line <$> some_sorts))) some_sorts).
  - split; reflexivity.
  - repeat first
      [ apply List.Forall_nil | apply List.Forall_cons
      | (split; [split; [discriminate|reflexivity]|reflexivity]) ].
  - reflexivity.
Defined.

End ListingFacts2.

Module ReductionFacts.
Import Strings Regexp Maude Protocol MaudeExamples MaudeFacts Transcript DriverFacts Listings ListingFacts Reductions.
Import SessionExamples.

Lemma result_line_is_line (ty tm : string) :
  is_sort_text ty -> all_chars (none_of nl) tm = true -> is_line (result_line ty tm).
Proof.
  intros [Hne Hty] Htm. exists ("result " +:+ ty +:+ ": " +:+ tm).
  unfold result_line. split; [|split].
  - now rewrite !append_assoc.
  - rewrite !all_chars_append, Htm.
    change (all_chars (none_of nl) "result ") with true.
    change (all_chars (none_of nl) ": ") with true.
    cbn [andb]. rewrite ?andb_true_r.
    revert Hty. apply all_chars_impl. intros c. none_of_cases c.
  - reflexivity.
Qed.

Lemma resultRegex_result_line (ty tm : string) :
  is_sort_text ty -> all_chars (none_of nl) tm = true ->
  FindStringSubmatch 2 resultRegex (result_line ty tm)
  = Some [result_line ty tm; ty; tm].
Proof.
  intros [Hne Hty] Htm.
  unfold FindStringSubmatch, resultRegex, result_line.
  rewrite run_Cat, run_Lit.
  rewrite !append_cons, append_nil, !prefix_cons, prefix_nil.
  cbn [String.length drop].
  rewrite run_Cat, run_Group.
  destruct ty as [|c ty]; [contradiction|].
  cbn [all_chars] in Hty. apply andb_prop in Hty as [Hc Hty].
  assert (Hc' : none_of ":" c = true) by (revert Hc; none_of_cases c).
  assert (Hty' : all_chars (none_of ":") ty = true).
  { revert Hty. apply all_chars_impl. intros x. none_of_cases x. }
  unfold Plus. rewrite run_Cat, append_cons, run_Class_cons, Hc'.
  erewrite (run_star_class _ _ ty (": " +:+ tm +:+ nl));
    [reflexivity|exact Hty'|intros x rest' [= <- _]; reflexivity|].
  rewrite run_Cat, run_Lit, !append_cons, append_nil, !prefix_cons, prefix_nil.
  cbn [String.length drop]. rewrite run_Cat, run_Group.
  assert (Htm' : all_chars any_but_newline tm = true).
  { revert Htm. apply all_chars_impl. intros x.
    unfold any_but_newline. none_of_cases x. }
  erewrite (run_star_class _ _ tm nl);
    [reflexivity|exact Htm'|intros x rest' [= <- _]; reflexivity|].
  rewrite run_Cat, run_Lit.
  change (String.prefix nl nl) with true. cbn iota.
  change (drop (String.length nl) nl) with EmptyString. cbn [run].
  rewrite consumed_all, consumed_append.
  change (String c (ty +:+ String ":" (String " " (tm +:+ nl))))
    with (String c ty +:+ String ":" (String " " (tm +:+ nl))).
  rewrite consumed_append. reflexivity.
Qed.

Lemma resultRegex_other_line (l : string) :
  HasPrefix l "result " = false -> FindStringSubmatch 2 resultRegex l = None.
Proof.
  intros Hp. unfold FindStringSubmatch, resultRegex.
  rewrite run_Cat, run_Lit. unfold HasPrefix in Hp. now rewrite Hp.
Qed.

Lemma TrimSuffix_nl_append (x : string) : TrimSuffix_nl (x +:+ nl) = x.
Proof.
  induction x as [|c x IH]; [reflexivity|].
  rewrite append_cons. revert IH.
  destruct (x +:+ nl) as [|a s] eqn:E; [now destruct x|]. intros IH.
  change (TrimSuffix_nl (String c (String a s)))
    with (String c (TrimSuffix_nl (String a s))).
  now rewrite IH.
Qed.

Lemma foldl_append_text : forall lines acc,
  foldl (fun s l => s +:+ l) acc lines = acc +:+ text_of lines.
Proof.
  induction lines as [|l lines IH]; intros acc.
  - cbn. clear. induction acc as [|c acc IH]; [reflexivity|].
    rewrite append_cons. now rewrite <- IH.
  - cbn [foldl text_of foldr]. rewrite IH. now rewrite append_assoc.
Qed.

Lemma text_of_ends_with_nl (lines : list string) :
  Forall is_line lines -> lines <> [] ->
  exists x, text_of lines = x +:+ nl.
Proof.
  induction 1 as [|l lines Hl Hls IH]; intros Hne; [contradiction|].
  destruct lines as [|l' lines].
  - destruct Hl as (text & -> & _). exists text. cbn.
    clear. induction (text +:+ nl) as [|c s IH]; [reflexivity|].
    rewrite append_cons. now rewrite IH.
  - destruct IH as [x Hx]; [discriminate|]. exists (l +:+ x).
    cbn [text_of foldr] in *. rewrite Hx. now rewrite append_assoc.
Qed.

Section Reduce.
Context `{Interpreter}.

(** What [reduce] returns when the answer holds a result line: the
    term of the line, or, when more lines follow, the text from the term
    to the prompt without its last line feed. *)
Lemma reduce_result_line (c : Client) (cmd ty tm : string)
    (pre post : list string) :
  at_prompt c ->
  Forall is_line pre -> Forall (fun l => HasPrefix l "result " = false) pre ->
  is_sort_text ty -> all_chars (none_of nl) tm = true -> Forall is_line post ->
  snd (exec (command c) cmd) = answer (pre ++ result_line ty tm :: post) ->
  exists c',
    reduce cmd c
    = Done (mkReduceResult true
              match post with
              | [] => tm
              | _ => TrimSuffix_nl (tm +:+ nl +:+ text_of post)
              end ty, c')
    /\ at_prompt c' /\ command c' = fst (exec (command c) cmd).
Proof.
  intros [Hact Hout] Hpre Hother Hty Htm Hpost Hans.
  unfold reduce. rewrite Hact. cbn [negb].
  set (c0 := stdin_Write cmd c).
  assert (Hc0 : stdout c0 = answer (pre ++ result_line ty tm :: post)
                /\ active c0 = true
                /\ command c0 = fst (exec (command c) cmd)).
  { unfold c0, stdin_Write. destruct (exec (command c) cmd) as [p out].
    cbn [stdout active command fst snd] in *. now rewrite Hout, Hans. }
  destruct Hc0 as (Hs0 & Ha0 & Hp0).
  pose proof (result_line_is_line ty tm Hty Htm) as Hline.
  assert (Hall : Forall is_line (pre ++ result_line ty tm :: post)).
  { apply Forall_app. split; [exact Hpre|]. now constructor. }
  rewrite (for_lines_break _ (fun _ r => r) (result_line ty tm) pre post
             _ (mkReduceResult true tm ty) c0 Hall); [| |exact Hs0|].
  - cbn [mbind outcome_bind].
    rewrite (promptReached_answer (set_stdout c0 (answer post)) post Hpost eq_refl).
    cbn [mbind outcome_bind].
    destruct post as [|l post].
    + cbn [negb]. cbn [mbind outcome_bind].
      rewrite (advanceUntilPrompt_answer (set_stdout c0 (answer [])) []);
        [|constructor|reflexivity].
      cbn [mbind outcome_bind]. eexists. split; [reflexivity|].
      split; [split; [exact Ha0|reflexivity]|exact Hp0].
    + cbn [negb]. set (lines := l :: post) in *.
      rewrite (for_lines_fold _
                 (fun line r => mkReduceResult (rOk r) (rTerm r +:+ line) (rType r))
                 lines _ (set_stdout c0 (answer lines)) Hpost);
        [|reflexivity|reflexivity].
      cbn [mbind outcome_bind].
      rewrite (advanceUntilPrompt_answer _ []); [|constructor|reflexivity].
      cbn [mbind outcome_bind].
      assert (Hfold : forall r,
        foldl (fun s l0 => mkReduceResult (rOk s) (rTerm s +:+ l0) (rType s)) r lines
        = mkReduceResult (rOk r) (rTerm r +:+ text_of lines) (rType r)).
      { clear. induction lines as [|x lines IH]; intros r.
        - cbn. destruct r as [ok t ty]. cbn. f_equal.
          clear. induction t as [|c t IH]; [reflexivity|].
          rewrite append_cons. now rewrite <- IH.
        - cbn [foldl]. rewrite IH. cbn [rOk rTerm rType text_of foldr].
          now rewrite append_assoc. }
      rewrite Hfold. cbn [rOk rTerm rType].
      eexists. split; [now rewrite !append_assoc|].
      split; [split; [exact Ha0|reflexivity]|exact Hp0].
  - intros l r Hin.
    rewrite resultRegex_other_line; [reflexivity|].
    apply list_elem_of_In in Hin. exact (proj1 (Forall_forall _ _) Hother l Hin).
  - assert (Hid : forall (r : ReduceResult) (ls : list string),
              foldl (fun s _ => s) r ls = r)
      by (intros r ls; induction ls; auto).
    rewrite Hid. rewrite (resultRegex_result_line ty tm Hty Htm). reflexivity.
Qed.

(** [X14] A reduction whose answer holds a result line, after
    lines that do not start with [result], returns the sort and the term
    of that line; when more lines follow before the prompt they belong
    to the term. The term returned, with a line feed, is the text after
    the sort up to the prompt. *)
Theorem reduce_reads_the_result (c : Client) (cmd ty tm : string)
    (pre post : list string) :
  at_prompt c ->
  Forall is_line pre -> Forall (fun l => HasPrefix l "result " = false) pre ->
  is_sort_text ty -> all_chars (none_of nl) tm = true -> Forall is_line post ->
  snd (exec (command c) cmd) = answer (pre ++ result_line ty tm :: post) ->
  exists term c',
    reduce cmd c = Done (mkReduceResult true term ty, c')
    /\ term +:+ nl = tm +:+ nl +:+ text_of post
    /\ at_prompt c' /\ command c' = fst (exec (command c) cmd).
Proof.
  intros Hp Hpre Hother Hty Htm Hpost Hans.
  destruct (reduce_result_line c cmd ty tm pre post Hp Hpre Hother Hty Htm Hpost Hans)
    as (c' & Hred & Hp' & Hc').
  eexists. exists c'. split; [exact Hred|]. split; [|split; [exact Hp'|exact Hc']].
  destruct post as [|l post]; [reflexivity|].
  destruct (text_of_ends_with_nl (l :: post) Hpost) as [x Hx]; [discriminate|].
  rewrite Hx. rewrite <- !append_assoc, TrimSuffix_nl_append.
  reflexivity.
Qed.

End Reduce.

Lemma reduce_reads_the_result_witness :
  exists term c',
    reduce ("red f(a) ." +:+ nl)
      (asked (answer (reduction_lines ++ result_line "Foo" "h(a," :: reduction_more)))
    = Done (mkReduceResult true term "Foo", c')
    /\ term +:+ nl = "h(a," +:+ nl +:+ text_of reduction_more
    /\ at_prompt c'
    /\ command c'
       = fst (exec (command (asked (answer (reduction_lines
                       ++ result_line "Foo" "h(a," :: reduction_more))))
                   ("red f(a) ." +:+ nl)).
Proof.
  apply (reduce_reads_the_result
           (asked (answer (reduction_lines ++ result_line "Foo" "h(a," :: reduction_more)))
           ("red f(a) ." +:+ nl) "Foo" "h(a," reduction_lines reduction_more).
  - split; reflexivity.
  - concrete_lines.
  - repeat constructor.
  - split; [discriminate|reflexivity].
  - reflexivity.
  - concrete_lines.
  - reflexivity.
Defined.

End ReductionFacts.

Module SessionFacts.
Import Strings Regexp Maude Protocol MaudeExamples MaudeFacts Transcript DriverFacts.



(** [X16] [Start] leaves a fresh session at the prompt, whatever
    the state of the client was: the process is a new one, it is active,
    and what it printed when it started, up to the prompt, has been
    read. *)
Theorem Start_gives_a_fresh_session `{Interpreter} (in_time : bool) (c : Client)
    (banner : list string) :
  Forall is_line banner -> snd spawn = answer banner ->
  exists c', Start in_time c = Done c'
    /\ at_prompt c' /\ command c' = fst spawn /\ maudePath c' = maudePath c.
Proof.
  intros Hb Hs. unfold Start.
  set (c0 := if active c then _ else _).
  assert (Hpath : maudePath c0 = maudePath c).
  { unfold c0, QuitTimeout, Quit, Kill, stdin_Write.
    destruct (active c); [|reflexivity]. cbn [negb].
    destruct in_time; [|reflexivity].
    now destruct (exec (command c) ("quit ." +:+ nl)). }
  rewrite (advanceUntilPrompt_answer _ banner Hb) by exact Hs.
  eexists. split; [reflexivity|].
  split; [split; reflexivity|]. split; [reflexivity|exact Hpath].
Qed.

Lemma Start_gives_a_fresh_session_witness :
  exists c', Start (H := toy) true toy_client = Done c'
    /\ at_prompt c' /\ command c' = fst (spawn (Interpreter := toy))
    /\ maudePath c' = maudePath toy_client.
Proof.
  apply (Start_gives_a_fresh_session (H := toy) true toy_client []).
  - apply List.Forall_nil.
  - reflexivity.
Defined.

End SessionFacts.

Module EnvFacts.
Import Strings ModelChecker EnvSpec MaudeFacts.

Lemma smcOutput_is (path : string) : is_smcOutput (smcOutput path) = true.
Proof.
  unfold is_smcOutput, HasPrefix, smcOutput.
  rewrite !append_cons, append_nil, !prefix_cons. apply prefix_nil.
Qed.

(** The environment, cut at its last entry for the variable. *)
Lemma last_entry_split : forall env,
  Forall (fun e => is_smcOutput e = false) env
  \/ exists a e b, env = a ++ e :: b /\ is_smcOutput e = true
                   /\ Forall (fun e => is_smcOutput e = false) b.
Proof.
  induction env as [|x env IH]; [left; constructor|].
  destruct IH as [Hno|(a & e & b & -> & He & Hb)].
  - destruct (is_smcOutput x) eqn:Hx.
    + right. exists [], x, env. auto.
    + left. now constructor.
  - right. exists (x :: a), e, b. auto.
Qed.

Lemma loop_skips (path : string) (a : list string) : forall b,
  Forall (fun e => is_smcOutput e = false) b ->
  SetSmcOutput_loop (length (a ++ b)) (a ++ b) path
  = SetSmcOutput_loop (length a) (a ++ b) path.
Proof.
  induction b as [|x b IH] using rev_ind; intros Hb.
  - now rewrite app_nil_r.
  - apply Forall_app in Hb as [Hb Hx]. inversion Hx as [|? ? Hx' _]; subst.
    rewrite app_assoc, length_app. cbn [length].
    rewrite Nat.add_1_r. cbn [SetSmcOutput_loop].
    rewrite lookup_app_r by lia. rewrite Nat.sub_diag.
    change ([x] !! 0%nat) with (Some x). cbn [from_option id].
    unfold is_smcOutput in Hx'. rewrite Hx'.
    rewrite <- app_assoc.
    assert (Hgen : forall i, (i <= length (a ++ b))%nat ->
              SetSmcOutput_loop i (a ++ b ++ [x]) path
              = (fun env => env ++ [x]) <$> SetSmcOutput_loop i (a ++ b) path).
    { induction i as [|i IHi]; intros Hi; [reflexivity|].
      cbn [SetSmcOutput_loop]. rewrite (app_assoc a b [x]).
      rewrite lookup_app_l by lia.
      rewrite <- (app_assoc a b [x]).
      destruct (HasPrefix (default EmptyString ((a ++ b) !! i)) "MAUDE_SMC_OUTPUT=").
      - cbn [fmap option_fmap option_map]. f_equal.
        rewrite (app_assoc a b [x]). now rewrite insert_app_l by lia.
      - apply IHi. lia. }
    rewrite Hgen by lia. rewrite (IH Hb).
    rewrite Hgen by (rewrite length_app; lia). reflexivity.
Qed.

Lemma SetSmcOutput_appends (environ : list string) (path : string)
    (env : list string) :
  Forall (fun e => is_smcOutput e = false) env ->
  SetSmcOutput environ path (Some env) = env ++ [smcOutput path].
Proof.
  intros Hno. unfold SetSmcOutput.
  pose proof (loop_skips path [] env Hno) as Hl. cbn [app length] in Hl.
  now rewrite Hl.
Qed.

Lemma SetSmcOutput_replaces (environ : list string) (path : string)
    (a b : list string) (e : string) :
  is_smcOutput e = true -> Forall (fun e => is_smcOutput e = false) b ->
  SetSmcOutput environ path (Some (a ++ e :: b)) = a ++ smcOutput path :: b.
Proof.
  intros He Hb. unfold SetSmcOutput.
  change (a ++ e :: b) with (a ++ [e] ++ b). rewrite (app_assoc a [e] b).
  rewrite (loop_skips path (a ++ [e]) b Hb).
  rewrite length_app. cbn [length]. rewrite Nat.add_1_r.
  cbn [SetSmcOutput_loop].
  rewrite <- app_assoc. cbn [app].
  rewrite list_lookup_middle by reflexivity. cbn [from_option id].
  unfold is_smcOutput in He. rewrite He.
  now rewrite insert_app_r_alt, Nat.sub_diag by lia.
Qed.

Lemma filter_none (b : list string) :
  Forall (fun e => is_smcOutput e = false) b ->
  List.filter is_smcOutput b = [] /\ others b = b.
Proof.
  induction 1 as [|x b Hx _ [IH1 IH2]]; [auto|].
  unfold others in *. cbn [List.filter]. rewrite Hx. cbn [negb].
  now rewrite IH1, IH2.
Qed.

(** [X17] [SetSmcOutput] makes the given path the value of
    the variable for the process to start: the last entry for the
    variable is replaced, or an entry is added when there is none. No
    other entry changes, and a later call overrides an earlier one
    without leaving a second entry. *)
Theorem SetSmcOutput_sets_the_variable (environ : list string) (path path' : string)
    (env : option (list string)) :
  let env0 := match env with None => environ | Some env => env end in
  effective (SetSmcOutput environ path env) = Some (smcOutput path)
  /\ others (SetSmcOutput environ path env) = others env0
  /\ SetSmcOutput environ path' (Some (SetSmcOutput environ path env))
     = SetSmcOutput environ path' env.
Proof.
  cbv zeta.
  assert (Hsome : SetSmcOutput environ path env
                  = SetSmcOutput environ path
                      (Some (match env with None => environ | Some env => env end)))
    by (now destruct env).
  assert (Hsome' : SetSmcOutput environ path' env
                  = SetSmcOutput environ path'
                      (Some (match env with None => environ | Some env => env end)))
    by (now destruct env).
  rewrite Hsome, Hsome'.
  set (env0 := match env with None => environ | Some env => env end).
  clearbody env0. clear Hsome Hsome'.
  destruct (last_entry_split env0) as [Hno|(a & e & b & -> & He & Hb)].
  - rewrite !(SetSmcOutput_appends _ _ env0 Hno).
    destruct (filter_none env0 Hno) as [Hf Ho].
    unfold effective, others in *. rewrite !List.filter_app, Hf, Ho.
    cbn [List.filter]. rewrite !smcOutput_is. cbn [negb app last].
    split; [reflexivity|]. split; [now rewrite app_nil_r|].
    apply (SetSmcOutput_replaces environ path' env0 []);
      [apply smcOutput_is|constructor].
  - rewrite !(SetSmcOutput_replaces _ _ a b e He Hb).
    destruct (filter_none b Hb) as [Hf Ho].
    unfold effective, others in *.
    rewrite !List.filter_app. cbn [List.filter].
    rewrite !smcOutput_is, He, Hf, Ho. cbn [negb].
    split; [|split].
    + now rewrite last_snoc.
    + reflexivity.
    + apply (SetSmcOutput_replaces environ path' a b); [apply smcOutput_is|exact Hb].
Qed.

End EnvFacts.

Module SimplifierFacts.
Import Strings Strings2 Regexp Maude Protocol MaudeExamples MaudeFacts Transcript DriverFacts Reductions ReductionFacts Simplifier.
Import SessionExamples.

Lemma drop_append (a b : string) : drop (String.length a) (a +:+ b) = b.
Proof.
  induction a as [|c a IH]; [reflexivity|].
  rewrite append_cons. cbn [String.length drop]. exact IH.
Qed.

Lemma unquote (s : string) :
  TrimPrefix (TrimSuffix (dquote +:+ s +:+ dquote) dquote) dquote = s.
Proof.
  assert (Hsuf : TrimSuffix (dquote +:+ s +:+ dquote) dquote = dquote +:+ s).
  { unfold TrimSuffix, HasSuffix. rewrite <- append_assoc.
    rewrite length_append.
    replace (String.length (dquote +:+ s) + String.length dquote - String.length dquote)%nat
      with (String.length (dquote +:+ s)) by lia.
    rewrite drop_append, take_append, String.eqb_refl.
    destruct (Nat.leb_spec (String.length dquote)
                (String.length (dquote +:+ s) + String.length dquote)); [reflexivity|lia]. }
  rewrite Hsuf. unfold TrimPrefix, HasPrefix, dquote.
  rewrite append_cons, append_nil, prefix_cons, prefix_nil. reflexivity.
Qed.

Section Simplify.
Context `{Interpreter}.

(** [X18] When the reduction gives its result on one line,
    [Simplify] returns the term of the result; a term between double
    quotes comes back without them; an empty term makes it panic, since
    its first byte is looked at. *)
Theorem Simplify_returns_the_reduced_term (c : Client)
    (simplifier term ty tm : string) (pre : list string) :
  at_prompt c ->
  Forall is_line pre -> Forall (fun l => HasPrefix l "result " = false) pre ->
  is_sort_text ty -> all_chars (none_of nl) tm = true ->
  snd (exec (command c) ("red " +:+ (simplifier +:+ "((" +:+ term +:+ "))") +:+ " ." +:+ nl))
  = answer (pre ++ [result_line ty tm]) ->
  (tm = EmptyString -> Simplify simplifier term c = Panics)
  /\ (forall s, tm = dquote +:+ s +:+ dquote ->
        exists c', Simplify simplifier term c = Done (s, c') /\ at_prompt c')
  /\ (forall first rest, tm = String first rest -> first <> ascii_of_nat 34 ->
        exists c', Simplify simplifier term c = Done (tm, c') /\ at_prompt c').
Proof.
  intros Hp Hpre Hother Hty Htm Hans.
  destruct (reduce_result_line c _ ty tm pre [] Hp Hpre Hother Hty Htm
              (List.Forall_nil _) Hans) as (c' & Hred & Hp' & _).
  unfold Simplify, Reduce. rewrite Hred. cbn [mbind outcome_bind rOk rTerm].
  split; [|split].
  - now intros ->.
  - intros s ->.
    change (dquote +:+ s +:+ dquote) with (String (ascii_of_nat 34) (s +:+ dquote)).
    cbv iota. rewrite Ascii.eqb_refl.
    change (String (ascii_of_nat 34) (s +:+ dquote)) with (dquote +:+ s +:+ dquote).
    rewrite unquote. eauto.
  - intros first rest -> Hne.
    destruct (Ascii.eqb_spec first (ascii_of_nat 34)); [contradiction|]. eauto.
Qed.

Lemma Simplify_no_result (c : Client) (simplifier term : string)
    (lines : list string) :
  Forall is_line lines -> Forall (fun l => HasPrefix l "result " = false) lines ->
  snd (exec (command c) ("red " +:+ (simplifier +:+ "((" +:+ term +:+ "))") +:+ " ." +:+ nl))
  = answer lines ->
  (active c = false -> Simplify simplifier term c = Done (term, c))
  /\ (at_prompt c ->
      exists c', Simplify simplifier term c = Done (term, c') /\ at_prompt c').
Proof.
  intros Hl Hother Hans. unfold Simplify, Reduce, reduce. split.
  - intros ->. reflexivity.
  - intros [Hact Hout]. rewrite Hact. cbn [negb].
    set (cmd := "red " +:+ _ +:+ " ." +:+ nl) in *.
    set (c0 := stdin_Write cmd c).
    assert (Hc0 : stdout c0 = answer lines /\ active c0 = true).
    { unfold c0, stdin_Write. destruct (exec (command c) cmd) as [p out].
      cbn [stdout active command fst snd] in *. now rewrite Hout, Hans. }
    destruct Hc0 as (Hs0 & Ha0).
    rewrite (for_lines_fold _ (fun _ r => r) lines _ c0 Hl); [| |exact Hs0].
    + cbn [mbind outcome_bind].
      rewrite (promptReached_answer (set_stdout c0 maudePrompt) [] (List.Forall_nil _) eq_refl).
      cbn [mbind outcome_bind negb].
      rewrite (advanceUntilPrompt_answer (set_stdout c0 maudePrompt) []);
        [|constructor|reflexivity].
      cbn [mbind outcome_bind].
      assert (Hid : forall (r : ReduceResult) (ls : list string),
                foldl (fun s _ => s) r ls = r)
        by (intros r ls; induction ls; auto).
      rewrite Hid. cbn [rOk]. eexists. split; [reflexivity|].
      split; [exact Ha0|reflexivity].
    + intros l r Hin. rewrite resultRegex_other_line; [reflexivity|].
      apply list_elem_of_In in Hin. exact (proj1 (Forall_forall _ _) Hother l Hin).
Qed.


(** [X19] [Simplify] returns the term it was given
    when the client is not active, and when the answer of the
    interpreter to the reduction holds no result line. *)
Theorem Simplify_falls_back (c : Client) (simplifier term : string) :
  active c = false
  \/ (at_prompt c
      /\ exists lines, Forall is_line lines
           /\ Forall (fun l => HasPrefix l "result " = false) lines
           /\ snd (exec (command c)
                     ("red " +:+ (simplifier +:+ "((" +:+ term +:+ "))") +:+ " ." +:+ nl))
              = answer lines) ->
  exists c', Simplify simplifier term c = Done (term, c')
             /\ active c' = active c.
Proof.
  intros [Hin|(Hp & lines & Hl & Hother & Hans)].
  - exists c. unfold Simplify, Reduce, reduce. rewrite Hin. auto.
  - destruct (Simplify_no_result c simplifier term lines Hl Hother Hans)
      as [_ Hact]. destruct (Hact Hp) as (c' & Hs & Hp').
    exists c'. split; [exact Hs|]. destruct Hp, Hp'. congruence.
Qed.

End Simplify.

Lemma Simplify_returns_the_reduced_term_witness :
  (dquote +:+ "a b" +:+ dquote = EmptyString ->
   Simplify "simp" "f(a)" (asked quoted_answer) = Panics)
  /\ (forall s, dquote +:+ "a b" +:+ dquote = dquote +:+ s +:+ dquote ->
        exists c', Simplify "simp" "f(a)" (asked quoted_answer) = Done (s, c')
                   /\ at_prompt c')
  /\ (forall first rest, dquote +:+ "a b" +:+ dquote = String first rest ->
        first <> ascii_of_nat 34 ->
        exists c', Simplify "simp" "f(a)" (asked quoted_answer)
                   = Done (dquote +:+ "a b" +:+ dquote, c') /\ at_prompt c').
Proof.
  apply (Simplify_returns_the_reduced_term (asked quoted_answer) "simp" "f(a)"
           "String" (dquote +:+ "a b" +:+ dquote) reduction_lines).
  - split; reflexivity.
  - concrete_lines.
  - repeat constructor.
  - split; [discriminate|reflexivity].
  - reflexivity.
  - reflexivity.
Defined.

Lemma Simplify_falls_back_witness :
  exists c', Simplify (H := toy) "simp" "f(a)" (InitMaude (H := toy) "maude")
             = Done ("f(a)", c')
             /\ active c' = active (InitMaude (H := toy) "maude").
Proof.
  apply (Simplify_falls_back (H := toy) (InitMaude (H := toy) "maude") "simp" "f(a)").
  left. reflexivity.
Defined.

End SimplifierFacts.

Module ListingFacts3.
Import Strings Regexp Maude Protocol MaudeExamples MaudeFacts Transcript DriverFacts Listings ListingFacts Listings2.

Lemma first_occurrence (x : string) : forall lines,
  In x lines -> exists pre post, lines = pre ++ x :: post /\ ~ In x pre.
Proof.
  induction lines as [|l lines IH]; intros Hin; [contradiction|].
  destruct (string_dec l x) as [->|Hne].
  - exists [], lines. auto.
  - destruct Hin as [->|Hin]; [contradiction|].
    destruct (IH Hin) as (pre & post & -> & Hno).
    exists (l :: pre), post. split; [reflexivity|]. intros [->|H]; auto.
Qed.

Lemma strat_line_is_line (st : string * option string * string) :
  is_sort_name st.1.1 -> is_sort_name st.2 ->
  (forall ps, st.1.2 = Some ps -> is_params_text ps) ->
  is_line (strat_line st).
Proof.
  destruct st as [[name params] subject]. cbn [fst snd].
  intros [_ Hn] [_ Hs] Hps.
  exists ("strat " +:+ name
          +:+ match params with Some ps => " : " +:+ ps | None => EmptyString end
          +:+ " @ " +:+ subject +:+ " .").
  unfold strat_line. cbn [fst snd]. split; [|split].
  - now rewrite !append_assoc.
  - rewrite !all_chars_append.
    assert (Hn' : all_chars (none_of nl) name = true).
    { revert Hn. apply all_chars_impl. intros c. none_of_cases c. }
    assert (Hs' : all_chars (none_of nl) subject = true).
    { revert Hs. apply all_chars_impl. intros c. none_of_cases c. }
    assert (Hp' : all_chars (none_of nl)
                    match params with Some ps => " : " +:+ ps | None => EmptyString end
                  = true).
    { destruct params as [ps|]; [|reflexivity].
      rewrite all_chars_append. destruct (Hps ps eq_refl) as [_ Hp].
      change (all_chars (none_of nl) " : ") with true. cbn [andb].
      revert Hp. apply all_chars_impl. intros c. none_of_cases c. }
    rewrite Hn', Hs', Hp'. reflexivity.
  - reflexivity.
Qed.

Lemma run_plus_class (p : ascii -> bool) (i : nat) (name rest : string) caps
    (K : string -> list string -> option (list string)) res :
  name <> EmptyString -> all_chars p name = true ->
  (forall c rest', rest = String c rest' -> p c = false) ->
  K rest (<[i := name]> caps) = Some res ->
  run (Group i (Plus (Class p))) (name +:+ rest) caps K = Some res.
Proof.
  intros Hne Hall Hrest HK. destruct name as [|c name]; [contradiction|].
  cbn [all_chars] in Hall. apply andb_prop in Hall as [Hc Hall].
  rewrite run_Group. unfold Plus. rewrite run_Cat, append_cons, run_Class_cons, Hc.
  apply run_star_class; [exact Hall|exact Hrest|].
  rewrite <- append_cons, consumed_append. exact HK.
Qed.

Lemma run_Alt_first r1 r2 s caps k res :
  run r1 s caps k = Some res -> run (Alt r1 r2) s caps k = Some res.
Proof. intros Hr. rewrite run_Alt, Hr. reflexivity. Qed.

Lemma run_Lit_append (l rest : string) caps k :
  run (Lit l) (l +:+ rest) caps k = k rest caps.
Proof.
  rewrite run_Lit.
  assert (Hp : String.prefix l (l +:+ rest) = true).
  { induction l as [|c l IH]; [apply prefix_nil|].
    now rewrite append_cons, prefix_cons. }
  rewrite Hp. f_equal.
  induction l as [|c l IH]; [now destruct rest|].
  rewrite append_cons. cbn [String.length drop]. apply IH.
  rewrite append_cons, prefix_cons in Hp. exact Hp.
Qed.

Lemma stratRegex_strat_line (st : string * option string * string) :
  is_sort_name st.1.1 -> is_sort_name st.2 ->
  (forall ps, st.1.2 = Some ps -> is_params_text ps) ->
  exists whole,
    FindStringSubmatch 3 stratRegex (strat_line st)
    = Some [whole; st.1.1; default EmptyString st.1.2; st.2].
Proof.
  destruct st as [[name params] subject]. cbn [fst snd].
  intros [Hne Hn] [Hse Hs] Hps.
  assert (Hn' : all_chars (none_of " ") name = true).
  { revert Hn. apply all_chars_impl. intros c. none_of_cases c. }
  assert (Hs' : all_chars (none_of " ") subject = true).
  { revert Hs. apply all_chars_impl. intros c. none_of_cases c. }
  unfold FindStringSubmatch, stratRegex, strat_line. cbn [fst snd].
  (* the tail after the subject *)
  assert (Htail : forall caps K res,
    K (" ." +:+ nl) (<[3%nat := subject]> caps) = Some res ->
    run (Cat (Lit " @ ") (Group 3 (Plus (Class (none_of " ")))))
        (" @ " +:+ subject +:+ " ." +:+ nl) caps K = Some res).
  { intros caps K res HK. rewrite run_Cat, run_Lit_append.
    apply run_plus_class; [exact Hse|exact Hs'| |exact HK].
    intros c rest' [= <- _]. reflexivity. }
  destruct params as [ps|].
  - destruct (Hps ps eq_refl) as [Hpe Hp].
    destruct ps as [|c ps]; [contradiction|].
    cbn [all_chars] in Hp. apply andb_prop in Hp as [Hc Hp].
    assert (Hc' : none_of "@" c = true) by (revert Hc; none_of_cases c).
    assert (Hp' : all_chars (none_of "@") ps = true).
    { revert Hp. apply all_chars_impl. intros x. none_of_cases x. }
    eexists. rewrite run_Cat, run_Lit_append, run_Cat.
    rewrite (append_assoc " : " (String c ps)).
    apply run_plus_class; [exact Hne|exact Hn'| |].
    { intros x rest' [= <- _]. reflexivity. }
    rewrite run_Cat. unfold Opt. apply run_Alt_first.
    rewrite run_Cat, run_Lit_append, run_Group.
    unfold Plus. rewrite run_Cat, append_cons, run_Class_cons, Hc'.
    change (" @ " +:+ subject +:+ " ." +:+ nl)
      with (String " " ("@ " +:+ subject +:+ " ." +:+ nl)).
    apply run_star_class_back; [exact Hp'|reflexivity| | |].
    + intros x rest' [= <- _]. reflexivity.
    + rewrite run_Cat, run_Lit. reflexivity.
    + change (String " " ("@ " +:+ subject +:+ " ." +:+ nl))
        with (" @ " +:+ subject +:+ " ." +:+ nl).
      apply Htail.
      change (String c (ps +:+ " @ " +:+ subject +:+ " ." +:+ nl))
        with (String c ps +:+ " @ " +:+ subject +:+ " ." +:+ nl).
      rewrite consumed_append. reflexivity.
  - eexists. rewrite run_Cat, run_Lit_append, run_Cat, append_nil.
    apply run_plus_class; [exact Hne|exact Hn'| |].
    { intros x rest' [= <- _]. reflexivity. }
    rewrite run_Cat. unfold Opt. rewrite run_Alt, run_Cat, run_Lit.
    change (String.prefix " : " (" @ " +:+ subject +:+ " ." +:+ nl)) with false.
    cbv iota. rewrite run_Eps.
    apply Htail. reflexivity.
Qed.

Section Listing.
Context `{Interpreter}.

(** [X20] [SmcAvailable] tells whether the answer to
    [show op .] holds the line of the hook of the model checker, and
    leaves the session at the prompt whether the line was found or
    not. *)
Theorem SmcAvailable_finds_the_hook (c : Client) (lines : list string) :
  at_prompt c -> Forall is_line lines ->
  snd (exec (command c) ("show op ." +:+ nl)) = answer lines ->
  exists c',
    SmcAvailable c = Done (bool_decide (smc_hook ∈ lines), c') /\ at_prompt c'.
Proof.
  intros [Hact Hout] Hl Hans. unfold SmcAvailable. rewrite Hact. cbn [negb].
  set (c0 := stdin_Write ("show op ." +:+ nl) c).
  assert (Hc0 : stdout c0 = answer lines /\ active c0 = true).
  { unfold c0, stdin_Write.
    destruct (exec (command c) ("show op ." +:+ nl)) as [p out].
    cbn [stdout active command fst snd] in *. now rewrite Hout, Hans. }
  destruct Hc0 as (Hs0 & Ha0).
  destruct (decide (smc_hook ∈ lines)) as [Hin|Hno].
  - rewrite bool_decide_true by assumption.
    apply list_elem_of_In in Hin.
    destruct (first_occurrence smc_hook lines Hin) as (pre & post & -> & Hpre).
    rewrite (for_lines_break _ (fun _ _ => false) smc_hook pre post false true c0 Hl);
      [| |exact Hs0|].
    + cbn [mbind outcome_bind].
      assert (Hpost : Forall is_line post).
      { apply Forall_app in Hl as [_ Hl]. now inversion Hl. }
      rewrite (advanceUntilPrompt_answer (set_stdout c0 (answer post)) post Hpost eq_refl).
      cbn [mbind outcome_bind]. eexists. split; [reflexivity|].
      split; [exact Ha0|reflexivity].
    + intros l s Hlin.
      destruct (String.eqb_spec l ("    id-hook StrategyModelCheckerSymbol" +:+ nl))
        as [->|Hne]; [contradiction|reflexivity].
    + unfold smc_hook. now rewrite String.eqb_refl.
  - rewrite bool_decide_false by assumption.
    rewrite (for_lines_fold _ (fun _ _ => false) lines false c0 Hl); [| |exact Hs0].
    + cbn [mbind outcome_bind].
      rewrite (advanceUntilPrompt_answer (set_stdout c0 maudePrompt) []);
        [|constructor|reflexivity].
      cbn [mbind outcome_bind].
      exists (set_stdout (set_stdout c0 maudePrompt) EmptyString).
      split; [|split; [exact Ha0|reflexivity]].
      do 2 f_equal. clear. induction lines as [|l lines IH]; [reflexivity|exact IH].
    + intros l s Hlin.
      destruct (String.eqb_spec l ("    id-hook StrategyModelCheckerSymbol" +:+ nl))
        as [->|Hne]; [|reflexivity].
      exfalso. apply Hno. now apply list_elem_of_In.
Qed.

(** [X21] On an answer that declares a strategy on every
    line, [Strategies] returns the strategies in the order of the
    answer, each with its name, the sorts of its parameters (the text
    between the colon and the at sign, split at the blanks; none when
    there is no colon) and the sort of its subject. *)
Theorem Strategies_lists_the_strategies (c : Client)
    (strats : list (string * option string * string)) :
  at_prompt c ->
  Forall (fun st => is_sort_name st.1.1 /\ is_sort_name st.2
                    /\ forall ps, st.1.2 = Some ps -> is_params_text ps) strats ->
  snd (exec (command c) ("show strats ." +:+ nl)) = answer (strat_line <$> strats) ->
  exists c', Strategies c = Done (strat_of <$> strats, c') /\ at_prompt c'.
Proof.
  intros [Hact Hout] Hstrats Hans. unfold Strategies. rewrite Hact. cbn [negb].
  set (c0 := stdin_Write ("show strats ." +:+ nl) c).
  assert (Hc0 : stdout c0 = answer (strat_line <$> strats) /\ active c0 = true).
  { unfold c0, stdin_Write.
    destruct (exec (command c) ("show strats ." +:+ nl)) as [p out].
    cbn [stdout active command fst snd] in *. now rewrite Hout, Hans. }
  destruct Hc0 as (Hs0 & Ha0).
  assert (Hl : Forall is_line (strat_line <$> strats)).
  { apply Forall_fmap. eapply Forall_impl; [exact Hstrats|].
    intros st (Hn & Hs & Hp). now apply strat_line_is_line. }
  set (step := fun (str : string) (acc : list NamedStrategy) =>
         match FindStringSubmatch 3 stratRegex str with
         | Some m =>
             acc ++ [mkNamedStrategy (default "" (m !! 1%nat))
                       (if (0 <? String.length (default "" (m !! 2%nat)))%nat
                        then Split (default "" (m !! 2%nat)) " " else [])
                       (default "" (m !! 3%nat))]
         | None => acc
         end).
  assert (Hstep : forall st acc,
            is_sort_name st.1.1 /\ is_sort_name st.2
            /\ (forall ps, st.1.2 = Some ps -> is_params_text ps) ->
            step (strat_line st) acc = acc ++ [strat_of st]).
  { intros st acc (Hn & Hs & Hp). unfold step.
    destruct (stratRegex_strat_line st Hn Hs Hp) as [whole ->].
    cbn [lookup list_lookup]. f_equal. unfold strat_of.
    destruct st as [[name [ps|]] subject]; cbn [fst snd default from_option id].
    - destruct (Hp ps eq_refl) as [Hne _].
      destruct ps; [contradiction|]. reflexivity.
    - reflexivity. }
  rewrite (for_lines_fold _ step (strat_line <$> strats) [] c0 Hl); [| |exact Hs0].
  - cbn [mbind outcome_bind].
    rewrite (advanceUntilPrompt_answer (set_stdout c0 maudePrompt) []);
      [|constructor|reflexivity].
    cbn [mbind outcome_bind].
    assert (Hfold : forall acc,
      foldl (fun s l => step l s) acc (strat_line <$> strats)
      = acc ++ (strat_of <$> strats)).
    { clear Hans Hs0 Hl. induction Hstrats as [|st strats Hst _ IH]; intros acc.
      - cbn. now rewrite app_nil_r.
      - rewrite !fmap_cons. cbn [foldl]. rewrite (Hstep st acc Hst).
        rewrite IH. now rewrite <- app_assoc. }
    rewrite (Hfold []). cbn [app].
    eexists. split; [reflexivity|]. split; [exact Ha0|reflexivity].
  - intros l s Hin. apply list_elem_of_In, list_elem_of_fmap in Hin as (st & -> & Hm).
    pose proof (proj1 (Forall_forall _ _) Hstrats st Hm) as (Hn & Hs & Hp).
    unfold step.
    destruct (stratRegex_strat_line st Hn Hs Hp) as [whole ->].
    reflexivity.
Qed.

End Listing.
End ListingFacts3.

Module ListingFacts4.
Import Strings Regexp Maude Protocol MaudeExamples MaudeFacts Transcript DriverFacts Listings ListingFacts Listings2 ListingFacts3.
Import SessionExamples SessionExamples2.

Lemma SmcAvailable_finds_the_hook_witness :
  exists c',
    SmcAvailable (asked (answer some_ops))
    = Done (bool_decide (smc_hook ∈ some_ops), c') /\ at_prompt c'.
Proof.
  apply (SmcAvailable_finds_the_hook (asked (answer some_ops)) some_ops).
  - split; reflexivity.
  - unfold some_ops. concrete_lines.
  - reflexivity.
Defined.

Lemma Strategies_lists_the_strategies_witness :
  exists c',
    Strategies (asked (answer (strat_line <$> some_strats)))
    = Done (strat_of <$> some_strats, c') /\ at_prompt c'.
Proof.
  apply (Strategies_lists_the_strategies
           (asked (answer (strat_line <$> some_strats))) some_strats).
  - split; reflexivity.
  - repeat apply List.Forall_cons; [| |apply List.Forall_nil];
      (split; [split; [discriminate|reflexivity]
              |split; [split; [discriminate|reflexivity]|]]);
      cbn [fst snd]; intros ps [= <-]; split; [discriminate|reflexivity].
  - reflexivity.
Defined.

End ListingFacts4.

(** ** Cleaning and escaping *)

Module UtilFacts.
Import Strings Regexp Util Protocol MaudeFacts UtilSpec.

Lemma append_empty (s : string) : s +:+ EmptyString = s.
Proof.
  induction s as [|c s IH]; [reflexivity|]. rewrite append_cons. now rewrite IH.
Qed.

Lemma CleanString_go_plain (a b : string) :
  all_chars not_ESC a = true ->
  CleanString_go false (a +:+ b) = a +:+ CleanString_go false b.
Proof.
  induction a as [|c a IH]; intros Ha; [now rewrite !append_nil|].
  cbn [all_chars] in Ha. apply andb_true_iff in Ha as [Hc Ha].
  rewrite !append_cons. cbn [CleanString_go].
  unfold not_ESC in Hc. apply negb_true_iff in Hc. rewrite Hc.
  now rewrite IH.
Qed.

Lemma CleanString_go_code (code b : string) :
  all_chars not_m code = true ->
  CleanString_go true (code +:+ String "m" b) = CleanString_go false b
  /\ CleanString_go true code = EmptyString.
Proof.
  induction code as [|c code IH]; intros Hc.
  - rewrite append_nil. cbn [CleanString_go]. auto.
  - cbn [all_chars] in Hc. apply andb_true_iff in Hc as [Hm Hc].
    rewrite append_cons. cbn [CleanString_go]. unfold not_m in Hm.
    rewrite Hm. now apply IH.
Qed.

(** [X22] [CleanString] removes a control code, from the
    escape character to the next [m], and keeps the text around it; a
    control code that is not closed by an [m] takes the rest of the
    string with it. *)
Theorem CleanString_removes_control_codes (a code b : string) :
  all_chars not_ESC a = true -> all_chars not_m code = true ->
  CleanString (a +:+ String ESC (code +:+ String "m" b)) = a +:+ CleanString b
  /\ CleanString (a +:+ String ESC code) = a.
Proof.
  intros Ha Hc. unfold CleanString. rewrite !CleanString_go_plain by assumption.
  cbn [CleanString_go]. unfold ESC at 2 4. rewrite Ascii.eqb_refl.
  destruct (CleanString_go_code code b Hc) as [-> ->].
  split; [reflexivity|]. apply append_empty.
Qed.

Lemma CleanString_removes_control_codes_witness :
  CleanString ("a " +:+ String ESC ("[31" +:+ String "m" "b")) = "a " +:+ CleanString "b"
  /\ CleanString ("a " +:+ String ESC "[31") = "a ".
Proof.
  apply (CleanString_removes_control_codes "a " "[31" "b"); reflexivity.
Defined.

Lemma CleanString_go_clean : forall s skipping,
  all_chars not_ESC (CleanString_go skipping s) = true.
Proof.
  induction s as [|c s IH]; intros skipping; [now destruct skipping|].
  cbn [CleanString_go]. destruct skipping; [apply IH|].
  destruct (Ascii.eqb c ESC) eqn:Hc; [apply IH|].
  cbn [all_chars]. unfold not_ESC at 1. rewrite Hc. apply IH.
Qed.

(** [X23] The result of [CleanString] holds no escape
    character; a string without escape character is returned as it is,
    and cleaning twice is cleaning once. *)
Theorem CleanString_leaves_no_escape (s : string) :
  all_chars not_ESC (CleanString s) = true
  /\ (all_chars not_ESC s = true -> CleanString s = s)
  /\ CleanString (CleanString s) = CleanString s.
Proof.
  assert (Hid : forall t, all_chars not_ESC t = true -> CleanString t = t).
  { intros t Ht. unfold CleanString.
    rewrite <- (append_empty t) at 1.
    rewrite (CleanString_go_plain t EmptyString Ht). cbn [CleanString_go].
    apply append_empty. }
  split; [apply CleanString_go_clean|]. split; [apply Hid|].
  apply Hid, CleanString_go_clean.
Qed.

Lemma html_safe_unfold (c : ascii) :
  html_safe c
  = negb (Ascii.eqb c "<" || (Ascii.eqb c ">" || (Ascii.eqb c "'"
          || (Ascii.eqb c (ascii_of_nat 34) || false)))).
Proof. reflexivity. Qed.

Lemma EscapeString_safe (s : string) : all_chars html_safe (EscapeString s) = true.
Proof.
  induction s as [|c s IH]; [reflexivity|].
  cbn [EscapeString]. rewrite all_chars_append, IH, andb_true_r.
  destruct (Ascii.eqb c "&"); [reflexivity|].
  destruct (Ascii.eqb c "'") eqn:H1; [reflexivity|].
  destruct (Ascii.eqb c "<") eqn:H2; [reflexivity|].
  destruct (Ascii.eqb c ">") eqn:H3; [reflexivity|].
  destruct (Ascii.eqb c (ascii_of_nat 34)) eqn:H4; [reflexivity|].
  cbn [all_chars]. rewrite andb_true_r, html_safe_unfold.
  now rewrite H1, H2, H3, H4.
Qed.

Lemma escape_quotes_safe (s : string) :
  all_chars html_safe s = true -> escape_quotes s = s.
Proof.
  induction s as [|c s IH]; intros Hs; [reflexivity|].
  cbn [all_chars] in Hs. apply andb_true_iff in Hs as [Hc Hs].
  cbn [escape_quotes]. rewrite (IH Hs).
  rewrite html_safe_unfold in Hc.
  destruct (Ascii.eqb c (ascii_of_nat 34)); [|reflexivity].
  now rewrite !orb_true_r in Hc.
Qed.

(** [X24] What [CleanHtmlString] returns holds no [<], [>],
    quote or double quote, so the replacement of double quotes in
    [CleanEscapeString] finds none: both functions return the same
    string. *)
Theorem CleanEscapeString_is_CleanHtmlString (s : string) :
  all_chars html_safe (CleanHtmlString s) = true
  /\ CleanEscapeString s = CleanHtmlString s.
Proof.
  split; [apply EscapeString_safe|].
  unfold CleanEscapeString. apply escape_quotes_safe, EscapeString_safe.
Qed.

End UtilFacts.

(** ** The graph renderer on dumps read from a file *)

Module GrapherExtras.
Import Grapher GraphSpec GraphExamples GraphSpec2 GrapherFacts.
Import Smcdump DumpFormat DumpExamples DumpFacts StateFormat DumpExtras.

Lemma table_of_lookup {A} (zero : A) (l : list A) (n : Z) (x : A) :
  0 <= n -> l !! Z.to_nat n = Some x -> table_of zero l n = x.
Proof.
  intros Hn Hl. unfold table_of. destruct (Z.ltb_spec n 0); [lia|]. now rewrite Hl.
Qed.

Lemma loaded_tabular (c : Contents) :
  well_formed c -> Forall well_formed_state (c_states c) -> refs_valid c ->
  Tabular (loaded c) (fun n => 0 <= n < Z.of_nat (length (c_states c)))
          (table_of (mkState [] false 0 0) (c_states c))
          (table_of EmptyString (c_strings c)).
Proof.
  intros Hwf Hsts Hrefs.
  assert (Hstate : forall n, 0 <= n < Z.of_nat (length (c_states c)) ->
            exists st, c_states c !! Z.to_nat n = Some st
              /\ table_of (mkState [] false 0 0) (c_states c) n = st).
  { intros n Hn. destruct (lookup_lt_is_Some_2 (c_states c) (Z.to_nat n)) as [st Hst];
      [lia|]. exists st. split; [exact Hst|]. apply table_of_lookup; [lia|exact Hst]. }
  assert (Hstring : forall d k, loaded c d -> valid_ref c k ->
            GetString k d = Done (table_of EmptyString (c_strings c) k)).
  { intros d k ((_ & Hsi & Hc & Hopen) & _) Hk. unfold valid_ref in Hk.
    destruct (lookup_lt_is_Some_2 (c_strings c) (Z.to_nat k)) as [s Hs]; [lia|].
    rewrite (table_of_lookup _ _ _ _ (proj1 Hk) Hs).
    rewrite <- (Z2Nat.id k) at 1 by lia.
    now apply (GetString_encode c d (Z.to_nat k) s). }
  split.
  - intros d n (Hr & Hp & Hcy & Hn') Hn.
    destruct (Hstate n Hn) as (st & Hst & ->).
    pose proof Hr as (Hsi & Hsti & Hc & Hopen).
    destruct (GetState_encode c d (Z.to_nat n) st Hwf Hsts Hsi Hc Hopen Hst)
      as (f' & Hget & Hc' & Hopen').
    rewrite Z2Nat.id in Hget by lia.
    eexists. split; [exact Hget|].
    split; [now apply reads_set_file|]. auto.
  - intros d n Hl Hn. destruct (Hstate n Hn) as (st & Hst & ->).
    apply Hstring; [exact Hl|].
    exact (proj1 (Forall_lookup_1 _ _ _ _ Hrefs Hst)).
  - intros d n Hl Hn. destruct (Hstate n Hn) as (st & Hst & ->).
    apply Hstring; [exact Hl|].
    exact (proj1 (proj2 (Forall_lookup_1 _ _ _ _ Hrefs Hst))).
  - intros d n tr Hl Hn Hin Hty. destruct (Hstate n Hn) as (st & Hst & Heq).
    rewrite Heq in Hin. apply Hstring; [exact Hl|].
    pose proof (proj2 (proj2 (Forall_lookup_1 _ _ _ _ Hrefs Hst))) as Hlab.
    rewrite Forall_forall in Hlab. apply Hlab; [now apply list_elem_of_In|].
    destruct Hty as [-> | ->]; discriminate.
Qed.

Lemma all_edges (i : Z) (succs : list Transition) :
  (fun tr => (i, Target tr)) <$> edges_to (-1) succs
  = (fun tr => (i, Target tr)) <$> succs.
Proof.
  f_equal. unfold edges_to. induction succs as [|tr succs IH]; [reflexivity|].
  cbn [List.filter]. change ((-1 <? 0) || (Target tr =? -1)) with true.
  cbv iota. f_equal. exact IH.
Qed.

Lemma drawn_all (l : list State) :
  (fun i => drawn (table_of (mkState [] false 0 0) l) (i, -1))
    <$> seqZ 0 (Z.of_nat (length l))
  = imap (fun i st => (fun tr => (Z.of_nat i, Target tr)) <$> Successors st) l.
Proof.
  apply list_eq. intros i. rewrite list_lookup_fmap, list_lookup_imap.
  destruct (l !! i) as [st|] eqn:Hst.
  - pose proof (lookup_lt_Some _ _ _ Hst) as Hi.
    rewrite lookup_seqZ_lt by lia. cbn [fmap option_fmap option_map].
    f_equal. unfold drawn. cbn [fst snd]. rewrite all_edges. rewrite Z.add_0_l.
    rewrite (table_of_lookup _ l (Z.of_nat i) st); [reflexivity|lia|].
    now rewrite Nat2Z.id.
  - apply lookup_ge_None in Hst.
    rewrite lookup_seqZ_ge by lia. reflexivity.
Qed.

(** [X25] For a dump file written in the format, whose states refer
    to strings of its table: [Read] returns a dump, and [GenerateDot]
    on it draws every state once, in the order of their numbers, and an
    edge for every transition of every state, in the order of the
    file. *)
Theorem GenerateDot_draws_the_automaton (c : Contents) (fpath : string)
    (os : Os.t) (g : Grapher) :
  well_formed c -> Forall well_formed_state (c_states c) -> refs_valid c ->
  Os.disk os !! fpath = Some (encode c) ->
  exists d out g' d',
    fst (Read fpath os) = Done (Opened d)
    /\ GenerateDot g d = Done (out, g', d')
    /\ node_statements out = seqZ 0 (Z.of_nat (length (c_states c)))
    /\ edge_statements out
       = concat (imap (fun i st => (fun tr => (Z.of_nat i, Target tr))
                                     <$> Successors st) (c_states c)).
Proof.
  intros Hwf Hsts Hrefs Hd.
  destruct (Read_reads c fpath os Hwf Hd) as (d & Hread & Hreads & _ & _ & Hn & Hp & Hc).
  assert (Hl : loaded c d) by (repeat split; auto; apply Hreads).
  pose proof (wf_size c Hwf) as Hsize. pose proof (length_encode c) as Hlen.
  destruct (GenerateDot_returns (loaded c) _ _ _ (loaded_tabular c Hwf Hsts Hrefs)
              (if c_holds c then [] else c_path c)
              (if c_holds c then [] else c_cycle c)
              (Z.of_nat (length (c_states c)))
              (fun d Hd => proj2 Hd) g d Hl)
    as (body & g' & d' & Hgen & Hnodes & Hedges & _).
  - apply Forall_forall. intros i Hi. apply elem_of_seqZ in Hi. lia.
  - unfold table_base, strings_base, states_base in Hlen. lia.
  - exists d. eexists. exists g', d'. split; [exact Hread|]. split; [exact Hgen|].
    rewrite !node_statements_app, !edge_statements_app.
    assert (Hleg : forall terms strats,
              node_statements (if gopt g is Legend then legend_block terms strats else []) = []
              /\ edge_statements (if gopt g is Legend then legend_block terms strats else []) = []).
    { intros terms strats. destruct (gopt g); try (split; reflexivity).
      unfold legend_block. rewrite !node_statements_app, !edge_statements_app.
      split.
      - cbn. rewrite !app_nil_r.
        assert (Hno : forall rows : list (Z * string),
                  node_statements ((fun r => LegendElem r.1 r.2) <$> rows) = []).
        { induction rows as [|r rows IH]; [reflexivity|exact IH]. }
        now rewrite !Hno.
      - cbn. rewrite !app_nil_r.
        assert (Hno : forall rows : list (Z * string),
                  edge_statements ((fun r => LegendElem r.1 r.2) <$> rows) = []).
        { induction rows as [|r rows IH]; [reflexivity|exact IH]. }
        now rewrite !Hno. }
    destruct (Hleg (legend_row (table_of EmptyString (c_strings c))
                      <$> term_keys (table_of (mkState [] false 0 0) (c_states c))
                            (seqZ 0 (Z.of_nat (length (c_states c)))))
                   (legend_row (table_of EmptyString (c_strings c))
                      <$> strat_keys (table_of (mkState [] false 0 0) (c_states c))
                            (seqZ 0 (Z.of_nat (length (c_states c)))))) as [-> ->].
    rewrite Hnodes, Hedges, drawn_all. cbn [node_statements edge_statements omap app].
    now rewrite !app_nil_r.
Qed.

Lemma lasso_refs_valid : refs_valid lasso.
Proof.
  repeat first
    [ apply List.Forall_cons | apply List.Forall_nil
    | (intros _; vm_compute; split; [discriminate|reflexivity])
    | (vm_compute; split; [discriminate|reflexivity])
    | split ].
Qed.

Lemma GenerateDot_draws_the_automaton_witness :
  exists d out g' d',
    fst (Smcdump.Read "trace.dump" (disk_of "trace.dump" (encode lasso)))
    = Done (Smcdump.Opened d)
    /\ GenerateDot (MakeGrapher Legend) d = Done (out, g', d')
    /\ node_statements out = seqZ 0 (Z.of_nat (length (c_states lasso)))
    /\ edge_statements out
       = concat (imap (fun i st => (fun tr => (Z.of_nat i, Smcdump.Target tr))
                                     <$> Smcdump.Successors st) (c_states lasso)).
Proof.
  apply (GenerateDot_draws_the_automaton lasso "trace.dump"
           (disk_of "trace.dump" (encode lasso)) (MakeGrapher Legend)).
  - exact lasso_well_formed.
  - exact lasso_states_well_formed.
  - exact lasso_refs_valid.
  - reflexivity.
Defined.

End GrapherExtras.

Module GrapherExtras2.
Import Grapher GraphSpec GraphExamples GraphSpec2 GrapherFacts MaudeFacts.

Section Labels.
Context {D : Type} `{SmcDump D}.

Lemma length_take_le (n : nat) (s : string) :
  (String.length (Strings.take n s) <= n)%nat.
Proof.
  revert s. induction n as [|n IH]; intros [|c s]; cbn; try lia.
  specialize (IH s). lia.
Qed.

Lemma edge_label_short (tr : Smcdump.Transition) (d : D) (l : string) :
  edge_label tr d = Done l -> (String.length l <= 23)%nat.
Proof.
  unfold edge_label.
  match goal with |- mbind _ ?m = _ -> _ => destruct m as [label| |] end;
    cbn [mbind outcome_bind]; [|discriminate..].
  pose proof (length_take_le 20 label) as Htk.
  remember (Strings.take 20 label) as tk eqn:Etk. clear Etk.
  intros [= <-].
  destruct (Nat.ltb_spec 20 (String.length label)); [|lia].
  rewrite length_append. change (String.length "...") with 3%nat. lia.
Qed.

Lemma graphEdges_short (n t : Z) (d : D) : forall succs out,
  graphEdges n t succs d = Done out -> Forall short_label out.
Proof.
  induction succs as [|tr succs IH]; intros out.
  - intros [= <-]. constructor.
  - cbn [graphEdges].
    destruct ((t <? 0) || (Smcdump.Target tr =? t)).
    + destruct (edge_label tr d) as [l| |] eqn:Hl; cbn [mbind outcome_bind];
        [|discriminate..].
      destruct (graphEdges n t succs d) as [more| |]; cbn [mbind outcome_bind];
        [|discriminate..].
      intros [= <-]. constructor; [exact (edge_label_short _ _ _ Hl)|now apply IH].
    + cbn [mbind outcome_bind].
      destruct (graphEdges n t succs d) as [more| |]; cbn [mbind outcome_bind];
        [|discriminate..].
      intros [= <-]. now apply IH.
Qed.

Lemma graphState_short (n t : Z) (g : Grapher) (d : D) out g' d' :
  graphState n t g d = Done (out, g', d') -> Forall short_label out.
Proof.
  unfold graphState.
  destruct (State n d) as [[st d1]| |]; cbn [mbind outcome_bind]; [|discriminate..].
  match goal with
  | |- mbind _ ?m = _ -> _ => destruct m as [[label g1]| |] eqn:Hlab
  end; cbn [mbind outcome_bind]; [|discriminate..].
  destruct (graphEdges n t (Smcdump.Successors st) d1) as [edges| |] eqn:He;
    cbn [mbind outcome_bind]; [|discriminate..].
  intros [= <- _ _].
  assert (Hlabel : Forall short_label label).
  { destruct (gopt g).
    - injection Hlab as <- _. repeat constructor.
    - destruct (GetString _ d1); [|discriminate..]. injection Hlab as <- _.
      repeat constructor.
    - destruct (GetString _ d1); [|discriminate..]. injection Hlab as <- _.
      repeat constructor.
    - injection Hlab as <- _. repeat constructor. }
  pose proof (graphEdges_short _ _ _ _ _ He) as Hedges.
  assert (Hfilled : Forall short_label
            (if Smcdump.Solution st then [Text ", style = filled"] else []))
    by (destruct (Smcdump.Solution st); repeat constructor).
  repeat first [ assumption | apply Forall_app_2 | apply List.Forall_cons
               | apply List.Forall_nil | exact I ].
Qed.

Lemma graphStates_short : forall l (g : Grapher) (d : D) out g' d',
  graphStates l g d = Done (out, g', d') -> Forall short_label out.
Proof.
  induction l as [|i l IH]; intros g d out g' d'.
  - intros [= <- _ _]. constructor.
  - cbn [graphStates].
    destruct (graphState (int32 i) (-1) g d) as [[[here g1] d1]| |] eqn:Hh;
      cbn [mbind outcome_bind]; [|discriminate..].
    destruct (graphStates l g1 d1) as [[[more g2] d2]| |] eqn:Hm;
      cbn [mbind outcome_bind]; [|discriminate..].
    intros [= <- _ _]. apply Forall_app. split.
    + exact (graphState_short _ _ _ _ _ _ _ Hh).
    + exact (IH _ _ _ _ _ Hm).
Qed.

Lemma graphTrace_short (arr cycle : list Z) : forall nodes pos (g : Grapher) (d : D) out g' d',
  graphTrace pos nodes arr cycle g d = Done (out, g', d') -> Forall short_label out.
Proof.
  induction nodes as [|n nodes IH]; intros pos g d out g' d'.
  - intros [= <- _ _]. constructor.
  - cbn [graphTrace].
    match goal with
    | |- mbind _ ?m = _ -> _ => destruct m as [t| |]
    end; cbn [mbind outcome_bind]; [|discriminate..].
    destruct (graphState n t g d) as [[[here g1] d1]| |] eqn:Hh;
      cbn [mbind outcome_bind]; [|discriminate..].
    destruct (graphTrace (S pos) nodes arr cycle g1 d1) as [[[more g2] d2]| |] eqn:Hm;
      cbn [mbind outcome_bind]; [|discriminate..].
    intros [= <- _ _]. apply Forall_app. split.
    + exact (graphState_short _ _ _ _ _ _ _ Hh).
    + exact (IH _ _ _ _ _ _ Hm).
Qed.

Lemma legend_rows_short (d : D) : forall keys rows,
  legend_rows keys d = Done rows -> Forall short_label rows.
Proof.
  induction keys as [|k keys IH]; intros rows.
  - intros [= <-]. constructor.
  - cbn [legend_rows].
    destruct (GetString k d); cbn [mbind outcome_bind]; [|discriminate..].
    destruct (legend_rows keys d) as [more| |]; cbn [mbind outcome_bind];
      [|discriminate..].
    intros [= <-]. constructor; [exact I|now apply IH].
Qed.

Lemma legend_short (g : Grapher) (d : D) out :
  (if gopt g is Legend then generateLegend g d else Done []) = Done out ->
  Forall short_label out.
Proof.
  destruct (gopt g); try (intros [= <-]; constructor).
  unfold generateLegend.
  destruct (legend_rows (elements (seenTerms g)) d) as [terms| |] eqn:Ht;
    cbn [mbind outcome_bind]; [|discriminate..].
  destruct (legend_rows (elements (seenStrats g)) d) as [strats| |] eqn:Hs;
    cbn [mbind outcome_bind]; [|discriminate..].
  intros [= <-].
  pose proof (legend_rows_short _ _ _ Ht). pose proof (legend_rows_short _ _ _ Hs).
  repeat first [ assumption | apply Forall_app_2 | apply List.Forall_cons
               | apply List.Forall_nil | exact I ].
Qed.

(** [X26] In what [GenerateDot] and [GenerateCounterDot] write,
    the label of an edge has at most 23 bytes: a label of more than 20
    bytes is cut after 20 and followed by three dots. *)
Theorem edge_labels_are_cut (g : Grapher) (d : D) (out : list item)
    (g' : Grapher) (d' : D) :
  GenerateDot g d = Done (out, g', d')
  \/ GenerateCounterDot g d = Done (out, g', d') ->
  Forall short_label out.
Proof.
  intros [Hgen|Hgen]; revert Hgen.
  - unfold GenerateDot.
    destruct (graphStates _ (Clean g) d) as [[[body g1] d1]| |] eqn:Hb;
      cbn [mbind outcome_bind]; [|discriminate..].
    destruct (if gopt g1 is Legend then generateLegend g1 d1 else Done [])
      as [legend| |] eqn:Hl; cbn [mbind outcome_bind]; [|discriminate..].
    intros [= <- _ _].
    pose proof (graphStates_short _ _ _ _ _ _ Hb).
    pose proof (legend_short _ _ _ Hl).
    repeat first [ assumption | apply Forall_app_2 | apply List.Forall_cons
                 | apply List.Forall_nil | exact I ].
  - unfold GenerateCounterDot.
    destruct (graphTrace 0 (Path d) (Path d) (Cycle d) (Clean g) d)
      as [[[body1 g1] d1]| |] eqn:Hb1; cbn [mbind outcome_bind]; [|discriminate..].
    destruct (graphTrace 0 (Cycle d1) (Cycle d) (Cycle d) g1 d1)
      as [[[body2 g2] d2]| |] eqn:Hb2; cbn [mbind outcome_bind]; [|discriminate..].
    destruct (if gopt g2 is Legend then generateLegend g2 d2 else Done [])
      as [legend| |] eqn:Hl; cbn [mbind outcome_bind]; [|discriminate..].
    intros [= <- _ _].
    pose proof (graphTrace_short _ _ _ _ _ _ _ _ _ Hb1).
    pose proof (graphTrace_short _ _ _ _ _ _ _ _ _ Hb2).
    pose proof (legend_short _ _ _ Hl).
    repeat first [ assumption | apply Forall_app_2 | apply List.Forall_cons
                 | apply List.Forall_nil | exact I ].
Qed.

End Labels.

Lemma edge_labels_are_cut_witness : Forall short_label lasso_dot.
Proof.
  eapply (edge_labels_are_cut (MakeGrapher Short) lasso_dump lasso_dot).
  left. vm_compute. reflexivity.
Defined.

Import DumpFormat DumpExamples DumpFacts StateFormat DumpExtras.

(** The accessors of a dump return or panic: they wait for nothing. *)
Lemma GetState_not_Blocks (n : Z) (d : Smcdump.smcdump) : Smcdump.GetState n d <> Blocks.
Proof.
  unfold Smcdump.GetState, index, make.
  destruct (n <? 0); [discriminate|].
  destruct (Smcdump.statesIndex d !! Z.to_nat n); [|discriminate].
  cbn [mbind outcome_bind].
  repeat match goal with
         | |- context [let '(_, _) := ?e in _] => destruct e
         end.
  destruct (_ <? 0); [discriminate|]. cbn [mbind outcome_bind].
  repeat match goal with
         | |- context [let '(_, _) := ?e in _] => destruct e
         end.
  discriminate.
Qed.

Lemma GetString_not_Blocks (n : Z) (d : Smcdump.smcdump) : Smcdump.GetString n d <> Blocks.
Proof.
  unfold Smcdump.GetString, index, make.
  destruct (int32 (n + 1) <? 0); [discriminate|].
  destruct (Smcdump.stringsIndex d !! Z.to_nat (int32 (n + 1))); [|discriminate].
  cbn [mbind outcome_bind].
  destruct (n <? 0); [discriminate|].
  destruct (Smcdump.stringsIndex d !! Z.to_nat n); [|discriminate].
  cbn [mbind outcome_bind].
  destruct (_ <? 0); discriminate.
Qed.

Ltac not_blocked :=
  repeat match goal with
         | H : ?m <> Blocks |- context [?m] =>
             destruct m;
               [clear H|cbn [mbind outcome_bind]; discriminate|contradiction]
         | |- _ => progress cbn [mbind outcome_bind]
         end;
  try discriminate.

Lemma edge_label_not_Blocks (tr : Smcdump.Transition) (d : Smcdump.smcdump) :
  edge_label tr d <> Blocks.
Proof.
  unfold edge_label.
  pose proof (GetString_not_Blocks (Smcdump.Label tr) d) as Hs.
  change (GetString (Smcdump.Label tr) d) with (Smcdump.GetString (Smcdump.Label tr) d).
  destruct (Smcdump.TrType tr =? Smcdump.Idle); [discriminate|].
  destruct (Smcdump.TrType tr =? Smcdump.Rule); [not_blocked|].
  destruct (Smcdump.TrType tr =? Smcdump.Opaque); not_blocked.
Qed.

Lemma graphEdges_not_Blocks (n t : Z) (d : Smcdump.smcdump) : forall succs,
  graphEdges n t succs d <> Blocks.
Proof.
  induction succs as [|tr succs IH]; [discriminate|].
  cbn [graphEdges]. pose proof (edge_label_not_Blocks tr d) as Hl.
  destruct ((t <? 0) || (Smcdump.Target tr =? t)); not_blocked.
Qed.

Lemma graphState_not_Blocks (n t : Z) (g : Grapher) (d : Smcdump.smcdump) :
  graphState n t g d <> Blocks.
Proof.
  unfold graphState.
  pose proof (GetState_not_Blocks n d) as Hs.
  change (State n d) with (Smcdump.GetState n d).
  destruct (Smcdump.GetState n d) as [[st d1]| |]; [|discriminate|contradiction].
  cbn [mbind outcome_bind].
  pose proof (GetString_not_Blocks (Smcdump.Term st) d1) as Hterm.
  pose proof (GetString_not_Blocks (Smcdump.Strategy st) d1) as Hstrat.
  pose proof (graphEdges_not_Blocks n t d1 (Smcdump.Successors st)) as He.
  change (GetString (Smcdump.Term st) d1) with (Smcdump.GetString (Smcdump.Term st) d1).
  change (GetString (Smcdump.Strategy st) d1) with (Smcdump.GetString (Smcdump.Strategy st) d1).
  destruct (gopt g); not_blocked.
Qed.

Lemma graphTrace_no_cycle (arr : list Z) : forall nodes pos (g : Grapher) (d : Smcdump.smcdump),
  nodes <> [] -> drop pos arr = nodes ->
  graphTrace pos nodes arr [] g d = Panics.
Proof.
  induction nodes as [|n nodes IH]; intros pos g d Hne Hdrop; [contradiction|].
  cbn [graphTrace].
  assert (Hlen : length arr = (pos + S (length nodes))%nat).
  { pose proof (f_equal length Hdrop) as Hl. rewrite length_drop in Hl.
    cbn [length] in Hl. lia. }
  destruct (Nat.eqb_spec (pos + 1) (length arr)) as [Hlast|Hmore]; [reflexivity|].
  assert (Hnodes : nodes <> []) by (destruct nodes; [cbn in Hlen; lia|discriminate]).
  assert (Hnext : drop (S pos) arr = nodes).
  { replace (S pos) with (pos + 1)%nat by lia. now rewrite <- drop_drop, Hdrop. }
  destruct (lookup_lt_is_Some_2 arr (pos + 1)) as [t Ht]; [lia|].
  unfold index. destruct (Z.ltb_spec (Z.of_nat (pos + 1)) 0); [lia|].
  rewrite Nat2Z.id, Ht. cbn [mbind outcome_bind].
  pose proof (graphState_not_Blocks n t g d) as Hs.
  destruct (graphState n t g d) as [[[here g1] d1]| |]; [|reflexivity|contradiction].
  cbn [mbind outcome_bind]. now rewrite (IH (S pos) g1 d1 Hnodes Hnext).
Qed.

(** [X27] On a dump with a path and no cycle,
    [GenerateCounterDot] panics: the state that follows the last state
    of the path is taken from the cycle without looking at its
    length. *)
Theorem GenerateCounterDot_needs_a_cycle (g : Grapher) (d : Smcdump.smcdump) :
  Smcdump.Path d <> [] -> Smcdump.Cycle d = [] ->
  GenerateCounterDot g d = Panics.
Proof.
  intros Hp Hc. unfold GenerateCounterDot.
  change (Path d) with (Smcdump.Path d). change (Cycle d) with (Smcdump.Cycle d).
  rewrite Hc. now rewrite (graphTrace_no_cycle (Smcdump.Path d) (Smcdump.Path d) 0).
Qed.

Lemma GenerateCounterDot_needs_a_cycle_witness :
  GenerateCounterDot (MakeGrapher Short) open_path_dump = Panics.
Proof.
  apply (GenerateCounterDot_needs_a_cycle (MakeGrapher Short) open_path_dump).
  - vm_compute. discriminate.
  - vm_compute. reflexivity.
Defined.

End GrapherExtras2.

(** ** The states collected for the page of a counterexample *)

Module WebuiFacts.
Import Strings Util Webui WebuiSpec GraphSpec GraphExamples GraphSpec2.
Import DumpFormat DumpExamples DumpFacts StateFormat DumpExtras GrapherExtras.

Lemma loaded_GetString (c : Contents) (d : Smcdump.smcdump) (k : Z) :
  well_formed c -> loaded c d -> valid_ref c k ->
  GetString k d = Done (table_of EmptyString (c_strings c) k).
Proof.
  intros Hwf ((_ & Hsi & Hc & Hopen) & _) Hk. unfold valid_ref in Hk.
  destruct (lookup_lt_is_Some_2 (c_strings c) (Z.to_nat k)) as [s Hs]; [lia|].
  rewrite (table_of_lookup _ _ _ _ (proj1 Hk) Hs).
  rewrite <- (Z2Nat.id k) at 1 by lia.
  now apply (DumpFacts.GetString_encode c d (Z.to_nat k) s).
Qed.

Lemma collect_transitions_loaded (c : Contents) (d : Smcdump.smcdump) :
  well_formed c -> loaded c d -> forall succs,
  Forall (fun tr => valid_ref c (Smcdump.Label tr)) succs ->
  collect_transitions succs d = Done (transition_data c <$> succs).
Proof.
  intros Hwf Hl. induction succs as [|tr succs IH]; intros Hv; [reflexivity|].
  inversion Hv as [|? ? Htr Hrest]; subst.
  cbn [collect_transitions].
  rewrite (loaded_GetString c d _ Hwf Hl Htr). cbn [mbind outcome_bind].
  rewrite (IH Hrest). reflexivity.
Qed.

(** [X28] [collectStates] on a dump read from a file written in
    the format, for a path of states of the file: it returns, and
    leaves the entries that the map had; for every other state of the
    path it adds the data of the state in the file: its terms cleaned
    of control codes, and for each transition its target, its kind and
    the string of its label (the string number 0 for an idle
    transition). States out of the path get no entry. *)
Theorem collectStates_adds_the_path (c : Contents) (path : list Z) :
  well_formed c -> Forall well_formed_state (c_states c) -> refs_valid c ->
  Forall (fun n => 0 <= n < Z.of_nat (length (c_states c))) path ->
  forall (stateMap : gmap Z stateData) (d : Smcdump.smcdump), loaded c d ->
  exists stateMap' d',
    collectStates stateMap path d = Done (stateMap', d') /\ loaded c d'
    /\ forall n, stateMap' !! n
         = match stateMap !! n with
           | Some x => Some x
           | None => if bool_decide (n ∈ path) then Some (state_data c n) else None
           end.
Proof.
  intros Hwf Hsts Hrefs. induction path as [|k path IH]; intros Hpath m d Hl.
  - exists m, d. split; [reflexivity|]. split; [exact Hl|].
    intros n. destruct (m !! n); [reflexivity|].
    rewrite bool_decide_false; [reflexivity|]. apply not_elem_of_nil.
  - inversion Hpath as [|? ? Hk Hrest]; subst. cbn [collectStates].
    destruct (m !! k) as [x|] eqn:Hmk.
    + destruct (IH Hrest m d Hl) as (m' & d' & Hrun & Hl' & Hm').
      exists m', d'. split; [exact Hrun|]. split; [exact Hl'|].
      intros n. rewrite Hm'. destruct (m !! n) eqn:Hmn; [reflexivity|].
      assert (n <> k) by congruence.
      apply (f_equal (fun b : bool => if b then _ else _)).
      apply bool_decide_ext. rewrite elem_of_cons. tauto.
    + destruct (lookup_lt_is_Some_2 (c_states c) (Z.to_nat k)) as [st Hst]; [lia|].
      pose proof Hl as ((Hsi & Hsti & Hc & Hopen) & Hp & Hcy & Hn).
      destruct (DumpExtras.GetState_encode c d (Z.to_nat k) st Hwf Hsts Hsi Hc Hopen Hst)
        as (f' & Hget & Hc' & Hopen').
      rewrite Z2Nat.id in Hget by lia.
      assert (Hl1 : loaded c (Smcdump.set_file d f')).
      { split; [apply reads_set_file; [repeat split; assumption|assumption..]|].
        auto. }
      pose proof (Forall_lookup_1 _ _ _ _ Hrefs Hst) as (Hvt & Hvs & Hvl).
      pose proof (wf_Successors _ (Forall_lookup_1 _ _ _ _ Hsts Hst)) as Hwt.
      assert (Hlabels : Forall (fun tr => valid_ref c (Smcdump.Label tr))
                               (Smcdump.Successors st)).
      { apply Forall_forall. intros tr Htr.
        pose proof (proj1 (Forall_forall _ _) Hvl tr Htr) as Hv.
        pose proof (proj1 (Forall_forall _ _) Hwt tr Htr) as (_ & _ & Hty).
        destruct Hty as [[Hidle H0]|Hty].
        - rewrite H0. unfold valid_ref in *. lia.
        - apply Hv. destruct Hty as [-> | ->]; discriminate. }
      change (State k d) with (Smcdump.GetState k d). rewrite Hget.
      cbn [mbind outcome_bind].
      rewrite (collect_transitions_loaded c _ Hwf Hl1 _ Hlabels).
      cbn [mbind outcome_bind].
      rewrite (loaded_GetString c _ _ Hwf Hl1 Hvt). cbn [mbind outcome_bind].
      rewrite (loaded_GetString c _ _ Hwf Hl1 Hvs). cbn [mbind outcome_bind].
      match goal with |- context [collectStates ?m1 path ?d1] =>
        destruct (IH Hrest m1 d1 Hl1) as (m' & d' & Hrun & Hl' & Hm') end.
      exists m', d'. split; [exact Hrun|]. split; [exact Hl'|].
      intros n. rewrite Hm'. destruct (decide (n = k)) as [->|Hne].
      * rewrite lookup_insert_eq, Hmk.
        rewrite bool_decide_true by (apply elem_of_cons; now left).
        unfold state_data.
        rewrite (table_of_lookup _ _ _ _ (proj1 Hk) Hst). reflexivity.
      * rewrite lookup_insert_ne by congruence.
        destruct (m !! n); [reflexivity|].
        apply (f_equal (fun b : bool => if b then _ else _)).
        apply bool_decide_ext. rewrite elem_of_cons. tauto.
Qed.

Lemma lasso_loaded : loaded lasso lasso_dump.
Proof. repeat split; vm_compute; reflexivity. Qed.

Lemma collectStates_adds_the_path_witness :
  exists stateMap' d',
    collectStates ∅ [0; 1; 2; 1] lasso_dump = Done (stateMap', d')
    /\ loaded lasso d'
    /\ forall n, stateMap' !! n
         = match (∅ : gmap Z stateData) !! n with
           | Some x => Some x
           | None => if bool_decide (n ∈ [0; 1; 2; 1]) then Some (state_data lasso n)
                     else None
           end.
Proof.
  apply (collectStates_adds_the_path lasso [0; 1; 2; 1]).
  - exact lasso_well_formed.
  - exact lasso_states_well_formed.
  - exact lasso_refs_valid.
  - repeat first [ apply List.Forall_nil | apply List.Forall_cons
                 | (vm_compute; split; [discriminate|reflexivity]) ].
  - exact lasso_loaded.
Defined.

End WebuiFacts.
